(** * Floor-plan editor: geometry, command interpreter and history store

    A shallow embedding of the domain core of the editor
    ([domain/geometry], [domain/naming], [domain/grouping],
    [domain/planFactory], [domain/commands], [domain/io]) and of the
    undo/redo store ([store/usePlanStore]), followed by the properties
    proved of it.

    Conventions of the embedding.
    - A JavaScript [number] is an exact rational in canonical form ([Qc]),
      where the script computes in binary64.  A property of numbers is
      therefore stated in one of two forms that hold of the script's doubles
      as well: a form that rounding preserves (a result is compared with the
      very bound the script computes, as in [x <= canvas.width - width], and
      never with a sum or difference the script does not form), or with a
      condition under which the script's arithmetic is exact (angles that
      are multiples of [2^-20], grid steps that are powers of two, name
      indices below [2^53]).  What holds only of exact rationals is kept in
      lemmas that say so.  [Double] repeats the numeric helpers on binary64
      and shows at concrete inputs what rounding does.  The numbers of a
      plan are finite and their arithmetic does not overflow; NaN and the
      infinities appear only among the run-time values that export prints
      ([jsval]).
    - A count (number of partitions, loop bound) is an integer ([Z]).
    - A string is a sequence of characters with code points below 256
      (Latin-1); strings with other characters are outside the model.
    - An optional property ([parentId?: string]) of a typed record is an
      [option]; a property that is absent and one that holds [undefined] are
      the same [None].  The run-time values that export prints ([jsval])
      keep the two apart.
    - Objects are immutable values: [structuredClone] is the identity, and a
      handler that clones the plan and then assigns into the clone is a
      function from the old plan to the new one.
    - The clock, the UUID generator, the trigonometric functions and the
      polygon-clipping library are supplied by a [Platform] record; a
      handler draws its k-th clock reading and its k-th identifier from it.
    - The interpreter is the current revision of [domain/commands], the one
      with ellipses, mirror and subtract.  The earlier revision differs in
      that it rejected overlapping rects; its test [overlapsAny] is kept
      below, to state what is no longer checked.
    - A decimal literal of the script ([0.6], [0.04]) is the rational it
      spells.
    - Of [domain/geometry], rotation, the centroid and
      [clampPolygonToBounds], which nothing calls, are not embedded. *)

From Stdlib Require Import QArith Qcanon Qcabs Qabs Qround Lqa.
From Stdlib Require Import ZArith NArith Lia Bool List Ascii String DecimalString.
From Stdlib Require DecimalN DecimalPos PrimFloat FloatOps SpecFloat.
From Stdlib Require Uint63Axioms.
Import ListNotations.

(* ================================================================== *)
(** * Numbers *)

Module Num.

Definition num := Qc.

Definition of_Z (z : Z) : num := Q2Qc (inject_Z z).
Definition lit (n : Z) (d : positive) : num := Q2Qc (n # d).

Definition zero : num := of_Z 0.
Definition one : num := of_Z 1.

Definition add (a b : num) : num := Qcplus a b.
Definition sub (a b : num) : num := Qcminus a b.
Definition mul (a b : num) : num := Qcmult a b.
Definition div (a b : num) : num := Qcdiv a b.

(** [a <= b], [a < b], [a === b] as the script evaluates them. *)
Definition leb (a b : num) : bool := Qle_bool a b.
Definition ltb (a b : num) : bool := negb (Qle_bool b a).
Definition eqb (a b : num) : bool := Qeq_bool a b.

Definition Math_max (a b : num) : num := if leb a b then b else a.
Definition Math_min (a b : num) : num := if leb a b then a else b.
Definition Math_abs (a : num) : num := Qcabs a.

(** The remainder operator [%]: the quotient is truncated towards zero,
    so the result carries the sign of the dividend. *)
Definition truncate (a : num) : Z := Z.quot (Qnum a) (Zpos (Qden a)).
Definition rem (a b : num) : num := sub a (mul b (of_Z (truncate (div a b)))).

(** [Math.PI], the double nearest to pi, as the rational it denotes. *)
Definition Math_PI : num := lit 884279719003555 281474976710656.

End Num.
Import Num.

Declare Scope num_scope.
Delimit Scope num_scope with num.
Bind Scope num_scope with num.
Infix "+" := add : num_scope.
Infix "-" := sub : num_scope.
Infix "*" := mul : num_scope.
Infix "/" := div : num_scope.
Infix "<=?" := leb : num_scope.
Infix "<?" := ltb : num_scope.
Infix "=?" := eqb : num_scope.
Notation "a <= b" := (Qcle a b) : num_scope.
Notation "a < b" := (Qclt a b) : num_scope.
Notation "a <= b <= c" := (Qcle a b /\ Qcle b c) : num_scope.

(* ================================================================== *)
(** * The data model ([domain/types]) *)

Inductive Units := Cm | M | Ft.

Record Point := mkPoint { px : num; py : num }.

Definition Ring := list Point.

Record RectShape := mkRect {
  rect_x : num;
  rect_y : num;
  rect_width : num;
  rect_height : num;
  rect_rotation : option num;
  rect_cornerRadius : option num
}.

Record EllipseShape := mkEllipse {
  ell_cx : num;
  ell_cy : num;
  ell_rx : num;
  ell_ry : num
}.

Record PolygonShape := mkPolygon {
  poly_points : Ring;
  poly_holes : option (list Ring);
  poly_rotation : option num
}.

Record MultiPolygonShape := mkMultiPolygon {
  mp_polygons : list Ring;
  mp_holes : option (list (list Ring))
}.

(** The [type] tag of a shape object is the constructor. *)
Inductive Shape :=
| Rect (r : RectShape)
| Ellipse (e : EllipseShape)
| Polygon (p : PolygonShape)
| MultiPolygon (mp : MultiPolygonShape).

Record Area := mkArea {
  area_id : string;
  area_name : string;
  area_fill : string;
  area_stroke : string;
  area_strokeWidth : num;
  area_shape : Shape;
  area_parentId : option string;
  area_labelOffset : option Point;
  area_edgeLabelOffsets : option (list (string * Point));
  area_radiusLabelOffset : option Point
}.

Record AreaGroup := mkAreaGroup {
  group_id : string;
  group_name : string;
  group_areaIds : list string;
  group_locked : option bool;
  group_visible : option bool
}.

Record Canvas := mkCanvas {
  canvas_width : num;
  canvas_height : num;
  canvas_zoom : num;
  canvas_pan : Point
}.

Record Meta := mkMeta {
  meta_name : string;
  meta_createdAt : string;
  meta_updatedAt : string
}.

(** [version] has the single value ['1.0'], so it is not a field here; the
    serialiser writes it and the importer tests it. *)
Record Plan := mkPlan {
  units : Units;
  canvas : Canvas;
  areas : list Area;
  areaGroups : option (list AreaGroup);
  meta : Meta
}.

Record Selection := mkSelection { areaIds : list string }.

Inductive RectHandle := h_n | h_s | h_e | h_w | h_ne | h_nw | h_se | h_sw.

Inductive PartitionDirection := Horizontal | Vertical.

Inductive MirrorAxis := MirrorHorizontal | MirrorVertical.

Record Delta := mkDelta { dx : num; dy : num }.

Record Bounds := mkBounds { b_width : num; b_height : num }.

(** A canvas is passed where the geometry expects [{ width, height }]. *)
Definition canvas_bounds (c : Canvas) : Bounds :=
  mkBounds (canvas_width c) (canvas_height c).

(** ** Command payloads *)

Record CreatePlanPayload := {
  cp_width : num; cp_height : num; cp_units : Units; cp_name : option string
}.

Record ResizeBoundaryPayload := { rb_width : option num; rb_height : option num }.

Record ViewportPayload := { vp_zoom : option num; vp_pan : option Point }.

Record CreateAreaPayload := {
  ca_rect : RectShape;
  ca_partitions : option Z;
  ca_direction : option PartitionDirection;
  ca_fill : option string;
  ca_stroke : option string;
  ca_name : option string;
  ca_parentId : option string
}.

Record CreatePolygonPayload := {
  cpoly_points : Ring;
  cpoly_fill : option string;
  cpoly_stroke : option string;
  cpoly_name : option string
}.

Record CreateEllipsePayload := {
  ce_cx : num; ce_cy : num; ce_rx : num; ce_ry : num;
  ce_fill : option string; ce_stroke : option string; ce_name : option string
}.

Record PastePayload := {
  paste_areas : list Area; paste_dx : num; paste_dy : num;
  paste_nameSuffix : option string
}.

Record MovePayload := { mv_id : string; mv_dx : num; mv_dy : num }.

Record ResizePayload := {
  rs_id : string; rs_handle : RectHandle; rs_dx : num; rs_dy : num
}.

Record SetRectPayload := { sr_id : string; sr_rect : RectShape }.

Record SetEllipsePayload := { se_id : string; se_ellipse : EllipseShape }.

Record SetPolygonPayload := { sp_id : string; sp_points : Ring }.

Record SetMultiPolygonPayload := { smp_id : string; smp_polygons : list Ring }.

Record MoveMultiPayload := { mm_ids : list string; mm_dx : num; mm_dy : num }.

Record RenamePayload := { rn_id : string; rn_name : string }.

Record RecolorPayload := { rc_id : string; rc_fill : string }.

Record MirrorPayload := { mi_id : string; mi_axis : MirrorAxis }.

Record DividePayload := {
  dv_id : string; dv_partitions : Z; dv_direction : option PartitionDirection
}.

Record MergePayload := {
  mg_ids : list string; mg_name : option string;
  mg_fill : option string; mg_stroke : option string
}.

Record GroupCreatePayload := { gc_name : string; gc_areaIds : list string }.

Record GroupVisibilityPayload := { gv_id : string; gv_visible : bool }.

Record LabelOffsetPayload := { lo_id : string; lo_offset : Point }.

Record EdgeLabelOffsetPayload := {
  elo_id : string; elo_edgeKey : string; elo_offset : Point
}.

(** The tagged union [Command]: one constructor per [type] string. *)
Inductive Command :=
| plan_create (p : CreatePlanPayload)
| plan_resize_boundary (p : ResizeBoundaryPayload)
| plan_set_viewport (p : ViewportPayload)
| plan_load (p : Plan)
| area_create (p : CreateAreaPayload)
| area_create_polygon (p : CreatePolygonPayload)
| area_create_ellipse (p : CreateEllipsePayload)
| area_paste (p : PastePayload)
| area_move (p : MovePayload)
| area_move_polygon (p : MovePayload)
| area_resize (p : ResizePayload)
| area_set_rect (p : SetRectPayload)
| area_set_ellipse (p : SetEllipsePayload)
| area_set_rect_batch (updates : list SetRectPayload)
| area_set_polygon (p : SetPolygonPayload)
| area_set_multipolygon (p : SetMultiPolygonPayload)
| area_rename (p : RenamePayload)
| area_recolor (p : RecolorPayload)
| area_delete (id : string)
| area_mirror (p : MirrorPayload)
| area_subtract (ids : list string)
| area_divide (p : DividePayload)
| area_merge (p : MergePayload)
| group_create (p : GroupCreatePayload)
| group_delete (id : string)
| group_visibility (p : GroupVisibilityPayload)
| area_convert_to_polygon (p : MergePayload)
| area_move_multi (p : MoveMultiPayload)
| area_set_label_offset (p : LabelOffsetPayload)
| area_set_edge_label_offset (p : EdgeLabelOffsetPayload)
| area_set_radius_label_offset (p : LabelOffsetPayload)
| selection_set (s : Selection).

(** [command.type], the tag as the store records it. *)
Definition command_type (c : Command) : string :=
  match c with
  | plan_create _ => "plan/create"
  | plan_resize_boundary _ => "plan/resize-boundary"
  | plan_set_viewport _ => "plan/set-viewport"
  | plan_load _ => "plan/load"
  | area_create _ => "area/create"
  | area_create_polygon _ => "area/create-polygon"
  | area_create_ellipse _ => "area/create-ellipse"
  | area_paste _ => "area/paste"
  | area_move _ => "area/move"
  | area_move_polygon _ => "area/move-polygon"
  | area_resize _ => "area/resize"
  | area_set_rect _ => "area/set-rect"
  | area_set_ellipse _ => "area/set-ellipse"
  | area_set_rect_batch _ => "area/set-rect-batch"
  | area_set_polygon _ => "area/set-polygon"
  | area_set_multipolygon _ => "area/set-multipolygon"
  | area_rename _ => "area/rename"
  | area_recolor _ => "area/recolor"
  | area_delete _ => "area/delete"
  | area_mirror _ => "area/mirror"
  | area_subtract _ => "area/subtract"
  | area_divide _ => "area/divide"
  | area_merge _ => "area/merge"
  | group_create _ => "group/create"
  | group_delete _ => "group/delete"
  | group_visibility _ => "group/visibility"
  | area_convert_to_polygon _ => "area/convert-to-polygon"
  | area_move_multi _ => "area/move-multi"
  | area_set_label_offset _ => "area/set-label-offset"
  | area_set_edge_label_offset _ => "area/set-edge-label-offset"
  | area_set_radius_label_offset _ => "area/set-radius-label-offset"
  | selection_set _ => "selection/set"
  end%string.

Record CommandRecord := mkRecord {
  rec_type : string;
  rec_payload : Command;
  rec_description : string;
  rec_before : Plan;
  rec_after : Plan;
  rec_timestamp : Z
}.

Record HistoryStack := mkHistory {
  undo_stack : list CommandRecord;
  redo_stack : list CommandRecord
}.

(* ================================================================== *)
(** * The platform *)

(** Rings as the polygon-clipping library takes and returns them:
    [[number, number][]], a polygon as its rings, outer ring first. *)
Definition PCRing := list (num * num).
Definition PCPolygon := list PCRing.
Definition PCMultiPolygon := list PCPolygon.

(** What a handler obtains from outside the program during one run. *)
Record Platform := mkPlatform {
  (** [new Date().toISOString()], the k-th reading of the run *)
  now : nat -> string;
  (** [crypto.randomUUID()], the k-th identifier of the run *)
  randomUUID : nat -> string;
  (** [Date.now()] *)
  Date_now : Z;
  Math_cos : num -> num;
  Math_sin : num -> num;
  (** [polygonClipping.union(...polygons)] *)
  pc_union : list PCPolygon -> PCMultiPolygon;
  (** [polygonClipping.difference(subject, ...clips)] *)
  pc_difference : PCMultiPolygon -> list PCPolygon -> PCMultiPolygon
}.

(* ================================================================== *)
(** * Geometry primitives ([domain/geometry]) *)

Local Open Scope num_scope.

Definition MIN_SIZE : num := lit 1 4.

Definition clamp (value min max : num) : num :=
  Math_min (Math_max value min) max.

Definition cloneRect (r : RectShape) : RectShape := r.

Definition rectCenter (r : RectShape) : Point :=
  mkPoint (rect_x r + rect_width r / of_Z 2) (rect_y r + rect_height r / of_Z 2).

(** [points[(i + 1) % points.length]] for every index [i]. *)
Definition cyclic_next (points : Ring) : Ring :=
  match points with
  | [] => []
  | p :: rest => rest ++ [p]
  end.

Definition polygonArea (points : Ring) : num :=
  if (List.length points <? 3)%nat then zero
  else
    let sum :=
      fold_left
        (fun sum '(current, next) =>
           sum + (px current * py next - px next * py current))
        (combine points (cyclic_next points)) zero in
    Math_abs sum / of_Z 2.

Definition polygonAreaWithHoles (points : Ring) (holes : list Ring) : num :=
  let outer := polygonArea points in
  let holeArea := fold_left (fun acc hole => acc + polygonArea hole) holes zero in
  Math_max zero (outer - holeArea).

Definition translatePolygon (points : Ring) (delta : Delta) : Ring :=
  map (fun p => mkPoint (px p + dx delta) (py p + dy delta)) points.

Definition rectFromPoints (a b : Point) : RectShape :=
  mkRect (Math_min (px a) (px b)) (Math_min (py a) (py b))
         (Math_abs (px a - px b)) (Math_abs (py a - py b)) None None.

(** [handle.includes(c)] for the four letters the resize looks for. *)
Definition handle_includes_e (h : RectHandle) : bool :=
  match h with h_e | h_ne | h_se => true | _ => false end.
Definition handle_includes_s (h : RectHandle) : bool :=
  match h with h_s | h_se | h_sw => true | _ => false end.
Definition handle_includes_w (h : RectHandle) : bool :=
  match h with h_w | h_nw | h_sw => true | _ => false end.
Definition handle_includes_n (h : RectHandle) : bool :=
  match h with h_n | h_ne | h_nw => true | _ => false end.

Definition set_rect_geometry (r : RectShape) (x y width height : num) : RectShape :=
  mkRect x y width height (rect_rotation r) (rect_cornerRadius r).

Definition applyRectResize (r : RectShape) (handle : RectHandle) (delta : Delta)
    (bounds : Bounds) (min : num) : RectShape :=
  let x := rect_x r in
  let y := rect_y r in
  let width := rect_width r in
  let height := rect_height r in
  let maxWidth := b_width bounds in
  let maxHeight := b_height bounds in
  let width :=
    if handle_includes_e handle then clamp (width + dx delta) min (maxWidth - x)
    else width in
  let height :=
    if handle_includes_s handle then clamp (height + dy delta) min (maxHeight - y)
    else height in
  let '(x, width) :=
    if handle_includes_w handle then
      let nextX := clamp (x + dx delta) zero (x + width - min) in
      (nextX, clamp (width - (nextX - x)) min (maxWidth - nextX))
    else (x, width) in
  let '(y, height) :=
    if handle_includes_n handle then
      let nextY := clamp (y + dy delta) zero (y + height - min) in
      (nextY, clamp (height - (nextY - y)) min (maxHeight - nextY))
    else (y, height) in
  let width := Math_max min (Math_min width maxWidth) in
  let height := Math_max min (Math_min height maxHeight) in
  let x := clamp x zero (maxWidth - width) in
  let y := clamp y zero (maxHeight - height) in
  set_rect_geometry r x y width height.

Definition constrainRectToBounds (r : RectShape) (bounds : Bounds) (min : num)
    : RectShape :=
  let x := clamp (rect_x r) zero (Math_max zero (b_width bounds - min)) in
  let y := clamp (rect_y r) zero (Math_max zero (b_height bounds - min)) in
  let width := clamp (rect_width r) min (b_width bounds - x) in
  let height := clamp (rect_height r) min (b_height bounds - y) in
  set_rect_geometry r x y width height.

Definition moveRect (r : RectShape) (delta : Delta) (bounds : Bounds) : RectShape :=
  let x := clamp (rect_x r + dx delta) zero
             (Math_max zero (b_width bounds - rect_width r)) in
  let y := clamp (rect_y r + dy delta) zero
             (Math_max zero (b_height bounds - rect_height r)) in
  set_rect_geometry r x y (rect_width r) (rect_height r).

Definition rectsOverlap (a b : RectShape) : bool :=
  (rect_x a <? rect_x b + rect_width b) &&
  (rect_x b <? rect_x a + rect_width a) &&
  (rect_y a <? rect_y b + rect_height b) &&
  (rect_y b <? rect_y a + rect_height a).

(** The loop [for (let i = 0; i < count; i += 1)] as the list of its
    indices. *)
Definition indices (count : Z) : list nat := seq 0 (Z.to_nat count).

Definition of_nat (i : nat) : num := of_Z (Z.of_nat i).

Definition splitRectEvenly (r : RectShape) (count : Z)
    (direction : PartitionDirection) : list RectShape :=
  if (count <=? 1)%Z then [cloneRect r]
  else
    match direction with
    | Vertical =>
        let slice := rect_width r / of_Z count in
        map (fun i => mkRect (rect_x r + slice * of_nat i) (rect_y r)
                             slice (rect_height r) None None)
            (indices count)
    | Horizontal =>
        let slice := rect_height r / of_Z count in
        map (fun i => mkRect (rect_x r) (rect_y r + slice * of_nat i)
                             (rect_width r) slice None None)
            (indices count)
    end.

Definition pointInRect (p : Point) (r : RectShape) : bool :=
  (rect_x r <=? px p) && (px p <=? rect_x r + rect_width r) &&
  (rect_y r <=? py p) && (py p <=? rect_y r + rect_height r).

(** [Math.min(...xs)] and [Math.max(...xs)]; over no arguments the script
    yields an infinity, which is [None] here. *)
Definition Math_min_list (xs : list num) : option num :=
  match xs with
  | [] => None
  | v :: rest => Some (fold_left Math_min rest v)
  end.

Definition Math_max_list (xs : list num) : option num :=
  match xs with
  | [] => None
  | v :: rest => Some (fold_left Math_max rest v)
  end.

Record BBox := mkBBox {
  bb_x : num; bb_y : num; bb_width : num; bb_height : num
}.

(** [holes?.flat() ?? []] and [holes?.flat(2) ?? []]. *)
Definition flat_holes (holes : option (list Ring)) : Ring :=
  match holes with Some hs => List.concat hs | None => [] end.

Definition flat2_holes (holes : option (list (list Ring))) : Ring :=
  match holes with Some hss => List.concat (List.concat hss) | None => [] end.

Definition shape_all_points (shape : Shape) : Ring :=
  match shape with
  | Polygon p => poly_points p ++ flat_holes (poly_holes p)
  | MultiPolygon mp => List.concat (mp_polygons mp) ++ flat2_holes (mp_holes mp)
  | _ => []
  end.

(** The box is [None] exactly when a polygon or multipolygon has no point
    at all, where the script computes with infinities. *)
Definition shapeBoundingBox (shape : Shape) : option BBox :=
  match shape with
  | Rect r => Some (mkBBox (rect_x r) (rect_y r) (rect_width r) (rect_height r))
  | Ellipse e =>
      Some (mkBBox (ell_cx e - ell_rx e) (ell_cy e - ell_ry e)
                   (ell_rx e * of_Z 2) (ell_ry e * of_Z 2))
  | _ =>
      let pts := shape_all_points shape in
      let xs := map px pts in
      let ys := map py pts in
      match Math_min_list xs, Math_max_list xs,
            Math_min_list ys, Math_max_list ys with
      | Some minX, Some maxX, Some minY, Some maxY =>
          Some (mkBBox minX minY (maxX - minX) (maxY - minY))
      | _, _, _, _ => None
      end
  end.

Definition snaps : list num :=
  map of_Z [0; 15; 30; 45; 90; 135; 180; 225; 270; 315]%Z.

(** The distance the snapping loop computes between [angle] and a snap. *)
Definition snap_delta (angle s : num) : num :=
  Math_abs (rem (angle - s + of_Z 540) (of_Z 360) - of_Z 180).

Definition snapAngle (angle : num) (enabled : bool) : num :=
  if negb enabled then angle
  else
    fst (fold_left
           (fun '(best, bestDelta) s =>
              let delta := snap_delta angle s in
              if delta <? bestDelta then (s, delta) else (best, bestDelta))
           snaps (angle, of_Z 360)).

Definition ellipseToRect (e : EllipseShape) : RectShape :=
  mkRect (ell_cx e - ell_rx e) (ell_cy e - ell_ry e)
         (ell_rx e * of_Z 2) (ell_ry e * of_Z 2) None None.

Definition rectToEllipse (r : RectShape) : EllipseShape :=
  let rx := rect_width r / of_Z 2 in
  let ry := rect_height r / of_Z 2 in
  mkEllipse (rect_x r + rx) (rect_y r + ry) rx ry.

(** [Math.round]: the nearest integer, a half rounded up. *)
Definition Math_round (a : num) : num := of_Z (Qfloor (a + lit 1 2)%num).

(** The adjustment of a polygon drag towards the bounds.  Over no point
    [Math.min()] is [Infinity] and [Math.max()] is [-Infinity], for which
    both tests fail; these are the [None] cases. *)
Definition clampDeltaForPolygon (points : Ring) (bounds : Bounds) (delta : Delta)
    : Delta :=
  let xs := map (fun p => px p + dx delta) points in
  let ys := map (fun p => py p + dy delta) points in
  let below (lowest : option num) :=
    match lowest with
    | Some v => if v <? zero then zero - v else zero
    | None => zero
    end in
  let above (highest : option num) (limit : num) :=
    match highest with
    | Some v => if limit <? v then limit - v else zero
    | None => zero
    end in
  let clampedDx :=
    dx delta + below (Math_min_list xs) + above (Math_max_list xs) (b_width bounds) in
  let clampedDy :=
    dy delta + below (Math_min_list ys) + above (Math_max_list ys) (b_height bounds) in
  mkDelta clampedDx clampedDy.

Definition clampDeltaForMultiPolygon (polygons : list Ring) (bounds : Bounds)
    (delta : Delta) (holes : list (list Ring)) : Delta :=
  let pts := List.concat polygons ++ List.concat (List.concat holes) in
  clampDeltaForPolygon pts bounds delta.

Definition snapValue (value grid : num) : num :=
  Math_round (value / grid) * grid.



(* ================================================================== *)
(** * Double precision *)

(** The clamps, the split and the angle snap of [domain/geometry] once
    more, over the binary64 numbers of the script instead of the
    rationals, with the geometry of a rect only.  They serve to evaluate
    the script at sample inputs where rounding decides the outcome. *)
Module Double.
Import PrimFloat FloatOps SpecFloat.
Local Open Scope float_scope.
#[local] Set Warnings "-inexact-float".

(** A [number] of the script. *)
Definition number := float.

Definition of_Z (z : Z) : number := of_uint63 (Uint63Axioms.of_Z z).

(** [Math.max], [Math.min] and [Math.abs].  Of two zeros of different
    sign either may come back; no comparison tells them apart. *)
Definition Math_max (a b : number) : number :=
  if is_nan a || is_nan b then nan else if ltb a b then b else a.
Definition Math_min (a b : number) : number :=
  if is_nan a || is_nan b then nan else if ltb b a then b else a.
Definition Math_abs (a : number) : number := abs a.

(** The number [m * 2^e], for a natural number [m] that the format
    holds without rounding. *)
Definition scaled (negative : bool) (m e : Z) : number :=
  let k := Z.max 0 (Z.log2 m - 52) in
  let f := Z.ldexp (of_Z (m / 2 ^ k)) (e + k) in
  if negative then - f else f.

(** [a % b]: the remainder of the division truncated towards zero, which
    is formed without rounding and takes the sign of [a]. *)
Definition rem (a b : number) : number :=
  match Prim2SF a, Prim2SF b with
  | S754_nan, _ | _, S754_nan | S754_infinity _, _ | _, S754_zero _ => nan
  | S754_zero _, _ | _, S754_infinity _ => a
  | S754_finite sa ma ea, S754_finite _ mb eb =>
      let e := Z.min ea eb in
      scaled sa ((Zpos ma * 2 ^ (ea - e)) mod (Zpos mb * 2 ^ (eb - e))) e
  end.

Definition MIN_SIZE : number := 0.25.

Definition clamp (value min max : number) : number :=
  Math_min (Math_max value min) max.

Record RectShape := mkRect {
  rect_x : number; rect_y : number; rect_width : number; rect_height : number
}.
Record Delta := mkDelta { dx : number; dy : number }.
Record Bounds := mkBounds { b_width : number; b_height : number }.

Definition constrainRectToBounds (r : RectShape) (bounds : Bounds) (min : number)
    : RectShape :=
  let x := clamp (rect_x r) 0 (Math_max 0 (b_width bounds - min)) in
  let y := clamp (rect_y r) 0 (Math_max 0 (b_height bounds - min)) in
  let width := clamp (rect_width r) min (b_width bounds - x) in
  let height := clamp (rect_height r) min (b_height bounds - y) in
  mkRect x y width height.

Definition moveRect (r : RectShape) (delta : Delta) (bounds : Bounds) : RectShape :=
  let x := clamp (rect_x r + dx delta) 0 (Math_max 0 (b_width bounds - rect_width r)) in
  let y :=
    clamp (rect_y r + dy delta) 0 (Math_max 0 (b_height bounds - rect_height r)) in
  mkRect x y (rect_width r) (rect_height r).

Definition splitRectEvenly (r : RectShape) (count : Z) (direction : PartitionDirection)
    : list RectShape :=
  if (count <=? 1)%Z then [r]
  else
    match direction with
    | Vertical =>
        let slice := rect_width r / of_Z count in
        map (fun i =>
               mkRect (rect_x r + slice * of_Z (Z.of_nat i)) (rect_y r) slice
                      (rect_height r))
            (seq 0 (Z.to_nat count))
    | Horizontal =>
        let slice := rect_height r / of_Z count in
        map (fun i =>
               mkRect (rect_x r) (rect_y r + slice * of_Z (Z.of_nat i)) (rect_width r)
                      slice)
            (seq 0 (Z.to_nat count))
    end.

Definition snaps : list number := map of_Z [0; 15; 30; 45; 90; 135; 180; 225; 270; 315]%Z.

Definition snap_delta (angle s : number) : number :=
  Math_abs (rem (angle - s + 540) 360 - 180).

Definition snapAngle (angle : number) (enabled : bool) : number :=
  if negb enabled then angle
  else
    fst (fold_left
           (fun '(best, bestDelta) s =>
              let delta := snap_delta angle s in
              if ltb delta bestDelta then (s, delta) else (best, bestDelta))
           snaps (angle, 360)).

(** Sample inputs: a canvas 7.3 wide and one 12 wide, a drag far to the
    right, a room 1.4 wide, a room wider than the canvas, a room as wide
    as the canvas, and an angle one step of the format above 7.5. *)
Definition canvas_7_3 : Bounds := mkBounds 7.3 9.
Definition canvas_12 : Bounds := mkBounds 12 9.
Definition far_right : Delta := mkDelta 100 0.
Definition narrow_room : RectShape := mkRect 1 1 1.4 1.
Definition wide_room : RectShape := mkRect 1.4 1 100 1.
Definition full_width : RectShape := mkRect 0 0 12 9.
Definition near_tie : number := 7.500000000000001.

(** [limit < x + width], [x <= limit - width] and [width <= limit - x] as
    the script would evaluate them. *)
Definition beyond (limit : number) (r : RectShape) : bool :=
  ltb limit (rect_x r + rect_width r).

Definition holds_origin (limit : number) (r : RectShape) : bool :=
  leb (rect_x r) (limit - rect_width r).

Definition holds_size (limit : number) (r : RectShape) : bool :=
  leb (rect_width r) (limit - rect_x r).
End Double.

(* ================================================================== *)
(** * Naming ([domain/naming]) *)

Local Open Scope string_scope.
Local Open Scope list_scope.

(** Concatenation of strings, as in a template literal. *)
Infix "^^" := String.append (at level 60, right associativity).

Definition is_digit (c : ascii) : bool :=
  let n := nat_of_ascii c in ((48 <=? n) && (n <=? 57))%nat.

(** The characters [\s] matches among the code points below 256: tab,
    line feed, vertical tab, form feed, carriage return, space and the
    no-break space U+00A0. *)
Definition is_space (c : ascii) : bool :=
  let n := nat_of_ascii c in
  ((n =? 32) || (n =? 9) || (n =? 10) || (n =? 11) || (n =? 12) || (n =? 13)
   || (n =? 160))%nat.

Fixpoint take_digits (s : string) : string :=
  match s with
  | String c rest => if is_digit c then String c (take_digits rest) else EmptyString
  | EmptyString => EmptyString
  end.

(** [name.match(/(\d+)/)]: the first maximal run of digits, if any. *)
Fixpoint match_digits (s : string) : option string :=
  match s with
  | String c rest => if is_digit c then Some (take_digits s) else match_digits rest
  | EmptyString => None
  end.

(** [parseInt(digits, 10)] on a run of digits. *)
Definition parseInt (digits : string) : N :=
  match NilEmpty.uint_of_string digits with
  | Some u => N.of_uint u
  | None => 0%N
  end.

(** The decimal text of an integer inside a template literal. *)
Definition decimal (n : N) : string := NilZero.string_of_uint (N.to_uint n).

Definition nextAreaIndex (plan : Plan) : N :=
  let max :=
    fold_left
      (fun acc area =>
         match match_digits (area_name area) with
         | None => acc
         | Some digits => N.max acc (parseInt digits)
         end)
      (areas plan) 0%N in
  (max + 1)%N.

Definition defaultAreaName (plan : Plan) : string :=
  "Area " ^^ decimal (nextAreaIndex plan).

(** [base.replace(/\s+$/, '')]: the string without its trailing spaces. *)
Fixpoint trim_end (s : string) : string :=
  match s with
  | EmptyString => EmptyString
  | String c rest =>
      match trim_end rest with
      | EmptyString => if is_space c then EmptyString else String c EmptyString
      | t => String c t
      end
  end.

Definition suffixes : string := "ABCDEFGHIJKLMNOPQRSTUVWXYZ".

Definition partitionNames (base : string) (count : Z) : list string :=
  if (count <=? 1)%Z then [base]
  else
    let baseTrimmed := trim_end base in
    map (fun idx =>
           let suffix :=
             match String.get idx suffixes with
             | Some c => String c EmptyString
             | None => decimal (N.of_nat (idx + 1))
             end in
           baseTrimmed ^^ " " ^^ suffix)
        (indices count).

Definition findArea (plan : Plan) (id : string) : option Area :=
  find (fun a => String.eqb (area_id a) id) (areas plan).

(* ================================================================== *)
(** * Functional updates of the records *)

Definition set_areas (plan : Plan) (l : list Area) : Plan :=
  mkPlan (units plan) (canvas plan) l (areaGroups plan) (meta plan).

Definition set_areaGroups (plan : Plan) (g : option (list AreaGroup)) : Plan :=
  mkPlan (units plan) (canvas plan) (areas plan) g (meta plan).

Definition set_canvas (plan : Plan) (c : Canvas) : Plan :=
  mkPlan (units plan) c (areas plan) (areaGroups plan) (meta plan).

Definition set_updatedAt (plan : Plan) (t : string) : Plan :=
  mkPlan (units plan) (canvas plan) (areas plan) (areaGroups plan)
         (mkMeta (meta_name (meta plan)) (meta_createdAt (meta plan)) t).

Definition set_shape (a : Area) (s : Shape) : Area :=
  mkArea (area_id a) (area_name a) (area_fill a) (area_stroke a)
         (area_strokeWidth a) s (area_parentId a) (area_labelOffset a)
         (area_edgeLabelOffsets a) (area_radiusLabelOffset a).

Definition set_name (a : Area) (n : string) : Area :=
  mkArea (area_id a) n (area_fill a) (area_stroke a)
         (area_strokeWidth a) (area_shape a) (area_parentId a)
         (area_labelOffset a) (area_edgeLabelOffsets a)
         (area_radiusLabelOffset a).

Definition set_fill (a : Area) (f : string) : Area :=
  mkArea (area_id a) (area_name a) f (area_stroke a)
         (area_strokeWidth a) (area_shape a) (area_parentId a)
         (area_labelOffset a) (area_edgeLabelOffsets a)
         (area_radiusLabelOffset a).

Definition set_labelOffset (a : Area) (o : option Point) : Area :=
  mkArea (area_id a) (area_name a) (area_fill a) (area_stroke a)
         (area_strokeWidth a) (area_shape a) (area_parentId a)
         o (area_edgeLabelOffsets a) (area_radiusLabelOffset a).

Definition set_edgeLabelOffsets (a : Area) (o : option (list (string * Point)))
    : Area :=
  mkArea (area_id a) (area_name a) (area_fill a) (area_stroke a)
         (area_strokeWidth a) (area_shape a) (area_parentId a)
         (area_labelOffset a) o (area_radiusLabelOffset a).

Definition set_radiusLabelOffset (a : Area) (o : option Point) : Area :=
  mkArea (area_id a) (area_name a) (area_fill a) (area_stroke a)
         (area_strokeWidth a) (area_shape a) (area_parentId a)
         (area_labelOffset a) (area_edgeLabelOffsets a) o.

(** Assignment through the reference [findArea(next, id)] returned: the
    first area of the list with that id is replaced, the others stay. *)
Fixpoint update_first (id : string) (f : Area -> Area) (l : list Area)
    : list Area :=
  match l with
  | [] => []
  | a :: rest =>
      if String.eqb (area_id a) id then f a :: rest
      else a :: update_first id f rest
  end.

Definition update_area (plan : Plan) (id : string) (f : Area -> Area) : Plan :=
  set_areas plan (update_first id f (areas plan)).

(** [ids.includes(id)] *)
Definition includes (ids : list string) (id : string) : bool :=
  existsb (String.eqb id) ids.

(** [list.map((x, idx) => f(idx, x))] *)
Fixpoint mapi_from {A B} (start : nat) (f : nat -> A -> B) (l : list A) : list B :=
  match l with
  | [] => []
  | a :: rest => f start a :: mapi_from (S start) f rest
  end.

Definition mapi {A B} (f : nat -> A -> B) (l : list A) : list B :=
  mapi_from 0 f l.

(** [list.map(f).filter(Boolean)] for an [f] that may return [undefined]. *)
Fixpoint filter_map {A B} (f : A -> option B) (l : list A) : list B :=
  match l with
  | [] => []
  | a :: rest =>
      match f a with
      | Some b => b :: filter_map f rest
      | None => filter_map f rest
      end
  end.

(** [{ ...record, [key]: value }] on the ordered properties of an object:
    a key the object holds keeps its place, a new key goes last. *)
Fixpoint assign {A} (key : string) (value : A) (l : list (string * A))
    : list (string * A) :=
  match l with
  | [] => [(key, value)]
  | (k, v) :: rest =>
      if String.eqb k key then (k, value) :: rest
      else (k, v) :: assign key value rest
  end.

(** [value ?? fallback] *)
Definition orElse {A} (o : option A) (fallback : A) : A :=
  match o with Some v => v | None => fallback end.

(* ================================================================== *)
(** * Grouping ([domain/grouping]) *)

Definition addGroup (w : Platform) (plan : Plan) (name : string)
    (ids : list string) : Plan :=
  let next := plan in
  let group := mkAreaGroup (randomUUID w 0) name ids None (Some true) in
  set_areaGroups next (Some (orElse (areaGroups next) [] ++ [group])).

Definition toggleGroupVisibility (plan : Plan) (id : string) (visible : bool)
    : Plan :=
  let next := plan in
  set_areaGroups next
    (Some (map (fun g =>
                  if String.eqb (group_id g) id
                  then mkAreaGroup (group_id g) (group_name g) (group_areaIds g)
                                   (group_locked g) (Some visible)
                  else g)
               (orElse (areaGroups next) []))).

Definition deleteGroup (plan : Plan) (id : string) : Plan :=
  let next := plan in
  set_areaGroups next
    (Some (filter (fun g => negb (String.eqb (group_id g) id))
                  (orElse (areaGroups next) []))).

(* ================================================================== *)
(** * Plan factory ([domain/planFactory]) *)

Definition createBlankPlan (w : Platform) (width height : num) (u : Units)
    (name : string) : Plan :=
  mkPlan u (mkCanvas width height one (mkPoint zero zero)) [] (Some [])
         (mkMeta name (now w 0) (now w 1)).

Definition rectShape (x y width height : num) : RectShape :=
  mkRect x y width height None None.

Definition seedPlan (w : Platform) : Plan :=
  let plan := createBlankPlan w (of_Z 12) (of_Z 9) M "Demo Floor" in
  let areaA := rectShape (of_Z 1) (of_Z 1) (of_Z 4) (of_Z 3) in
  let areaB := rectShape (of_Z 6) (of_Z 2) (lit 9 2) (of_Z 4) in
  let baseName := defaultAreaName plan in
  let plan :=
    set_areas plan
      [ mkArea (randomUUID w 0) baseName "#bfdbfe" "#1d4ed8" (lit 1 25)
               (Rect areaA) None None None None;
        mkArea (randomUUID w 1) (baseName ^^ " B") "#fecdd3" "#be123c" (lit 1 25)
               (Rect areaB) None None None None ] in
  set_updatedAt plan (now w 2).

(* ================================================================== *)
(** * The command interpreter ([domain/commands]) *)

Record CommandResult := mkResult {
  res_plan : Plan;
  res_selection : option Selection;
  res_description : option string
}.

(** [return { plan }] *)
Definition unchanged (plan : Plan) : CommandResult := mkResult plan None None.

Definition done (plan : Plan) (ids : list string) (description : string)
    : CommandResult :=
  mkResult plan (Some (mkSelection ids)) (Some description).

Definition clonePlan (plan : Plan) : Plan := plan.

Definition ensureUpdated (w : Platform) (plan : Plan) : Plan :=
  set_updatedAt plan (now w 0).

Definition pc_point (p : Point) : num * num := (px p, py p).

Definition pc_point_eqb (a b : num * num) : bool :=
  (fst a =? fst b)%num && (snd a =? snd b)%num.

Definition closeRing (points : Ring) : PCRing :=
  let ring := map pc_point points in
  match ring with
  | [] => ring
  | first :: _ =>
      if pc_point_eqb first (last ring first) then ring else ring ++ [first]
  end.

(** The 48 samples of an ellipse outline. *)
Definition ellipse_samples (w : Platform) (cx cy rx ry : num) : Ring :=
  map (fun i =>
         let angle := (of_nat i / of_Z 48 * Math_PI * of_Z 2)%num in
         mkPoint (cx + Math_cos w angle * rx)%num (cy + Math_sin w angle * ry)%num)
      (indices 48).

Definition shapeToPolygons (w : Platform) (shape : Shape) : PCMultiPolygon :=
  match shape with
  | Rect r =>
      let x := rect_x r in
      let y := rect_y r in
      let width := rect_width r in
      let height := rect_height r in
      [[ [ (x, y); ((x + width)%num, y); ((x + width)%num, (y + height)%num);
           (x, (y + height)%num); (x, y) ] ]]
  | Ellipse e =>
      [[ closeRing (ellipse_samples w (ell_cx e) (ell_cy e) (ell_rx e) (ell_ry e)) ]]
  | Polygon p =>
      [ closeRing (poly_points p) :: map closeRing (orElse (poly_holes p) []) ]
  | MultiPolygon mp =>
      mapi (fun idx poly =>
              closeRing poly ::
              map closeRing
                  (orElse (match mp_holes mp with
                           | Some hs => nth_error hs idx
                           | None => None
                           end) []))
           (mp_polygons mp)
  end.

Definition ringsToPoints (ring : PCRing) : Ring :=
  let trimmed :=
    match ring with
    | first :: _ :: _ =>
        if pc_point_eqb first (last ring first) then removelast ring else ring
    | _ => ring
    end in
  map (fun '(x, y) => mkPoint x y) trimmed.

Definition mirrorPoint (point : Point) (axis : MirrorAxis) (center : Point)
    : Point :=
  match axis with
  | MirrorVertical => mkPoint (px center * of_Z 2 - px point)%num (py point)
  | MirrorHorizontal => mkPoint (px point) (py center * of_Z 2 - py point)%num
  end.

Definition shapeArea (shape : Shape) : num :=
  match shape with
  | Rect r => Math_abs (rect_width r * rect_height r)%num
  | Ellipse e => Math_abs (Math_PI * ell_rx e * ell_ry e)%num
  | Polygon p => polygonAreaWithHoles (poly_points p) (orElse (poly_holes p) [])
  | MultiPolygon mp =>
      fold_left
        (fun acc '(idx, poly) =>
           (acc + polygonAreaWithHoles poly
                    (orElse (match mp_holes mp with
                             | Some hs => nth_error hs idx
                             | None => None
                             end) []))%num)
        (combine (seq 0 (List.length (mp_polygons mp))) (mp_polygons mp)) zero
  end.

Definition updatePlanDimensions (w : Platform) (plan : Plan)
    (payload : ResizeBoundaryPayload) : CommandResult :=
  let next := clonePlan plan in
  let c := canvas next in
  let c :=
    match rb_width payload with
    | Some width =>
        mkCanvas (Math_max width (lit 1 2)) (canvas_height c) (canvas_zoom c)
                 (canvas_pan c)
    | None => c
    end in
  let c :=
    match rb_height payload with
    | Some height =>
        mkCanvas (canvas_width c) (Math_max height (lit 1 2)) (canvas_zoom c)
                 (canvas_pan c)
    | None => c
    end in
  let next := set_canvas next c in
  mkResult (ensureUpdated w next) None (Some "Resize plan").

Definition createPlan (w : Platform) (_ : Plan) (payload : CreatePlanPayload)
    : CommandResult :=
  let next :=
    mkPlan (cp_units payload)
           (mkCanvas (cp_width payload) (cp_height payload) one
                     (mkPoint zero zero))
           [] None
           (mkMeta (orElse (cp_name payload) "New Plan") (now w 0) (now w 1)) in
  done next [] "Create plan".

Definition setViewport (w : Platform) (plan : Plan) (payload : ViewportPayload)
    : CommandResult :=
  let next := clonePlan plan in
  let c := canvas next in
  let c :=
    match vp_zoom payload with
    | Some zoom =>
        mkCanvas (canvas_width c) (canvas_height c) (Math_max (lit 1 10) zoom)
                 (canvas_pan c)
    | None => c
    end in
  let c :=
    match vp_pan payload with
    | Some pan => mkCanvas (canvas_width c) (canvas_height c) (canvas_zoom c) pan
    | None => c
    end in
  let next := set_canvas next c in
  mkResult (ensureUpdated w next) None (Some "Viewport change").

Definition createAreasFromRect (w : Platform) (plan : Plan)
    (payload : CreateAreaPayload) (baseName : string) : CommandResult :=
  let next := clonePlan plan in
  let partitions := Z.max 1 (orElse (ca_partitions payload) 1%Z) in
  let direction :=
    orElse (ca_direction payload)
           (if (rect_height (ca_rect payload) <=? rect_width (ca_rect payload))%num
            then Vertical else Horizontal) in
  let rects :=
    splitRectEvenly
      (constrainRectToBounds (ca_rect payload) (canvas_bounds (canvas next)) MIN_SIZE)
      partitions direction in
  let names := partitionNames baseName partitions in
  let created :=
    mapi (fun idx r =>
            mkArea (randomUUID w idx)
                   (orElse (nth_error names idx)
                           (baseName ^^ " " ^^ decimal (N.of_nat (idx + 1))))
                   (orElse (ca_fill payload) "#bfdbfe")
                   (orElse (ca_stroke payload) "#1d4ed8")
                   (lit 1 25) (Rect r) (ca_parentId payload) None None None)
         rects in
  let next := set_areas next (areas next ++ created) in
  done (ensureUpdated w next) (map area_id created) "Create area".

Definition createArea (w : Platform) (plan : Plan) (payload : CreateAreaPayload)
    : CommandResult :=
  let baseName := orElse (ca_name payload) (defaultAreaName plan) in
  createAreasFromRect w plan payload baseName.

Definition createPolygon (w : Platform) (plan : Plan)
    (payload : CreatePolygonPayload) : CommandResult :=
  if (List.length (cpoly_points payload) <? 3)%nat then unchanged plan
  else
    let next := clonePlan plan in
    let id := randomUUID w 0 in
    let next :=
      set_areas next
        (areas next ++
         [ mkArea id (orElse (cpoly_name payload) (defaultAreaName plan))
                  (orElse (cpoly_fill payload) "#d8b4fe")
                  (orElse (cpoly_stroke payload) "#6b21a8")
                  (lit 1 25)
                  (Polygon (mkPolygon (cpoly_points payload) None None))
                  None None None None ]) in
    done (ensureUpdated w next) [id] "Create polygon".

Definition createEllipse (w : Platform) (plan : Plan)
    (payload : CreateEllipsePayload) : CommandResult :=
  let next := clonePlan plan in
  let id := randomUUID w 0 in
  let next :=
    set_areas next
      (areas next ++
       [ mkArea id (orElse (ce_name payload) (defaultAreaName plan))
                (orElse (ce_fill payload) "#fecaca")
                (orElse (ce_stroke payload) "#dc2626")
                (lit 1 25)
                (Ellipse (mkEllipse (ce_cx payload) (ce_cy payload)
                                    (ce_rx payload) (ce_ry payload)))
                None None None None ]) in
  done (ensureUpdated w next) [id] "Create ellipse".

(** The shape a pasted area receives, or [None] where the loop body
    returns early and the area is dropped. *)
Definition pasteShape (bounds : Bounds) (pdx pdy : num) (shape : Shape)
    : option Shape :=
  let shift := map (fun p => mkPoint (px p + pdx)%num (py p + pdy)%num) in
  match shape with
  | Rect r =>
      Some (Rect (constrainRectToBounds
                    (set_rect_geometry r (rect_x r + pdx)%num (rect_y r + pdy)%num
                                       (rect_width r) (rect_height r))
                    bounds MIN_SIZE))
  | Ellipse e =>
      Some (Ellipse (mkEllipse (ell_cx e + pdx)%num (ell_cy e + pdy)%num
                               (ell_rx e) (ell_ry e)))
  | Polygon p =>
      let points := shift (poly_points p) in
      if (List.length points <? 3)%nat then None
      else
        let holes := option_map (map shift) (poly_holes p) in
        Some (Polygon (mkPolygon points holes None))
  | MultiPolygon mp =>
      let polygons := map shift (mp_polygons mp) in
      let holes := option_map (map (map shift)) (mp_holes mp) in
      if (List.length polygons =? 0)%nat
         || existsb (fun poly => (List.length poly <? 3)%nat) polygons
      then None
      else Some (MultiPolygon (mkMultiPolygon polygons holes))
  end.

Definition pasteAreas (w : Platform) (plan : Plan) (payload : PastePayload)
    : CommandResult :=
  let next := clonePlan plan in
  let kept :=
    filter_map
      (fun area =>
         option_map (fun shape => (area, shape))
           (pasteShape (canvas_bounds (canvas next)) (paste_dx payload)
                       (paste_dy payload) (area_shape area)))
      (paste_areas payload) in
  let created :=
    mapi (fun k '(area, shape) =>
            let name :=
              match paste_nameSuffix payload with
              | Some suffix =>
                  if String.eqb suffix EmptyString then area_name area
                  else area_name area ^^ " " ^^ suffix
              | None => area_name area
              end in
            mkArea (randomUUID w k) name (area_fill area) (area_stroke area)
                   (area_strokeWidth area) shape None (area_labelOffset area)
                   (area_edgeLabelOffsets area) (area_radiusLabelOffset area))
         kept in
  match created with
  | [] => unchanged plan
  | _ =>
      let next := set_areas next (areas next ++ created) in
      done (ensureUpdated w next) (map area_id created) "Paste areas"
  end.

Definition moveArea (w : Platform) (plan : Plan) (payload : MovePayload)
    : CommandResult :=
  match findArea plan (mv_id payload) with
  | Some {| area_shape := Rect _ |} =>
      let next := clonePlan plan in
      match findArea next (mv_id payload) with
      | Some {| area_shape := Rect r |} =>
          let moved :=
            moveRect r (mkDelta (mv_dx payload) (mv_dy payload))
                     (canvas_bounds (canvas next)) in
          let next :=
            update_area next (mv_id payload) (fun area => set_shape area (Rect moved)) in
          done (ensureUpdated w next) [mv_id payload] "Move area"
      | _ => unchanged plan
      end
  | _ => unchanged plan
  end.

Definition movePolygonArea (w : Platform) (plan : Plan) (payload : MovePayload)
    : CommandResult :=
  let next := clonePlan plan in
  let delta := mkDelta (mv_dx payload) (mv_dy payload) in
  match findArea next (mv_id payload) with
  | None => unchanged plan
  | Some area =>
      match area_shape area with
      | Polygon p =>
          let shape :=
            Polygon (mkPolygon
                       (translatePolygon (poly_points p) delta)
                       (option_map (map (fun hole => translatePolygon hole delta))
                                   (poly_holes p))
                       (poly_rotation p)) in
          let next := update_area next (mv_id payload) (fun a => set_shape a shape) in
          done (ensureUpdated w next) [mv_id payload] "Move polygon"
      | MultiPolygon mp =>
          let shape :=
            MultiPolygon (mkMultiPolygon
                            (map (fun poly => translatePolygon poly delta)
                                 (mp_polygons mp))
                            (option_map
                               (map (map (fun hole => translatePolygon hole delta)))
                               (mp_holes mp))) in
          let next := update_area next (mv_id payload) (fun a => set_shape a shape) in
          done (ensureUpdated w next) [mv_id payload] "Move polygon"
      | _ => unchanged plan
      end
  end.

Definition resizeArea (w : Platform) (plan : Plan) (payload : ResizePayload)
    : CommandResult :=
  match findArea plan (rs_id payload) with
  | Some {| area_shape := Rect _ |} =>
      let next := clonePlan plan in
      match findArea next (rs_id payload) with
      | Some {| area_shape := Rect r |} =>
          let resized :=
            applyRectResize r (rs_handle payload)
                            (mkDelta (rs_dx payload) (rs_dy payload))
                            (canvas_bounds (canvas next)) MIN_SIZE in
          let next :=
            update_area next (rs_id payload)
                        (fun area => set_shape area (Rect resized)) in
          done (ensureUpdated w next) [rs_id payload] "Resize area"
      | _ => unchanged plan
      end
  | _ => unchanged plan
  end.

Definition setAreaRect (w : Platform) (plan : Plan) (payload : SetRectPayload)
    : CommandResult :=
  match findArea plan (sr_id payload) with
  | None => unchanged plan
  | Some _ =>
      let next := clonePlan plan in
      match findArea next (sr_id payload) with
      | Some {| area_shape := Rect _ |} =>
          let r :=
            constrainRectToBounds (sr_rect payload) (canvas_bounds (canvas next))
                                  MIN_SIZE in
          let next :=
            update_area next (sr_id payload) (fun area => set_shape area (Rect r)) in
          done (ensureUpdated w next) [sr_id payload] "Update area"
      | _ => unchanged plan
      end
  end.

Definition setPolygon (w : Platform) (plan : Plan) (payload : SetPolygonPayload)
    : CommandResult :=
  let next := clonePlan plan in
  match findArea next (sp_id payload) with
  | None => unchanged plan
  | Some area =>
      let replace holes :=
        let shape := Polygon (mkPolygon (sp_points payload) holes None) in
        let next := update_area next (sp_id payload) (fun a => set_shape a shape) in
        done (ensureUpdated w next) [sp_id payload] "Edit polygon" in
      match area_shape area with
      | Polygon p => replace (poly_holes p)
      | Rect _ => replace None
      | _ => unchanged plan
      end
  end.

Definition setEllipse (w : Platform) (plan : Plan) (payload : SetEllipsePayload)
    : CommandResult :=
  let next := clonePlan plan in
  match findArea next (se_id payload) with
  | Some {| area_shape := Ellipse _ |} =>
      let next :=
        update_area next (se_id payload)
                    (fun a => set_shape a (Ellipse (se_ellipse payload))) in
      done (ensureUpdated w next) [se_id payload] "Edit ellipse"
  | _ => unchanged plan
  end.

Definition setMultiPolygon (w : Platform) (plan : Plan)
    (payload : SetMultiPolygonPayload) : CommandResult :=
  let next := clonePlan plan in
  match findArea next (smp_id payload) with
  | Some {| area_shape := MultiPolygon mp |} =>
      let shape :=
        MultiPolygon (mkMultiPolygon (smp_polygons payload) (mp_holes mp)) in
      let next := update_area next (smp_id payload) (fun a => set_shape a shape) in
      done (ensureUpdated w next) [smp_id payload] "Edit multipolygon"
  | _ => unchanged plan
  end.

Definition is_rect_area (plan : Plan) (id : string) : bool :=
  match findArea plan id with
  | Some {| area_shape := Rect _ |} => true
  | _ => false
  end.

(** The body of the loop over the valid updates in [setAreaRectBatch]. *)
Definition setOneRect (next : Plan) (u : SetRectPayload) : Plan :=
  if is_rect_area next (sr_id u) then
    let r :=
      constrainRectToBounds (sr_rect u) (canvas_bounds (canvas next)) MIN_SIZE in
    update_area next (sr_id u) (fun area => set_shape area (Rect r))
  else next.

Definition setAreaRectBatch (w : Platform) (plan : Plan)
    (updates : list SetRectPayload) : CommandResult :=
  let next := clonePlan plan in
  let validUpdates := filter (fun u => is_rect_area next (sr_id u)) updates in
  let next := fold_left setOneRect validUpdates next in
  done (ensureUpdated w next) (map sr_id validUpdates) "Update areas".

Definition renameArea (w : Platform) (plan : Plan) (payload : RenamePayload)
    : CommandResult :=
  let next := clonePlan plan in
  match findArea next (rn_id payload) with
  | None => unchanged plan
  | Some _ =>
      let next :=
        update_area next (rn_id payload) (fun a => set_name a (rn_name payload)) in
      done (ensureUpdated w next) [rn_id payload] "Rename area"
  end.

Definition recolorArea (w : Platform) (plan : Plan) (payload : RecolorPayload)
    : CommandResult :=
  let next := clonePlan plan in
  match findArea next (rc_id payload) with
  | None => unchanged plan
  | Some _ =>
      let next :=
        update_area next (rc_id payload) (fun a => set_fill a (rc_fill payload)) in
      done (ensureUpdated w next) [rc_id payload] "Recolor area"
  end.

(** A polygon or multipolygon reflected about the centre of its bounding
    box; where the box does not exist there is no point to reflect. *)
Definition mirrorShape (axis : MirrorAxis) (shape : Shape) : Shape :=
  let center :=
    match shapeBoundingBox shape with
    | Some bbox =>
        mkPoint (bb_x bbox + bb_width bbox / of_Z 2)%num
                (bb_y bbox + bb_height bbox / of_Z 2)%num
    | None => mkPoint zero zero
    end in
  let reflect := map (fun p => mirrorPoint p axis center) in
  match shape with
  | Polygon p =>
      Polygon (mkPolygon (reflect (poly_points p))
                         (option_map (map reflect) (poly_holes p))
                         (poly_rotation p))
  | MultiPolygon mp =>
      MultiPolygon (mkMultiPolygon (map reflect (mp_polygons mp))
                                   (option_map (map (map reflect)) (mp_holes mp)))
  | Rect r => Rect r
  | Ellipse e => Ellipse e
  end.

Definition mirrorArea (w : Platform) (plan : Plan) (payload : MirrorPayload)
    : CommandResult :=
  let next := clonePlan plan in
  match findArea next (mi_id payload) with
  | None => unchanged plan
  | Some area =>
      let shape := mirrorShape (mi_axis payload) (area_shape area) in
      let next := update_area next (mi_id payload) (fun a => set_shape a shape) in
      done (ensureUpdated w next) [mi_id payload] "Mirror area"
  end.

Definition deleteArea (w : Platform) (plan : Plan) (id : string) : CommandResult :=
  let next := clonePlan plan in
  let next :=
    set_areas next (filter (fun a => negb (String.eqb (area_id a) id)) (areas next)) in
  done (ensureUpdated w next) [] "Delete area".

(** [ids.map((id) => findArea(next, id)).filter(Boolean)] *)
Definition resolve_targets (plan : Plan) (ids : list string) : list Area :=
  filter_map (findArea plan) ids.

(** [targets.reduce((largest, area) => shapeArea(area.shape) >
    shapeArea(largest.shape) ? area : largest)], started at the first
    target. *)
Definition largest_target (first : Area) (others : list Area) : Area :=
  fold_left
    (fun largest area =>
       if (shapeArea (area_shape largest) <? shapeArea (area_shape area))%num
       then area else largest)
    others first.

(** The rings the clipping library returned, as outlines and hole lists:
    a polygon of the result is kept when its outer ring has three entries
    or more. *)
Definition collect_rings (result : PCMultiPolygon) : list (Ring * list Ring) :=
  filter_map
    (fun poly =>
       match poly with
       | ring :: inner =>
           if (3 <=? List.length ring)%nat
           then Some (ringsToPoints ring, map ringsToPoints inner)
           else None
       | [] => None
       end)
    result.

(** [polygons.length === 1 ? polygon : multipolygon] *)
Definition rings_shape (collected : list (Ring * list Ring)) : Shape :=
  match collected with
  | [(points, holes)] => Polygon (mkPolygon points (Some holes) None)
  | _ =>
      MultiPolygon (mkMultiPolygon (map fst collected) (Some (map snd collected)))
  end.

Definition subtractAreas (w : Platform) (plan : Plan) (ids : list string)
    : CommandResult :=
  if (List.length ids <? 2)%nat then unchanged plan
  else
    let next := clonePlan plan in
    match resolve_targets next ids with
    | first :: (_ :: _) as others =>
        let targets := first :: others in
        let base := largest_target first others in
        let cutters :=
          filter (fun area => negb (String.eqb (area_id area) (area_id base)))
                 targets in
        let subject := shapeToPolygons w (area_shape base) in
        let clips := flat_map (fun area => shapeToPolygons w (area_shape area)) cutters in
        let diff := pc_difference w subject clips in
        let collected := collect_rings diff in
        match collected with
        | [] =>
            let next :=
              set_areas next
                (filter (fun a => negb (includes ids (area_id a))) (areas next)) in
            done (ensureUpdated w next) [] "Subtract areas"
        | _ =>
            let next :=
              set_areas next
                (filter (fun a => String.eqb (area_id a) (area_id base)
                                  || negb (includes ids (area_id a)))
                        (areas next)) in
            match findArea next (area_id base) with
            | None => unchanged plan
            | Some _ =>
                let next :=
                  update_area next (area_id base)
                              (fun a => set_shape a (rings_shape collected)) in
                done (ensureUpdated w next) [area_id base] "Subtract areas"
            end
        end
    | _ => unchanged plan
    end.

Definition mergeAreas (w : Platform) (plan : Plan) (payload : MergePayload)
    : CommandResult :=
  let ids := mg_ids payload in
  if (List.length ids <? 2)%nat then unchanged plan
  else
    let next := clonePlan plan in
    match resolve_targets next ids with
    | first :: (_ :: _) as others =>
        let targets := first :: others in
        let polygonInputs :=
          flat_map (fun area => shapeToPolygons w (area_shape area)) targets in
        let merged := pc_union w polygonInputs in
        let collected := collect_rings merged in
        match collected with
        | [] => unchanged plan
        | _ =>
            let mergedId := randomUUID w 0 in
            let next :=
              set_areas next
                (filter (fun a => negb (includes ids (area_id a))) (areas next)
                 ++ [ mkArea mergedId (orElse (mg_name payload) "Area")
                             (orElse (mg_fill payload) (area_fill first))
                             (orElse (mg_stroke payload) (area_stroke first))
                             (area_strokeWidth first) (rings_shape collected)
                             None None None None ]) in
            done (ensureUpdated w next) [mergedId] "Merge areas"
        end
    | _ => unchanged plan
    end.

(** The outlines one target contributes to the converted polygon. *)
Definition outlines (w : Platform) (shape : Shape) : list Ring :=
  match shape with
  | Rect r =>
      let x := rect_x r in
      let y := rect_y r in
      let width := rect_width r in
      let height := rect_height r in
      [[ mkPoint x y; mkPoint (x + width)%num y;
         mkPoint (x + width)%num (y + height)%num; mkPoint x (y + height)%num ]]
  | Ellipse e =>
      let r := ellipseToRect e in
      [ map (fun i =>
               let angle := (of_nat i / of_Z 48 * Math_PI * of_Z 2)%num in
               mkPoint
                 (rect_x r + rect_width r / of_Z 2
                  + Math_cos w angle * rect_width r / of_Z 2)%num
                 (rect_y r + rect_height r / of_Z 2
                  + Math_sin w angle * rect_height r / of_Z 2)%num)
            (indices 48) ]
  | Polygon p => [poly_points p]
  | MultiPolygon mp => mp_polygons mp
  end.

Definition convertToPolygon (w : Platform) (plan : Plan) (payload : MergePayload)
    : CommandResult :=
  let ids := mg_ids payload in
  if (List.length ids <? 1)%nat then unchanged plan
  else
    let next := clonePlan plan in
    match resolve_targets next ids with
    | [] => unchanged plan
    | (first :: _) as targets =>
        let polygons := flat_map (fun a => outlines w (area_shape a)) targets in
        match polygons with
        | [] => unchanged plan
        | _ =>
            let id := randomUUID w 0 in
            let shape :=
              match polygons with
              | [points] => Polygon (mkPolygon points None None)
              | _ => MultiPolygon (mkMultiPolygon polygons None)
              end in
            let next :=
              set_areas next
                (filter (fun a => negb (includes ids (area_id a))) (areas next)
                 ++ [ mkArea id
                             (orElse (mg_name payload)
                                ("Polygon " ^^ decimal (N.of_nat (List.length targets))))
                             (orElse (mg_fill payload) (area_fill first))
                             (orElse (mg_stroke payload) (area_stroke first))
                             (area_strokeWidth first) shape None None None None ]) in
            done (ensureUpdated w next) [id] "Convert to polygon"
        end
    end.

Definition createGroup (w : Platform) (plan : Plan) (payload : GroupCreatePayload)
    : CommandResult :=
  let next := addGroup w plan (gc_name payload) (gc_areaIds payload) in
  done (ensureUpdated w next) (gc_areaIds payload) "Create group".

Definition removeGroup (w : Platform) (plan : Plan) (id : string) : CommandResult :=
  let next := deleteGroup plan id in
  mkResult (ensureUpdated w next) None (Some "Delete group").

Definition setGroupVisibility (w : Platform) (plan : Plan)
    (payload : GroupVisibilityPayload) : CommandResult :=
  let next := toggleGroupVisibility plan (gv_id payload) (gv_visible payload) in
  mkResult (ensureUpdated w next) None (Some "Toggle group visibility").

(** The four corners of a slice, as the outline of a polygon. *)
Definition slice_polygon (r : RectShape) : Shape :=
  Polygon (mkPolygon
             [ mkPoint (rect_x r) (rect_y r);
               mkPoint (rect_x r + rect_width r)%num (rect_y r);
               mkPoint (rect_x r + rect_width r)%num (rect_y r + rect_height r)%num;
               mkPoint (rect_x r) (rect_y r + rect_height r)%num ]
             None None).

(** [divideArea] is [None] only where the script divides the infinite box
    of a polygon that has no point, which the numbers of the model cannot
    express. *)
Definition divideArea (w : Platform) (plan : Plan) (payload : DividePayload)
    : option CommandResult :=
  match findArea plan (dv_id payload) with
  | None => Some (unchanged plan)
  | Some _ =>
      let partitions := Z.max 2 (dv_partitions payload) in
      let next := clonePlan plan in
      match findArea next (dv_id payload) with
      | None => Some (unchanged plan)
      | Some baseArea =>
          let direction :=
            orElse (dv_direction payload)
                   (match area_shape baseArea with
                    | Rect r =>
                        if (rect_height r <=? rect_width r)%num
                        then Vertical else Horizontal
                    | _ => Horizontal
                    end) in
          let remaining :=
            filter (fun a => negb (String.eqb (area_id a) (dv_id payload)))
                   (areas next) in
          let names := partitionNames (area_name baseArea) partitions in
          let part (shape_of : RectShape -> Shape) idx r :=
            mkArea (randomUUID w idx) (nth idx names EmptyString)
                   (area_fill baseArea) (area_stroke baseArea)
                   (area_strokeWidth baseArea) (shape_of r)
                   (Some (area_id baseArea)) None None None in
          let finish created :=
            let next := set_areas next (remaining ++ created) in
            Some (done (ensureUpdated w next) (map area_id created) "Divide area") in
          match area_shape baseArea with
          | Rect r =>
              finish (mapi (part Rect) (splitRectEvenly r partitions direction))
          | shape =>
              match shapeBoundingBox shape with
              | Some bbox =>
                  let slices :=
                    splitRectEvenly
                      (mkRect (bb_x bbox) (bb_y bbox) (bb_width bbox)
                              (bb_height bbox) None None)
                      partitions direction in
                  finish (mapi (part slice_polygon) slices)
              | None => None
              end
          end
      end
  end.

Definition loadPlan (_ : Plan) (payload : Plan) : CommandResult :=
  done payload [] "Load plan".

Definition setSelection (plan : Plan) (payload : Selection) : CommandResult :=
  mkResult plan (Some payload) (Some "Select").

(** The body of the loop over [payload.ids] in [moveMany]. *)
Definition moveOne (delta : Delta) (next : Plan) (id : string) : Plan :=
  match findArea next id with
  | None => next
  | Some area =>
      let shape :=
        match area_shape area with
        | Rect r => Rect (moveRect r delta (canvas_bounds (canvas next)))
        | Ellipse e =>
            Ellipse (mkEllipse (ell_cx e + dx delta)%num (ell_cy e + dy delta)%num
                               (ell_rx e) (ell_ry e))
        | Polygon p =>
            Polygon (mkPolygon
                       (translatePolygon (poly_points p) delta)
                       (option_map (map (fun hole => translatePolygon hole delta))
                                   (poly_holes p))
                       (poly_rotation p))
        | MultiPolygon mp =>
            MultiPolygon
              (mkMultiPolygon
                 (map (fun poly => translatePolygon poly delta) (mp_polygons mp))
                 (option_map
                    (map (map (fun hole => translatePolygon hole delta)))
                    (mp_holes mp)))
        end in
      update_area next id (fun a => set_shape a shape)
  end.

Definition moveMany (w : Platform) (plan : Plan) (payload : MoveMultiPayload)
    : CommandResult :=
  let next := clonePlan plan in
  let delta := mkDelta (mm_dx payload) (mm_dy payload) in
  let next := fold_left (moveOne delta) (mm_ids payload) next in
  done (ensureUpdated w next) (mm_ids payload) "Move areas".

Definition setAreaLabelOffset (w : Platform) (plan : Plan)
    (payload : LabelOffsetPayload) : CommandResult :=
  let next := clonePlan plan in
  match findArea next (lo_id payload) with
  | None => unchanged plan
  | Some _ =>
      let next :=
        update_area next (lo_id payload)
                    (fun a => set_labelOffset a (Some (lo_offset payload))) in
      done (ensureUpdated w next) [lo_id payload] "Move area label"
  end.

Definition setEdgeLabelOffset (w : Platform) (plan : Plan)
    (payload : EdgeLabelOffsetPayload) : CommandResult :=
  let next := clonePlan plan in
  match findArea next (elo_id payload) with
  | None => unchanged plan
  | Some _ =>
      let next :=
        update_area next (elo_id payload)
          (fun a =>
             set_edgeLabelOffsets a
               (Some (assign (elo_edgeKey payload) (elo_offset payload)
                                 (orElse (area_edgeLabelOffsets a) [])))) in
      done (ensureUpdated w next) [elo_id payload] "Move edge label"
  end.

Definition setRadiusLabelOffset (w : Platform) (plan : Plan)
    (payload : LabelOffsetPayload) : CommandResult :=
  let next := clonePlan plan in
  match findArea next (lo_id payload) with
  | None => unchanged plan
  | Some _ =>
      let next :=
        update_area next (lo_id payload)
                    (fun a => set_radiusLabelOffset a (Some (lo_offset payload))) in
      done (ensureUpdated w next) [lo_id payload] "Move radius label"
  end.

(** The dispatch on [command.type].  The result is [None] only for the
    division described at [divideArea]. *)
Definition performCommand (w : Platform) (plan : Plan) (command : Command)
    : option CommandResult :=
  match command with
  | plan_create payload => Some (createPlan w plan payload)
  | plan_resize_boundary payload => Some (updatePlanDimensions w plan payload)
  | plan_set_viewport payload => Some (setViewport w plan payload)
  | plan_load payload => Some (loadPlan plan payload)
  | area_create payload => Some (createArea w plan payload)
  | area_create_polygon payload => Some (createPolygon w plan payload)
  | area_create_ellipse payload => Some (createEllipse w plan payload)
  | area_paste payload => Some (pasteAreas w plan payload)
  | area_move payload => Some (moveArea w plan payload)
  | area_move_polygon payload => Some (movePolygonArea w plan payload)
  | area_resize payload => Some (resizeArea w plan payload)
  | area_set_rect payload => Some (setAreaRect w plan payload)
  | area_set_ellipse payload => Some (setEllipse w plan payload)
  | area_set_rect_batch payload => Some (setAreaRectBatch w plan payload)
  | area_set_polygon payload => Some (setPolygon w plan payload)
  | area_set_multipolygon payload => Some (setMultiPolygon w plan payload)
  | area_rename payload => Some (renameArea w plan payload)
  | area_recolor payload => Some (recolorArea w plan payload)
  | area_delete payload => Some (deleteArea w plan payload)
  | area_mirror payload => Some (mirrorArea w plan payload)
  | area_subtract payload => Some (subtractAreas w plan payload)
  | area_divide payload => divideArea w plan payload
  | area_merge payload => Some (mergeAreas w plan payload)
  | group_create payload => Some (createGroup w plan payload)
  | group_delete payload => Some (removeGroup w plan payload)
  | group_visibility payload => Some (setGroupVisibility w plan payload)
  | area_convert_to_polygon payload => Some (convertToPolygon w plan payload)
  | area_move_multi payload => Some (moveMany w plan payload)
  | area_set_label_offset payload => Some (setAreaLabelOffset w plan payload)
  | area_set_edge_label_offset payload => Some (setEdgeLabelOffset w plan payload)
  | area_set_radius_label_offset payload => Some (setRadiusLabelOffset w plan payload)
  | selection_set payload => Some (setSelection plan payload)
  end.

(* ================================================================== *)
(** * Import and export ([domain/io]) *)

(** ** JSON *)
Set Warnings "-register-all".

(** The numbers that are not finite. *)
Inductive NonFinite := NaN | PlusInfinity | MinusInfinity.

(** Values as the script holds them at run time.  A number is finite
    ([JNum]) or not ([JNonFinite]). *)
Inductive jsval :=
| JUndefined
| JNull
| JBool (b : bool)
| JNum (n : num)
| JStr (s : string)
| JArr (items : list jsval)
| JObj (props : list (string * jsval))
| JNonFinite (k : NonFinite).

(** A JSON text, as the sequence of its tokens. *)
Inductive token :=
| TLBrace | TRBrace | TLBracket | TRBracket | TColon | TComma
| TNull | TTrue | TFalse
| TNumber (n : num)
| TString (s : string).

Definition text := list token.

Definition print_elems (f : jsval -> text) : list jsval -> text :=
  fix go l :=
    match l with
    | [] => [TRBracket]
    | x :: r =>
        f x ++ match r with
               | [] => [TRBracket]
               | _ :: _ => TComma :: go r
               end
    end.

Definition print_members (f : jsval -> option text)
    : list (string * jsval) -> bool -> text :=
  fix go l first :=
    match l with
    | [] => [TRBrace]
    | (k, x) :: r =>
        match f x with
        | Some ts =>
            (if first then [] else [TComma]) ++ TString k :: TColon :: ts
            ++ go r false
        | None => go r first
        end
    end.

(** [JSON.stringify(value, null, 2)]: [None] where it returns
    [undefined].  A property that holds [undefined] is left out, an
    [undefined] array entry and a number that is not finite are written as
    [null]. *)
Fixpoint JSON_stringify (v : jsval) : option text :=
  match v with
  | JUndefined => None
  | JNull => Some [TNull]
  | JBool true => Some [TTrue]
  | JBool false => Some [TFalse]
  | JNum n => Some [TNumber n]
  | JStr s => Some [TString s]
  | JArr items =>
      Some (TLBracket :: print_elems (fun x => orElse (JSON_stringify x) [TNull]) items)
  | JObj props =>
      Some (TLBrace :: print_members JSON_stringify props true)
  | JNonFinite _ => Some [TNull]
  end.

Fixpoint parse_value (fuel : nat) (ts : text) : option (jsval * text) :=
  match fuel with
  | O => None
  | S fuel =>
      match ts with
      | TNull :: r => Some (JNull, r)
      | TTrue :: r => Some (JBool true, r)
      | TFalse :: r => Some (JBool false, r)
      | TNumber n :: r => Some (JNum n, r)
      | TString s :: r => Some (JStr s, r)
      | TLBracket :: TRBracket :: r => Some (JArr [], r)
      | TLBracket :: r => parse_elements fuel r []
      | TLBrace :: TRBrace :: r => Some (JObj [], r)
      | TLBrace :: r => parse_members fuel r []
      | _ => None
      end
  end
with parse_elements (fuel : nat) (ts : text) (acc : list jsval)
    : option (jsval * text) :=
  match fuel with
  | O => None
  | S fuel =>
      match parse_value fuel ts with
      | Some (v, TComma :: r) => parse_elements fuel r (acc ++ [v])
      | Some (v, TRBracket :: r) => Some (JArr (acc ++ [v]), r)
      | _ => None
      end
  end
with parse_members (fuel : nat) (ts : text) (acc : list (string * jsval))
    : option (jsval * text) :=
  match fuel with
  | O => None
  | S fuel =>
      match ts with
      | TString k :: TColon :: r =>
          match parse_value fuel r with
          | Some (v, TComma :: r') => parse_members fuel r' (assign k v acc)
          | Some (v, TRBrace :: r') => Some (JObj (assign k v acc), r')
          | _ => None
          end
      | _ => None
      end
  end.

(** [===] on two texts. *)
Definition token_eqb (a b : token) : bool :=
  match a, b with
  | TLBrace, TLBrace | TRBrace, TRBrace | TLBracket, TLBracket
  | TRBracket, TRBracket | TColon, TColon | TComma, TComma
  | TNull, TNull | TTrue, TTrue | TFalse, TFalse => true
  | TNumber x, TNumber y => (x =? y)%num
  | TString x, TString y => String.eqb x y
  | _, _ => false
  end.

Fixpoint text_eqb (a b : text) : bool :=
  match a, b with
  | [], [] => true
  | x :: a', y :: b' => token_eqb x y && text_eqb a' b'
  | _, _ => false
  end.

(** [JSON.parse(text)]: [None] where it throws. *)
Definition JSON_parse (ts : text) : option jsval :=
  match parse_value (S (List.length ts)) ts with
  | Some (v, []) => Some v
  | _ => None
  end.

(** ** Plans as run-time values *)

(** An object literal: the properties that are present, in order. *)
Fixpoint object (fields : list (option (string * jsval))) : list (string * jsval) :=
  match fields with
  | [] => []
  | Some kv :: rest => kv :: object rest
  | None :: rest => object rest
  end.

Definition prop (key : string) (v : jsval) : option (string * jsval) :=
  Some (key, v).

Definition optional {A} (key : string) (f : A -> jsval) (o : option A)
    : option (string * jsval) :=
  option_map (fun a => (key, f a)) o.

Definition point_value (p : Point) : jsval :=
  JObj [("x", JNum (px p)); ("y", JNum (py p))].

Definition ring_value (r : Ring) : jsval := JArr (map point_value r).

Definition rings_value (rs : list Ring) : jsval := JArr (map ring_value rs).

Definition rings_list_value (rss : list (list Ring)) : jsval :=
  JArr (map rings_value rss).

Definition shape_value (s : Shape) : jsval :=
  match s with
  | Rect r =>
      JObj (object
        [ prop "type" (JStr "rect");
          prop "x" (JNum (rect_x r)); prop "y" (JNum (rect_y r));
          prop "width" (JNum (rect_width r)); prop "height" (JNum (rect_height r));
          optional "rotation" JNum (rect_rotation r);
          optional "cornerRadius" JNum (rect_cornerRadius r) ])
  | Ellipse e =>
      JObj [ ("type", JStr "ellipse");
             ("cx", JNum (ell_cx e)); ("cy", JNum (ell_cy e));
             ("rx", JNum (ell_rx e)); ("ry", JNum (ell_ry e)) ]
  | Polygon p =>
      JObj (object
        [ prop "type" (JStr "polygon");
          prop "points" (ring_value (poly_points p));
          optional "holes" rings_value (poly_holes p);
          optional "rotation" JNum (poly_rotation p) ])
  | MultiPolygon mp =>
      JObj (object
        [ prop "type" (JStr "multipolygon");
          prop "polygons" (rings_value (mp_polygons mp));
          optional "holes" rings_list_value (mp_holes mp) ])
  end.

Definition offsets_value (l : list (string * Point)) : jsval :=
  JObj (map (fun kv => (fst kv, point_value (snd kv))) l).

Definition area_value (a : Area) : jsval :=
  JObj (object
    [ prop "id" (JStr (area_id a));
      prop "name" (JStr (area_name a));
      prop "fill" (JStr (area_fill a));
      prop "stroke" (JStr (area_stroke a));
      prop "strokeWidth" (JNum (area_strokeWidth a));
      prop "shape" (shape_value (area_shape a));
      optional "parentId" JStr (area_parentId a);
      optional "labelOffset" point_value (area_labelOffset a);
      optional "edgeLabelOffsets" offsets_value (area_edgeLabelOffsets a);
      optional "radiusLabelOffset" point_value (area_radiusLabelOffset a) ]).

Definition group_value (g : AreaGroup) : jsval :=
  JObj (object
    [ prop "id" (JStr (group_id g));
      prop "name" (JStr (group_name g));
      prop "areaIds" (JArr (map JStr (group_areaIds g)));
      optional "locked" JBool (group_locked g);
      optional "visible" JBool (group_visible g) ]).

Definition units_value (u : Units) : jsval :=
  JStr match u with Cm => "cm" | M => "m" | Ft => "ft" end.

Definition canvas_value (c : Canvas) : jsval :=
  JObj [ ("width", JNum (canvas_width c)); ("height", JNum (canvas_height c));
         ("zoom", JNum (canvas_zoom c)); ("pan", point_value (canvas_pan c)) ].

Definition meta_value (m : Meta) : jsval :=
  JObj [ ("name", JStr (meta_name m)); ("createdAt", JStr (meta_createdAt m));
         ("updatedAt", JStr (meta_updatedAt m)) ].

Definition plan_value (p : Plan) : jsval :=
  JObj (object
    [ prop "version" (JStr "1.0");
      prop "units" (units_value (units p));
      prop "canvas" (canvas_value (canvas p));
      prop "areas" (JArr (map area_value (areas p)));
      optional "areaGroups" (fun gs => JArr (map group_value gs)) (areaGroups p);
      prop "meta" (meta_value (meta p)) ]).

(** ** Import and export ([domain/io]) *)

(** [JSON.stringify(plan)], with or without indentation: a plan is an
    object, for which [JSON.stringify] returns a text. *)
Definition stringify_plan (plan : Plan) : text :=
  orElse (JSON_stringify (plan_value plan)) [].



(** [value[key]] for a string key that is not an array index: [None] where
    the access throws, [JUndefined] where the property is missing. *)
Definition get_property (v : jsval) (key : string) : option jsval :=
  match v with
  | JUndefined | JNull => None
  | JObj props =>
      Some match find (fun kv => String.eqb (fst kv) key) props with
           | Some kv => snd kv
           | None => JUndefined
           end
  | _ => Some JUndefined
  end.

Definition truthy (v : jsval) : bool :=
  match v with
  | JUndefined | JNull => false
  | JBool b => b
  | JNum n => negb (n =? zero)%num
  | JStr s => negb (String.eqb s "")
  | JArr _ | JObj _ => true
  | JNonFinite NaN => false
  | JNonFinite _ => true
  end.

(** The result is the parsed value itself ([parsed as Plan] checks
    nothing); [None] is the [null] the script returns. *)
Definition importPlanFromJson (json : text) : option jsval :=
  match JSON_parse json with
  | None => None
  | Some parsed =>
      match get_property parsed "version" with
      | None => None
      | Some version => if negb (truthy version) then None else Some parsed
      end
  end.

(* ================================================================== *)
(** * The store ([store/usePlanStore]) *)

Inductive Tool :=
| tool_select | tool_draw_rect | tool_draw_polygon | tool_divide
| tool_pan | tool_fill | tool_label | tool_delete.

Module Store.

Record State := mkState {
  plan : Plan;
  selection : Selection;
  history : HistoryStack;
  activeTool : Tool;
  paletteColor : string;
  snapEnabled : bool;
  showDimensions : bool;
  showGrid : bool
}.

(** [set] merged with a partial state that names these three fields. *)
Definition update (st : State) (p : Plan) (s : Selection) (h : HistoryStack)
    : State :=
  mkState p s h (activeTool st) (paletteColor st) (snapEnabled st)
          (showDimensions st) (showGrid st).

(** [list.slice(-n)]: the last [n] entries, all of them if fewer. *)
Definition slice_last {A} (n : nat) (l : list A) : list A :=
  skipn (List.length l - n) l.

Definition pushHistory (h : HistoryStack) (record : CommandRecord)
    : HistoryStack :=
  let undo := undo_stack h ++ [record] in
  let cappedUndo := slice_last 100 undo in
  mkHistory cappedUndo [].

Definition initial (w : Platform) : State :=
  mkState (seedPlan w) (mkSelection []) (mkHistory [] [])
          tool_select "#f59e0b" true true true.

(** [JSON.stringify(before) !== JSON.stringify(after)], on the texts of
    the typed plans, which print their properties in one fixed order.
    Two plans that differ here print different texts in the
    script too, and a handler that hands back the very plan it was given
    prints the same text twice.  In the script the text also depends on the
    order in which a handler assigned the properties of an object, which a
    record does not keep: a handler that rebuilds a shape from its payload
    can print another text for an equal plan.  The properties below rely on
    the first two facts only. *)
Definition changed (before after : Plan) : bool :=
  negb (text_eqb (stringify_plan before) (stringify_plan after)).

(** [apply(command)]; [None] where the interpreter leaves the model. *)
Definition apply (w : Platform) (command : Command) (st : State)
    : option State :=
  let before := clonePlan (plan st) in
  match performCommand w (plan st) command with
  | None => None
  | Some (mkResult after sel description) =>
      if negb (changed before after) then
        match sel with
        | Some s => Some (update st (plan st) s (history st))
        | None => Some st
        end
      else
        let record :=
          mkRecord (command_type command) command
                   (orElse description (command_type command))
                   before (clonePlan after) (Date_now w) in
        Some (update st after (orElse sel (selection st))
                     (pushHistory (history st) record))
  end.

Definition undo (st : State) : State :=
  match rev (undo_stack (history st)) with
  | [] => st
  | last :: _ =>
      let undo := removelast (undo_stack (history st)) in
      let redo := last :: redo_stack (history st) in
      update st (clonePlan (rec_before last)) (mkSelection [])
             (mkHistory undo redo)
  end.

Definition redo (st : State) : State :=
  match redo_stack (history st) with
  | [] => st
  | next :: rest =>
      let undo := undo_stack (history st) ++ [next] in
      update st (clonePlan (rec_after next)) (mkSelection [])
             (mkHistory undo rest)
  end.

Definition setTool (tool : Tool) (st : State) : State :=
  mkState (plan st) (selection st) (history st) tool (paletteColor st)
          (snapEnabled st) (showDimensions st) (showGrid st).

Definition setSelection (s : Selection) (st : State) : State :=
  update st (plan st) s (history st).

Definition loadPlan (p : Plan) (st : State) : State :=
  mkState (clonePlan p) (mkSelection []) (mkHistory [] []) tool_select
          (paletteColor st) (snapEnabled st) (showDimensions st) (showGrid st).

(** A session: commands applied one after the other, each with the
    platform readings of its own run. *)
Fixpoint run (cmds : list (Platform * Command)) (st : State) : option State :=
  match cmds with
  | [] => Some st
  | (w, c) :: rest =>
      match apply w c st with
      | Some st' => run rest st'
      | None => None
      end
  end.

(** A command is effective in a state when the interpreter returns a plan
    that differs from the current one, which is when [apply] records it. *)
Definition effective (w : Platform) (c : Command) (st : State) : bool :=
  match performCommand w (plan st) c with
  | Some r => changed (plan st) (res_plan r)
  | None => false
  end.

Fixpoint all_effective (cmds : list (Platform * Command)) (st : State) : bool :=
  match cmds with
  | [] => true
  | (w, c) :: rest =>
      effective w c st &&
      match apply w c st with
      | Some st' => all_effective rest st'
      | None => false
      end
  end.

(** The record [apply] builds for a command, effective or not. *)
Definition record_of (w : Platform) (c : Command) (st : State)
    : option CommandRecord :=
  match performCommand w (plan st) c with
  | Some r =>
      Some (mkRecord (command_type c) c
                     (orElse (res_description r) (command_type c))
                     (plan st) (res_plan r) (Date_now w))
  | None => None
  end.

(** The records of a session, oldest first. *)
Fixpoint records_of (cmds : list (Platform * Command)) (st : State)
    : list CommandRecord :=
  match cmds with
  | [] => []
  | (w, c) :: rest =>
      match record_of w c st, apply w c st with
      | Some r, Some st' => r :: records_of rest st'
      | _, _ => []
      end
  end.

Fixpoint iterate {A} (n : nat) (f : A -> A) (a : A) : A :=
  match n with
  | O => a
  | S k => iterate k f (f a)
  end.

End Store.

(* ================================================================== *)
(** * Notions the properties are stated with *)

(** ** History *)

(** The records link the plan [p] to the plan [q]: each starts from the plan
    the one before it produced. *)
Fixpoint chained (p : Plan) (rs : list CommandRecord) (q : Plan) : Prop :=
  match rs with
  | [] => p = q
  | r :: rest => rec_before r = p /\ chained (rec_after r) rest q
  end.

(** The undo stack after the records [rs] are pushed one by one. *)
Definition push_all (u : list CommandRecord) (rs : list CommandRecord) :=
  fold_left (fun u r => Store.slice_last 100 (u ++ [r])) rs u.

(** ** Canvas bounds *)

(** A rect and an ellipse that lie within the canvas. *)
Definition rect_within (c : Canvas) (r : RectShape) : Prop :=
  (zero <= rect_x r)%num /\
  (rect_x r + rect_width r <= canvas_width c)%num /\
  (zero <= rect_y r)%num /\
  (rect_y r + rect_height r <= canvas_height c)%num.





Definition origin_clamped (c : Canvas) (r : RectShape) : Prop :=
  (zero <= rect_x r)%num /\
  (rect_x r <= canvas_width c - rect_width r)%num /\
  (zero <= rect_y r)%num /\
  (rect_y r <= canvas_height c - rect_height r)%num.



(** ** Commands *)







(** The area id a command names as its single target, if it has one. *)
Definition single_target (cmd : Command) : option string :=
  match cmd with
  | area_move p | area_move_polygon p => Some (mv_id p)
  | area_resize p => Some (rs_id p)
  | area_set_rect p => Some (sr_id p)
  | area_set_ellipse p => Some (se_id p)
  | area_set_polygon p => Some (sp_id p)
  | area_set_multipolygon p => Some (smp_id p)
  | area_rename p => Some (rn_id p)
  | area_recolor p => Some (rc_id p)
  | area_delete id => Some id
  | area_mirror p => Some (mi_id p)
  | area_divide p => Some (dv_id p)
  | area_set_label_offset p | area_set_radius_label_offset p => Some (lo_id p)
  | area_set_edge_label_offset p => Some (elo_id p)
  | _ => None
  end.

Definition is_delete (cmd : Command) : bool :=
  match cmd with area_delete _ => true | _ => false end.

(** [overlapsAny] of the earlier revision of the interpreter, which
    rejected a rect that overlapped another rect area. *)
Definition overlapsAny (id : option string) (target : RectShape) (plan : Plan)
    : bool :=
  existsb
    (fun a =>
       match id with
       | Some i => negb (String.eqb (area_id a) i)
       | None => true
       end &&
       match area_shape a with
       | Rect s =>
           (rect_x target <? rect_x s + rect_width s)%num &&
           (rect_x s <? rect_x target + rect_width target)%num &&
           (rect_y target <? rect_y s + rect_height s)%num &&
           (rect_y s <? rect_y target + rect_height target)%num
       | _ => false
       end)
    (areas plan).

(** The partitions [area/create] builds from the payload rect. *)
Definition created_rects (plan : Plan) (p : CreateAreaPayload) : list RectShape :=
  splitRectEvenly
    (constrainRectToBounds (ca_rect p) (canvas_bounds (canvas plan)) MIN_SIZE)
    (Z.max 1 (orElse (ca_partitions p) 1%Z))
    (orElse (ca_direction p)
            (if (rect_height (ca_rect p) <=? rect_width (ca_rect p))%num
             then Vertical else Horizontal)).

(** ** Subtraction *)








(** ** Angles *)

(** The remainder of the floored division, in [[0, m)] for a positive [m]. *)
Definition fmod (x m : num) : num := (x - m * of_Z (Qfloor (x / m)))%num.

(** The distance between two angles around the circle, in degrees. *)
Definition circ_dist (a b : num) : num :=
  let d := fmod (a - b)%num (of_Z 360) in
  Math_min d (of_Z 360 - d)%num.

(** The multiples of 15 degrees below a full turn. *)
Definition multiples15 : list num :=
  map (fun k => of_Z (15 * Z.of_nat k)) (seq 0 24).

(** [r] is a member of [set] at minimal circular distance from [angle]. *)
Definition nearest_in (set : list num) (angle r : num) : Prop :=
  In r set /\
  forall s, In s set -> (circ_dist angle r <= circ_dist angle s)%num.

(** [r] is the first member of [set] at minimal circular distance. *)
Definition first_nearest_in (set : list num) (angle r : num) : Prop :=
  exists before after,
    set = before ++ r :: after /\
    Forall (fun s => (circ_dist angle r < circ_dist angle s)%num) before /\
    Forall (fun s => (circ_dist angle r <= circ_dist angle s)%num) after.

(** An angle on which the double arithmetic of [snapAngle] is exact: a
    whole multiple of [2^-20] degrees, of magnitude [2^32] at most, so
    that [angle - s + 540] is formed without rounding for every snap. *)
Definition exact_angle (angle : num) : Prop :=
  (exists k : Z, angle = (of_Z k / of_Z (2 ^ 20))%num) /\
  (Math_abs angle <= of_Z (2 ^ 32))%num.

(** The floored remainder over [Q], to reason about [fmod] and [rem]. *)
Definition qfmod (x m : Q) : Q := (x - m * inject_Z (Qfloor (x / m)))%Q.

(** ** Values that JSON text can spell *)

(** No key occurs twice. *)
Fixpoint distinct (keys : list string) : bool :=
  match keys with
  | [] => true
  | k :: rest => negb (existsb (String.eqb k) rest) && distinct rest
  end.

(** A value that JSON text can spell: nothing in it is [undefined] or a
    number that is not finite, and every object holds each of its keys
    once. *)
Fixpoint clean (v : jsval) : bool :=
  match v with
  | JUndefined | JNonFinite _ => false
  | JArr items => forallb clean items
  | JObj props =>
      distinct (map fst props) && forallb (fun kv => clean (snd kv)) props
  | _ => true
  end.

Section JsvalInduction.
Variable P : jsval -> Prop.
Hypothesis Hundefined : P JUndefined.
Hypothesis Hnull : P JNull.
Hypothesis Hbool : forall b, P (JBool b).
Hypothesis Hnum : forall n, P (JNum n).
Hypothesis Hstr : forall s, P (JStr s).
Hypothesis Harr : forall items, Forall P items -> P (JArr items).
Hypothesis Hobj :
  forall props, Forall (fun kv => P (snd kv)) props -> P (JObj props).
Hypothesis Hnonfinite : forall k, P (JNonFinite k).

Fixpoint jsval_nested_ind (v : jsval) : P v :=
  match v with
  | JUndefined => Hundefined
  | JNull => Hnull
  | JBool b => Hbool b
  | JNum n => Hnum n
  | JStr s => Hstr s
  | JArr items =>
      Harr items
        ((fix go (l : list jsval) : Forall P l :=
            match l with
            | [] => Forall_nil P
            | x :: r => Forall_cons x (jsval_nested_ind x) (go r)
            end) items)
  | JObj props =>
      Hobj props
        ((fix go (l : list (string * jsval)) : Forall (fun kv => P (snd kv)) l :=
            match l with
            | [] => Forall_nil _
            | kv :: r => Forall_cons kv (jsval_nested_ind (snd kv)) (go r)
            end) props)
  | JNonFinite k => Hnonfinite k
  end.
End JsvalInduction.

(** A token that can begin the text of a value. *)
Definition starts_value (t : token) : bool :=
  match t with
  | TRBrace | TRBracket | TColon | TComma => false
  | _ => true
  end.

(** What [parse_value] is to do on the text of one value. *)
Definition parses (v : jsval) : Prop :=
  clean v = true ->
  forall toks, JSON_stringify v = Some toks ->
  forall fuel rest,
    (List.length toks < fuel)%nat ->
    parse_value fuel (toks ++ rest) = Some (v, rest).


(** ** Reading a run-time value as a plan *)

Notation "'let*' x ':=' e 'in' k" :=
  (match e with Some x => k | None => None end)
  (at level 10, x pattern, e at level 100, k at level 200, only parsing).

Fixpoint traverse {A B} (f : A -> option B) (l : list A) : option (list B) :=
  match l with
  | [] => Some []
  | a :: rest =>
      let* b := f a in
      let* bs := traverse f rest in
      Some (b :: bs)
  end.

Definition field (props : list (string * jsval)) (key : string) : option jsval :=
  option_map snd (find (fun kv => String.eqb (fst kv) key) props).

Definition read_num (v : jsval) : option num :=
  match v with JNum n => Some n | _ => None end.

Definition read_str (v : jsval) : option string :=
  match v with JStr s => Some s | _ => None end.

Definition read_bool (v : jsval) : option bool :=
  match v with JBool b => Some b | _ => None end.

Definition read_list {A} (f : jsval -> option A) (v : jsval) : option (list A) :=
  match v with JArr items => traverse f items | _ => None end.

Definition read_props (v : jsval) : option (list (string * jsval)) :=
  match v with JObj props => Some props | _ => None end.

(** A required and an optional property of an object. *)
Definition required {A} (f : jsval -> option A) (props : list (string * jsval))
    (key : string) : option A :=
  let* v := field props key in f v.

Definition optionally {A} (f : jsval -> option A) (props : list (string * jsval))
    (key : string) : option (option A) :=
  match field props key with
  | None => Some None
  | Some v => let* a := f v in Some (Some a)
  end.

Definition read_point (v : jsval) : option Point :=
  let* props := read_props v in
  let* x := required read_num props "x" in
  let* y := required read_num props "y" in
  Some (mkPoint x y).

Definition read_ring : jsval -> option Ring := read_list read_point.
Definition read_rings : jsval -> option (list Ring) := read_list read_ring.
Definition read_rings_list : jsval -> option (list (list Ring)) :=
  read_list read_rings.

Definition read_shape (v : jsval) : option Shape :=
  let* props := read_props v in
  let* tag := required read_str props "type" in
  if String.eqb tag "rect" then
    let* x := required read_num props "x" in
    let* y := required read_num props "y" in
    let* width := required read_num props "width" in
    let* height := required read_num props "height" in
    let* rotation := optionally read_num props "rotation" in
    let* cornerRadius := optionally read_num props "cornerRadius" in
    Some (Rect (mkRect x y width height rotation cornerRadius))
  else if String.eqb tag "ellipse" then
    let* cx := required read_num props "cx" in
    let* cy := required read_num props "cy" in
    let* rx := required read_num props "rx" in
    let* ry := required read_num props "ry" in
    Some (Ellipse (mkEllipse cx cy rx ry))
  else if String.eqb tag "polygon" then
    let* points := required read_ring props "points" in
    let* holes := optionally read_rings props "holes" in
    let* rotation := optionally read_num props "rotation" in
    Some (Polygon (mkPolygon points holes rotation))
  else if String.eqb tag "multipolygon" then
    let* polygons := required read_rings props "polygons" in
    let* holes := optionally read_rings_list props "holes" in
    Some (MultiPolygon (mkMultiPolygon polygons holes))
  else None.

Definition read_offsets (v : jsval) : option (list (string * Point)) :=
  let* props := read_props v in
  traverse (fun kv => let* p := read_point (snd kv) in Some (fst kv, p)) props.

Definition read_area (v : jsval) : option Area :=
  let* props := read_props v in
  let* id := required read_str props "id" in
  let* name := required read_str props "name" in
  let* fill := required read_str props "fill" in
  let* stroke := required read_str props "stroke" in
  let* strokeWidth := required read_num props "strokeWidth" in
  let* shape := required read_shape props "shape" in
  let* parentId := optionally read_str props "parentId" in
  let* labelOffset := optionally read_point props "labelOffset" in
  let* edgeLabelOffsets := optionally read_offsets props "edgeLabelOffsets" in
  let* radiusLabelOffset := optionally read_point props "radiusLabelOffset" in
  Some (mkArea id name fill stroke strokeWidth shape parentId labelOffset
               edgeLabelOffsets radiusLabelOffset).

Definition read_group (v : jsval) : option AreaGroup :=
  let* props := read_props v in
  let* id := required read_str props "id" in
  let* name := required read_str props "name" in
  let* ids := required (read_list read_str) props "areaIds" in
  let* locked := optionally read_bool props "locked" in
  let* visible := optionally read_bool props "visible" in
  Some (mkAreaGroup id name ids locked visible).

Definition read_units (v : jsval) : option Units :=
  let* s := read_str v in
  if String.eqb s "cm" then Some Cm
  else if String.eqb s "m" then Some M
  else if String.eqb s "ft" then Some Ft
  else None.

Definition read_canvas (v : jsval) : option Canvas :=
  let* props := read_props v in
  let* width := required read_num props "width" in
  let* height := required read_num props "height" in
  let* zoom := required read_num props "zoom" in
  let* pan := required read_point props "pan" in
  Some (mkCanvas width height zoom pan).

Definition read_meta (v : jsval) : option Meta :=
  let* props := read_props v in
  let* name := required read_str props "name" in
  let* createdAt := required read_str props "createdAt" in
  let* updatedAt := required read_str props "updatedAt" in
  Some (mkMeta name createdAt updatedAt).

(** The plan a run-time value is, when it has the shape of one. *)
Definition read_plan (v : jsval) : option Plan :=
  let* props := read_props v in
  let* u := required read_units props "units" in
  let* c := required read_canvas props "canvas" in
  let* l := required (read_list read_area) props "areas" in
  let* g := optionally (read_list read_group) props "areaGroups" in
  let* m := required read_meta props "meta" in
  Some (mkPlan u c l g m).

(** ** Boxes, rings and areas *)

(** The shapes that are given by rings of points. *)
Definition is_polygonal (shape : Shape) : bool :=
  match shape with
  | Polygon _ | MultiPolygon _ => true
  | _ => false
  end.

(** A point lies in a box: it is not left of or above the corner of the
    box, and no further from the corner than the box is wide and high.
    (The distance is the difference the script computes for the size of a
    box; the sum of corner and size is rounded once more.) *)
Definition in_box (b : BBox) (p : Point) : Prop :=
  (bb_x b <= px p)%num /\ (px p - bb_x b <= bb_width b)%num /\
  (bb_y b <= py p)%num /\ (py p - bb_y b <= bb_height b)%num.

(** A rect as a box. *)
Definition rect_box (r : RectShape) : BBox :=
  mkBBox (rect_x r) (rect_y r) (rect_width r) (rect_height r).

(** Every point of a ring lies within the bounds; the ring is no wider and
    no higher than the bounds. *)
Definition ring_within (b : Bounds) (points : Ring) : Prop :=
  forall p, In p points ->
    (zero <= px p)%num /\ (px p <= b_width b)%num /\
    (zero <= py p)%num /\ (py p <= b_height b)%num.

Definition ring_fits (b : Bounds) (points : Ring) : Prop :=
  forall p q, In p points -> In q points ->
    (px p - px q <= b_width b)%num /\ (py p - py q <= b_height b)%num.

(** The sum the area loop accumulates over the pairs of consecutive
    points, from [start]. *)
Definition cross_sum (pairs : list (Point * Point)) (start : num) : num :=
  fold_left
    (fun sum '(current, next) =>
       (sum + (px current * py next - px next * py current))%num)
    pairs start.

(** A point moved by a delta, and a shape with every point of its
    outlines and holes moved. *)
Definition shift (d : Delta) (p : Point) : Point :=
  mkPoint (px p + dx d)%num (py p + dy d)%num.

Definition shift_shape (d : Delta) (s : Shape) : Shape :=
  match s with
  | Polygon p =>
      Polygon (mkPolygon (map (shift d) (poly_points p))
                         (option_map (map (map (shift d))) (poly_holes p))
                         (poly_rotation p))
  | MultiPolygon mp =>
      MultiPolygon
        (mkMultiPolygon (map (map (shift d)) (mp_polygons mp))
                        (option_map (map (map (map (shift d)))) (mp_holes mp)))
  | Rect r => Rect r
  | Ellipse e => Ellipse e
  end.

(** A shape that area/paste takes over: a polygon of three points or
    more, a multipolygon of one outline or more, each of three points or
    more, any rect and any ellipse. *)
Definition pastable (s : Shape) : bool :=
  match s with
  | Polygon p => (3 <=? List.length (poly_points p))%nat
  | MultiPolygon mp =>
      negb (List.length (mp_polygons mp) =? 0)%nat
      && forallb (fun poly => (3 <=? List.length poly)%nat) (mp_polygons mp)
  | _ => true
  end.

(** A grid step on which the double arithmetic of [snapValue] is exact: a
    power of two between [2^-20] and [2^20]. *)
Definition binary_step (g : num) : Prop :=
  exists n : nat,
    (n <= 20)%nat /\
    (g = of_Z (2 ^ Z.of_nat n) \/ g = (one / of_Z (2 ^ Z.of_nat n))%num).


(** ** Names *)

(** Every number that [nextAreaIndex] reads off a name of the plan is
    below [2^53], so that the script holds it and its successor without
    rounding. *)
Definition indices_counted (plan : Plan) : Prop :=
  Forall (fun a => forall digits,
              match_digits (area_name a) = Some digits ->
              (parseInt digits < 2 ^ 53)%N)
         (areas plan).

(** Every character of the string is a decimal digit. *)
Fixpoint all_digits (s : string) : bool :=
  match s with
  | EmptyString => true
  | String c rest => is_digit c && all_digits rest
  end.

(** ** Kinds of commands *)

(** The commands that put another plan in place of the current one, those
    that set the canvas, those that set the groups, and those that edit
    areas where they stand. *)
Definition replaces_plan (cmd : Command) : bool :=
  match cmd with plan_create _ | plan_load _ => true | _ => false end.

Definition sets_canvas (cmd : Command) : bool :=
  match cmd with
  | plan_resize_boundary _ | plan_set_viewport _ => true
  | _ => false
  end.

Definition sets_groups (cmd : Command) : bool :=
  match cmd with
  | group_create _ | group_delete _ | group_visibility _ => true
  | _ => false
  end.

Definition edits_in_place (cmd : Command) : bool :=
  match cmd with
  | area_move _ | area_move_polygon _ | area_resize _ | area_set_rect _
  | area_set_ellipse _ | area_set_rect_batch _ | area_set_polygon _
  | area_set_multipolygon _ | area_rename _ | area_recolor _ | area_mirror _
  | area_move_multi _ | area_set_label_offset _ | area_set_edge_label_offset _
  | area_set_radius_label_offset _ => true
  | _ => false
  end.

(** What is left of a plan when its areas and [meta.updatedAt] are set
    aside. *)
Definition frame (p : Plan)
    : Units * Canvas * option (list AreaGroup) * string * string :=
  (units p, canvas p, areaGroups p, meta_name (meta p), meta_createdAt (meta p)).

(** The properties of an area that no in-place edit assigns. *)
Definition identity_of (a : Area) : string * string * num * option string :=
  (area_id a, area_stroke a, area_strokeWidth a, area_parentId a).

(* ================================================================== *)
(** * Sample data *)

(** A platform whose clock stands still. *)
Definition demo_platform : Platform :=
  mkPlatform (fun _ => "2024-01-01T00:00:00.000Z")
             (fun k => "uuid-" ^^ decimal (N.of_nat k))
             1704067200000
             (fun _ => zero) (fun _ => zero)
             (fun inputs => inputs)
             (fun subject _ => subject).

(** A command that sets the zoom, and a session of [n] of them, each with
    a zoom of its own. *)
Definition zoom_to (z : Z) : Platform * Command :=
  (demo_platform, plan_set_viewport {| vp_zoom := Some (of_Z z); vp_pan := None |}).

Definition zoom_session (n : nat) : list (Platform * Command) :=
  map (fun i => zoom_to (Z.of_nat i + 2)) (seq 0 n).

(** The store as it starts. *)
Definition demo_state : Store.State := Store.initial demo_platform.

(** The seeded plan: two rooms, 4 by 3 and 4.5 by 4, on a 12 by 9 canvas. *)
Definition demo_plan : Plan := seedPlan demo_platform.

(** A platform whose clock reads a later time. *)
Definition later_platform : Platform :=
  mkPlatform (fun _ => "2024-06-01T12:00:00.000Z")
             (fun k => "late-" ^^ decimal (N.of_nat k))
             1717243200000
             (fun _ => zero) (fun _ => zero)
             (fun inputs => inputs)
             (fun subject _ => subject).

(** A plan with one 4 by 2 room at the origin. *)
Definition hall : Area :=
  mkArea "hall" "Hall" "#bfdbfe" "#1d4ed8" (lit 1 25)
         (Rect (rectShape (of_Z 0) (of_Z 0) (of_Z 4) (of_Z 2)))
         None None None None.

Definition hall_plan : Plan := set_areas demo_plan [hall].




Definition overlapping_rect : RectShape :=
  rectShape (of_Z 5) (of_Z 2) (of_Z 4) (of_Z 3).

(** The first room of the seeded plan, and a triangle with legs of 4 and 3
    as the only area of a plan. *)
Definition room : RectShape := rectShape (of_Z 1) (of_Z 1) (of_Z 4) (of_Z 3).

Definition triangle : Ring :=
  [ mkPoint (of_Z 0) (of_Z 0); mkPoint (of_Z 4) (of_Z 0); mkPoint (of_Z 0) (of_Z 3) ].

Definition triangle_area : Area :=
  mkArea "tri" "Triangle" "#d8b4fe" "#6b21a8" (lit 1 25)
         (Polygon (mkPolygon triangle None None)) None None None None.

Definition triangle_plan : Plan := set_areas demo_plan [triangle_area].

(** A document that holds a version and nothing else. *)
Definition bare_document : jsval := JObj [("version", JStr "1.0")].











(* ================================================================== *)
(** * Properties *)

(** ** The last entries of a list *)

Section SliceLast.
Context {A : Type}.
Implicit Types (l u : list A) (n k : nat).

Lemma slice_last_length n l :
  List.length (Store.slice_last n l) = Nat.min n (List.length l).
Proof. unfold Store.slice_last. rewrite length_skipn. lia. Qed.

Lemma slice_last_app n l1 l2 :
  (List.length l2 <= n)%nat ->
  Store.slice_last n (l1 ++ l2) =
  Store.slice_last (n - List.length l2) l1 ++ l2.
Proof.
  intros H. unfold Store.slice_last.
  rewrite length_app, skipn_app.
  replace (List.length l1 + List.length l2 - n)%nat
    with (List.length l1 - (n - List.length l2))%nat by lia.
  replace (List.length l1 - (n - List.length l2) - List.length l1)%nat
    with 0%nat by lia.
  reflexivity.
Qed.

Lemma slice_last_nested k n l :
  (k <= n)%nat ->
  Store.slice_last k (Store.slice_last n l) = Store.slice_last k l.
Proof.
  intros H. unfold Store.slice_last.
  rewrite skipn_skipn, length_skipn. f_equal. lia.
Qed.

End SliceLast.

(** ** Undo and redo *)

Section StoreLemmas.
Import Store.

Lemma chained_app p rs r q :
  chained p (rs ++ [r]) q <-> chained p rs (rec_before r) /\ rec_after r = q.
Proof.
  revert p. induction rs as [| r0 rs IH]; intros p; simpl.
  - split; [ intros [H1 H2]; auto | intros [H1 H2]; auto ].
  - rewrite IH. tauto.
Qed.

(** An effective command is recorded: the state gets the new plan and the
    history the record of the command. *)
Lemma apply_effective w c st :
  effective w c st = true ->
  exists r sel,
    record_of w c st = Some r /\
    rec_before r = plan st /\
    apply w c st =
      Some (update st (rec_after r) sel (pushHistory (history st) r)).
Proof.
  unfold effective, record_of, apply, clonePlan.
  destruct (performCommand w (plan st) c) as [[after sel descr] |];
    [ | discriminate ].
  simpl. intros H. rewrite H. simpl.
  eexists. eexists. split; [ reflexivity | ]. split; reflexivity.
Qed.

Lemma run_all_effective cmds :
  forall st,
    all_effective cmds st = true ->
    exists st',
      run cmds st = Some st' /\
      chained (plan st) (records_of cmds st) (plan st') /\
      List.length (records_of cmds st) = List.length cmds /\
      undo_stack (history st') =
        push_all (undo_stack (history st)) (records_of cmds st) /\
      (cmds <> [] -> redo_stack (history st') = []).
Proof.
  induction cmds as [| [w c] rest IH]; intros st Hall; simpl in *.
  - exists st. repeat split; auto. congruence.
  - apply andb_prop in Hall. destruct Hall as [Heff Hrest].
    destruct (apply_effective _ _ _ Heff) as (r & sel & Hrec & Hbefore & Happ).
    rewrite Happ in *. rewrite Hrec.
    destruct (IH _ Hrest) as (st' & Hrun & Hchain & Hlen & Hundo & Hredo).
    exists st'. simpl in *. repeat split; auto.
    intros _. destruct rest as [| x rest'].
    + simpl in Hrun. injection Hrun as <-. reflexivity.
    + apply Hredo. discriminate.
Qed.

Lemma slice_last_absorb {A} n (v l : list A) :
  slice_last n (slice_last n v ++ l) = slice_last n (v ++ l).
Proof.
  destruct (Nat.le_gt_cases (List.length l) n) as [Hle | Hgt].
  - rewrite !slice_last_app by assumption.
    rewrite slice_last_nested by lia. reflexivity.
  - unfold slice_last at 1 3. rewrite !skipn_app, !length_app.
    rewrite (skipn_all2 (slice_last n v)), (skipn_all2 v) by lia.
    simpl. f_equal. rewrite slice_last_length. lia.
Qed.

Lemma push_all_slice rs :
  forall u, rs <> [] -> push_all u rs = slice_last 100 (u ++ rs).
Proof.
  unfold push_all.
  induction rs as [| r rest IH]; intros u Hne; [ congruence | ].
  simpl. destruct rest as [| r' rest'].
  - reflexivity.
  - rewrite IH by discriminate. rewrite slice_last_absorb.
    rewrite <- app_assoc. reflexivity.
Qed.

Lemma undo_last st u r :
  undo_stack (history st) = u ++ [r] ->
  undo st = update st (rec_before r) (mkSelection [])
                   (mkHistory u (r :: redo_stack (history st))).
Proof.
  intros H. unfold undo, clonePlan. rewrite H, rev_unit, removelast_last.
  reflexivity.
Qed.

Lemma undo_iterate rs :
  forall st u p0,
    undo_stack (history st) = u ++ rs ->
    chained p0 rs (plan st) ->
    let st' := iterate (List.length rs) undo st in
    plan st' = p0 /\
    undo_stack (history st') = u /\
    redo_stack (history st') = rs ++ redo_stack (history st).
Proof.
  induction rs as [| r rs IH] using rev_ind; intros st u p0 Hu Hch; simpl.
  - rewrite app_nil_r in Hu. simpl in Hch. auto.
  - rewrite length_app, Nat.add_1_r. simpl.
    apply chained_app in Hch. destruct Hch as [Hch Hafter].
    rewrite app_assoc in Hu. rewrite (undo_last _ _ _ Hu).
    specialize (IH (update st (rec_before r) (mkSelection [])
                      (mkHistory (u ++ rs) (r :: redo_stack (history st))))
                   u p0 eq_refl Hch).
    simpl in IH. destruct IH as (H1 & H2 & H3).
    repeat split; auto. rewrite H3, <- app_assoc. reflexivity.
Qed.

Lemma redo_iterate rs :
  forall st rest q,
    redo_stack (history st) = rs ++ rest ->
    chained (plan st) rs q ->
    let st' := iterate (List.length rs) redo st in
    plan st' = q /\
    undo_stack (history st') = undo_stack (history st) ++ rs /\
    redo_stack (history st') = rest.
Proof.
  induction rs as [| r rs IH]; intros st rest q Hr Hch; simpl in *.
  - rewrite app_nil_r. auto.
  - destruct Hch as [Hb Hch].
    unfold redo at 2 4 6. rewrite Hr. unfold clonePlan.
    specialize (IH (update st (rec_after r) (mkSelection [])
                      (mkHistory (undo_stack (history st) ++ [r]) (rs ++ rest)))
                   rest q eq_refl Hch).
    simpl in IH. destruct IH as (H1 & H2 & H3).
    repeat split; auto. rewrite H2, <- app_assoc. reflexivity.
Qed.
End StoreLemmas.

(** C2, as amended.  For a session of at most 100 effective commands
    applied through [apply], from any state of the store: undoing as many
    times as there are commands restores the plan the session started from,
    and redoing as many times then restores the plan the session ended
    with.  The bound is the cap of the undo stack. *)
Theorem undo_redo_round_trip_within_cap :
  forall cmds st st',
    Store.all_effective cmds st = true ->
    Store.run cmds st = Some st' ->
    (List.length cmds <= 100)%nat ->
    let n := List.length cmds in
    Store.plan (Store.iterate n Store.undo st') = Store.plan st /\
    Store.plan (Store.iterate n Store.redo (Store.iterate n Store.undo st'))
      = Store.plan st'.
Proof.
  intros cmds st st' Hall Hrun Hcap. cbv zeta.
  destruct (run_all_effective _ _ Hall) as (st2 & Hrun2 & Hch & Hlen & Hundo & Hredo).
  rewrite Hrun in Hrun2. injection Hrun2 as <-.
  destruct cmds as [| x cmds'].
  - simpl in *. injection Hrun as ->. auto.
  - remember (x :: cmds') as cmds eqn:E.
    assert (Hne : cmds <> []) by (subst cmds; discriminate).
    assert (Hrs : Store.records_of cmds st <> []).
    { intros Hnil. rewrite Hnil in Hlen. destruct cmds; [ congruence | discriminate ]. }
    rewrite push_all_slice in Hundo by assumption.
    rewrite slice_last_app in Hundo by lia.
    pose proof (undo_iterate _ _ _ _ Hundo Hch) as Hu.
    cbv zeta in Hu. rewrite Hlen in Hu. destruct Hu as (Hp & Hu & Hr).
    rewrite (Hredo Hne) in Hr.
    split; [ exact Hp | ].
    rewrite <- Hp in Hch.
    pose proof (redo_iterate _ _ _ _ Hr Hch) as Hre.
    cbv zeta in Hre. rewrite Hlen in Hre. tauto.
Qed.

(** C5.  From an empty undo stack, after 150 effective commands the undo
    stack holds exactly 100 records, and they are the records of the last
    100 commands in the order the commands were applied, the newest last:
    the first 50 records are gone. *)
Theorem history_bound_150 :
  forall cmds st,
    undo_stack (Store.history st) = [] ->
    Store.all_effective cmds st = true ->
    List.length cmds = 150%nat ->
    exists st',
      Store.run cmds st = Some st' /\
      List.length (Store.records_of cmds st) = 150%nat /\
      List.length (undo_stack (Store.history st')) = 100%nat /\
      undo_stack (Store.history st') = skipn 50 (Store.records_of cmds st).
Proof.
  intros cmds st Hempty Hall Hlen.
  destruct (run_all_effective _ _ Hall) as (st' & Hrun & Hch & Hl & Hundo & Hredo).
  exists st'. rewrite Hlen in Hl.
  assert (Hrs : Store.records_of cmds st <> []).
  { intros Hnil. rewrite Hnil in Hl. discriminate. }
  rewrite push_all_slice, Hempty in Hundo by assumption. rewrite app_nil_l in Hundo.
  unfold Store.slice_last in Hundo. rewrite Hl in Hundo.
  change (150 - 100)%nat with 50%nat in Hundo.
  repeat split; auto.
  rewrite Hundo, length_skipn, Hl. reflexivity.
Qed.

(** ** Clamping *)

(** Comparisons of the model against the order of the rationals. *)
Lemma leb_le a b : leb a b = true <-> (this a <= this b)%Q.
Proof. unfold leb. apply Qle_bool_iff. Qed.

Lemma leb_gt a b : leb a b = false <-> (this b < this a)%Q.
Proof.
  unfold leb. rewrite <- not_true_iff_false, Qle_bool_iff.
  split; [ apply Qnot_le_lt | apply Qlt_not_le ].
Qed.

Lemma ltb_lt a b : ltb a b = true <-> (this a < this b)%Q.
Proof. unfold ltb. rewrite negb_true_iff. apply leb_gt. Qed.

Lemma ltb_ge a b : ltb a b = false <-> (this b <= this a)%Q.
Proof. unfold ltb. rewrite negb_false_iff. apply leb_le. Qed.

(** Unfold the arithmetic of the model down to [Q], where [lra] decides. *)
Ltac to_Q :=
  unfold clamp, Math_max, Math_min, MIN_SIZE, zero, one, of_nat, of_Z, lit, add,
         sub, mul, Qcle, Qclt, Qcminus, Qcplus, Qcmult, Qcopp in *;
  cbn [this Q2Qc] in *;
  rewrite ?Qred_correct in *;
  unfold inject_Z in *.

Ltac split_leb :=
  repeat match goal with
         | |- context [leb ?a ?b] =>
             let E := fresh "E" in
             destruct (leb a b) eqn:E;
             [ apply leb_le in E | apply leb_gt in E ]
         | H : context [leb ?a ?b] |- _ =>
             let E := fresh "E" in
             destruct (leb a b) eqn:E;
             [ apply leb_le in E | apply leb_gt in E ]
         end.









Section ListFacts.

Lemma in_mapi_from {A B} (f : nat -> A -> B) l :
  forall s b, In b (mapi_from s f l) -> exists k a, In a l /\ b = f k a.
Proof.
  induction l as [| x l IH]; simpl; intros s b; [ tauto | ].
  intros [<- | H]; [ exists s, x; auto | ].
  destruct (IH _ _ H) as (k & a & H1 & H2). exists k, a; auto.
Qed.

Lemma in_filter_map {A B} (f : A -> option B) l b :
  In b (filter_map f l) -> exists a, In a l /\ f a = Some b.
Proof.
  induction l as [| x l IH]; simpl; [ tauto | ].
  destruct (f x) eqn:E.
  - intros [<- | H]; [ exists x; auto | ].
    destruct (IH H) as (a & H1 & H2); exists a; auto.
  - intros H. destruct (IH H) as (a & H1 & H2); exists a; auto.
Qed.
End ListFacts.














(** What rounding does to the far edge.  On a canvas 7.3 wide, a room
    1.4 wide moved far to the right is put at 5.9, and a room wider than
    the canvas placed at 1.4 is cut to 5.9: in both the far edge is
    computed as 7.300000000000001, beyond the canvas, while the comparison
    the clamp made holds.  On a canvas 12 wide the last of 15 partitions
    of a full-width room ends at 12.000000000000002. *)
Lemma far_edge_examples :
  let moved := Double.moveRect Double.narrow_room Double.far_right Double.canvas_7_3 in
  let cut :=
    Double.constrainRectToBounds Double.wide_room Double.canvas_7_3 Double.MIN_SIZE in
  let parts := Double.splitRectEvenly Double.full_width 15 Vertical in
  (Double.beyond (Double.b_width Double.canvas_7_3) moved = true /\
   Double.holds_origin (Double.b_width Double.canvas_7_3) moved = true) /\
  (Double.beyond (Double.b_width Double.canvas_7_3) cut = true /\
   Double.holds_size (Double.b_width Double.canvas_7_3) cut = true) /\
  existsb (Double.beyond (Double.b_width Double.canvas_12)) parts = true.
Proof. vm_compute. repeat split. Qed.

(** ** Unknown targets *)

Lemma findArea_none_filter plan id :
  findArea plan id = None ->
  filter (fun a => negb (String.eqb (area_id a) id)) (areas plan) = areas plan.
Proof.
  unfold findArea. induction (areas plan) as [| a l IH]; simpl; [ reflexivity | ].
  destruct (String.eqb (area_id a) id); [ discriminate | ].
  intros H. simpl. rewrite IH by assumption. reflexivity.
Qed.

(** The handlers that look their target up return the plan they were given
    when the id is unknown. *)
Lemma unknown_target_is_noop w plan cmd id :
  single_target cmd = Some id ->
  is_delete cmd = false ->
  findArea plan id = None ->
  performCommand w plan cmd = Some (unchanged plan).
Proof.
  intros Ht Hd Hf.
  destruct cmd; try discriminate; simpl in Ht; injection Ht as <-; simpl;
    unfold moveArea, movePolygonArea, resizeArea, setAreaRect, setEllipse,
      setPolygon, setMultiPolygon, renameArea, recolorArea, mirrorArea, divideArea,
      setAreaLabelOffset, setEdgeLabelOffset, setRadiusLabelOffset, clonePlan;
    rewrite Hf; reflexivity.
Qed.

(** Deleting an id the plan does not hold keeps the areas and still stamps
    the plan with the clock. *)
Lemma delete_of_unknown_id_stamps w plan id :
  findArea plan id = None ->
  performCommand w plan (area_delete id) =
    Some (done (set_updatedAt plan (now w 0)) [] "Delete area").
Proof.
  intros Hf. simpl. unfold deleteArea, clonePlan, ensureUpdated.
  rewrite (findArea_none_filter _ _ Hf). destruct plan; reflexivity.
Qed.

(** C1, at the failing input.  The seeded plan holds no area
    [no-such-area]; area/delete of that id keeps the areas and still
    returns a plan whose [meta.updatedAt] is the clock reading, so the
    result differs from the input and the store records the command.
    group/delete of an unknown group does the same. *)
Theorem delete_unknown_id_changes_plan :
  findArea demo_plan "no-such-area" = None /\
  meta_updatedAt (meta demo_plan) = "2024-01-01T00:00:00.000Z" /\
  (exists res,
      performCommand later_platform demo_plan (area_delete "no-such-area")
        = Some res /\
      areas (res_plan res) = areas demo_plan /\
      meta_updatedAt (meta (res_plan res)) = "2024-06-01T12:00:00.000Z" /\
      res_plan res <> demo_plan /\
      Store.effective later_platform (area_delete "no-such-area") demo_state = true) /\
  (exists res,
      performCommand later_platform demo_plan (group_delete "no-such-group")
        = Some res /\
      areaGroups (res_plan res) = areaGroups demo_plan /\
      meta_updatedAt (meta (res_plan res)) = "2024-06-01T12:00:00.000Z" /\
      res_plan res <> demo_plan).
Proof.
  split; [ reflexivity | ]. split; [ reflexivity | ].
  split; eexists; (split; [ reflexivity | ]); simpl;
    repeat split; try reflexivity;
    intros H; apply (f_equal (fun p => meta_updatedAt (meta p))) in H;
    discriminate H.
Qed.

(** ** Division *)

Ltac num_eq := apply Qc_is_canon; vm_compute; reflexivity.

Lemma findArea_id plan id a : findArea plan id = Some a -> area_id a = id.
Proof.
  unfold findArea. intros H. apply find_some in H. destruct H as [_ H].
  apply String.eqb_eq in H. exact H.
Qed.

Lemma findArea_update_first id f l a :
  find (fun x => String.eqb (area_id x) id) l = Some a ->
  area_id (f a) = area_id a ->
  find (fun x => String.eqb (area_id x) id) (update_first id f l) = Some (f a).
Proof.
  intros H Hid. induction l as [| b l IH]; simpl in *; [ discriminate | ].
  destruct (String.eqb (area_id b) id) eqn:E.
  - injection H as ->. simpl. rewrite Hid, E. reflexivity.
  - simpl. rewrite E. apply IH. assumption.
Qed.

Lemma filter_drops_id id l :
  Forall (fun x => area_id x <> id)
         (filter (fun x => negb (String.eqb (area_id x) id)) l).
Proof.
  apply Forall_forall. intros x Hx. apply filter_In in Hx. destruct Hx as [_ Hx].
  apply negb_true_iff, String.eqb_neq in Hx. exact Hx.
Qed.

Lemma split_4x2 rot cr :
  splitRectEvenly (mkRect (of_Z 0) (of_Z 0) (of_Z 4) (of_Z 2) rot cr) 2 Vertical =
  [ mkRect (of_Z 0) (of_Z 0) (of_Z 2) (of_Z 2) None None;
    mkRect (of_Z 2) (of_Z 0) (of_Z 2) (of_Z 2) None None ].
Proof.
  unfold splitRectEvenly, indices. cbn [Z.leb Z.compare Pos.compare Pos.compare_cont].
  change (Z.to_nat 2) with 2%nat. cbn [seq map rect_x rect_y rect_width rect_height].
  f_equal; [ | f_equal ]; f_equal; num_eq.
Qed.

(** C6.  In a plan whose area [id] is the rect [{x:0, y:0, width:4,
    height:2}], area/divide with two partitions and direction vertical
    removes that area and appends two areas with the rects [{0, 0, 2, 2}]
    and [{2, 0, 2, 2}], both with [parentId] equal to [id]. *)
Theorem divide_4x2_vertical :
  forall w plan id a rot cr,
    findArea plan id = Some a ->
    area_shape a = Rect (mkRect (of_Z 0) (of_Z 0) (of_Z 4) (of_Z 2) rot cr) ->
    let piece k (x : Z) (suffix : string) :=
      mkArea (randomUUID w k) (trim_end (area_name a) ^^ " " ^^ suffix)
             (area_fill a) (area_stroke a) (area_strokeWidth a)
             (Rect (mkRect (of_Z x) (of_Z 0) (of_Z 2) (of_Z 2) None None))
             (Some id) None None None in
    let kept := filter (fun x => negb (String.eqb (area_id x) id)) (areas plan) in
    exists res,
      performCommand w plan
        (area_divide {| dv_id := id; dv_partitions := 2;
                        dv_direction := Some Vertical |}) = Some res /\
      areas (res_plan res) = kept ++ [piece 0%nat 0%Z "A"; piece 1%nat 2%Z "B"] /\
      Forall (fun x => area_id x <> id) kept /\
      ~ In a (areas (res_plan res)) /\
      res_selection res = Some (mkSelection [randomUUID w 0; randomUUID w 1]).
Proof.
  intros w plan id a rot cr Hfind Hshape piece kept.
  pose proof (findArea_id _ _ _ Hfind) as Hid.
  eexists. split.
  - unfold performCommand, divideArea, clonePlan.
    cbn [dv_id dv_partitions dv_direction]. rewrite Hfind, Hshape.
    cbn [orElse]. change (Z.max 2 2) with 2%Z. rewrite split_4x2. reflexivity.
  - cbn [res_plan res_selection done ensureUpdated set_updatedAt set_areas areas].
    split; [ | split; [ apply filter_drops_id | split; [ | ] ] ].
    + unfold mapi, mapi_from, piece, kept. rewrite Hid. reflexivity.
    + intros Hin. apply in_app_or in Hin. destruct Hin as [Hin | Hin].
      * apply filter_In in Hin. destruct Hin as [_ Hin].
        rewrite Hid, String.eqb_refl in Hin. discriminate.
      * unfold mapi, mapi_from in Hin.
        destruct Hin as [Hin | [Hin | []]]; rewrite <- Hin in Hshape;
          apply (f_equal (fun s => match s with
                                   | Rect r => this (rect_width r)
                                   | _ => 0%Q
                                   end)) in Hshape;
          discriminate Hshape.
    + reflexivity.
Qed.

(** ** Overlap *)

Lemma map_shape_mapi (f : nat -> RectShape -> Area) l :
  (forall k r, area_shape (f k r) = Rect r) ->
  forall s, map area_shape (mapi_from s f l) = map Rect l.
Proof.
  intros Hf. induction l as [| r l IH]; intros s; simpl; [ reflexivity | ].
  rewrite Hf, IH. reflexivity.
Qed.

Lemma constrain_fixpoint r c :
  rect_within c r ->
  (MIN_SIZE <= rect_width r)%num -> (MIN_SIZE <= rect_height r)%num ->
  constrainRectToBounds r (canvas_bounds c) MIN_SIZE = r.
Proof.
  intros (Hx & Hxw & Hy & Hyh) Hw Hh.
  unfold constrainRectToBounds, set_rect_geometry, canvas_bounds; cbn.
  assert (Ex : clamp (rect_x r) zero (Math_max zero (canvas_width c - MIN_SIZE))
               = rect_x r).
  { unfold clamp, Math_max, Math_min. split_leb; try reflexivity;
      apply Qc_is_canon; to_Q; lra. }
  assert (Ey : clamp (rect_y r) zero (Math_max zero (canvas_height c - MIN_SIZE))
               = rect_y r).
  { unfold clamp, Math_max, Math_min. split_leb; try reflexivity;
      apply Qc_is_canon; to_Q; lra. }
  rewrite Ex, Ey.
  assert (Ew : clamp (rect_width r) MIN_SIZE (canvas_width c - rect_x r)
               = rect_width r).
  { unfold clamp, Math_max, Math_min. split_leb; try reflexivity;
      apply Qc_is_canon; to_Q; lra. }
  assert (Eh : clamp (rect_height r) MIN_SIZE (canvas_height c - rect_y r)
               = rect_height r).
  { unfold clamp, Math_max, Math_min. split_leb; try reflexivity;
      apply Qc_is_canon; to_Q; lra. }
  rewrite Ew, Eh. destruct r; reflexivity.
Qed.

(** C8.  Overlap with another rect area does not stop area/set-rect or
    area/create: where the earlier [overlapsAny] test holds, area/set-rect
    still gives its target the payload rect constrained to the canvas
    (the payload rect itself when it already fits), and area/create still
    appends every partition of the constrained rect. *)
Theorem overlap_is_not_a_precondition :
  forall w plan,
    (forall p a r0,
        findArea plan (sr_id p) = Some a ->
        area_shape a = Rect r0 ->
        let placed :=
          constrainRectToBounds (sr_rect p) (canvas_bounds (canvas plan)) MIN_SIZE in
        overlapsAny (Some (area_id a)) placed plan = true ->
        exists res,
          performCommand w plan (area_set_rect p) = Some res /\
          findArea (res_plan res) (sr_id p) = Some (set_shape a (Rect placed)) /\
          res_selection res = Some (mkSelection [sr_id p]) /\
          (rect_within (canvas plan) (sr_rect p) ->
           (MIN_SIZE <= rect_width (sr_rect p))%num ->
           (MIN_SIZE <= rect_height (sr_rect p))%num ->
           placed = sr_rect p)) /\
    (forall p,
        existsb (fun r => overlapsAny None r plan) (created_rects plan p) = true ->
        exists res created,
          performCommand w plan (area_create p) = Some res /\
          areas (res_plan res) = areas plan ++ created /\
          map area_shape created = map Rect (created_rects plan p) /\
          res_selection res = Some (mkSelection (map area_id created))).
Proof.
  intros w plan. split.
  - intros p a r0 Hfind Hshape placed _.
    eexists. split; [ | split; [ | split ] ].
    + unfold performCommand, setAreaRect, clonePlan. rewrite Hfind.
      destruct a; simpl in Hshape; subst. reflexivity.
    + cbn [res_plan done ensureUpdated]. unfold findArea, update_area. simpl.
      apply (findArea_update_first (sr_id p)
               (fun area => set_shape area (Rect placed)) (areas plan) a);
        [ exact Hfind | reflexivity ].
    + reflexivity.
    + intros. apply constrain_fixpoint; assumption.
  - intros p _. eexists. eexists. split; [ | split; [ | split ] ].
    + unfold performCommand, createArea, createAreasFromRect, clonePlan. reflexivity.
    + reflexivity.
    + unfold mapi. apply map_shape_mapi. reflexivity.
    + reflexivity.
Qed.

(** ** Subtraction *)







Lemma find_filter_drop (P : Area -> bool) id l :
  (forall x, area_id x = id -> P x = false) ->
  find (fun x => String.eqb (area_id x) id) (filter P l) = None.
Proof.
  intros HP. induction l as [| b l IH]; simpl; [ reflexivity | ].
  destruct (P b) eqn:Ep; [ | exact IH ].
  simpl. destruct (String.eqb (area_id b) id) eqn:E; [ | exact IH ].
  apply String.eqb_eq in E. rewrite (HP _ E) in Ep. discriminate.
Qed.

Lemma find_update_first_other id id' f l :
  id' <> id ->
  (forall x, area_id (f x) = area_id x) ->
  find (fun x => String.eqb (area_id x) id') (update_first id f l) =
  option_map (fun x => x) (find (fun x => String.eqb (area_id x) id') l).
Proof.
  intros Hne Hf. induction l as [| b l IH]; simpl; [ reflexivity | ].
  destruct (String.eqb (area_id b) id) eqn:E.
  - simpl. rewrite Hf. apply String.eqb_eq in E.
    destruct (String.eqb (area_id b) id') eqn:E'.
    + apply String.eqb_eq in E'. congruence.
    + destruct (find _ l); reflexivity.
  - simpl. destruct (String.eqb (area_id b) id'); [ reflexivity | exact IH ].
Qed.







(** ** Snapping of angles *)

Section FloorFacts.
Local Open Scope Q_scope.

Lemma Qfloor_unique (q : Q) (z : Z) :
  inject_Z z <= q -> q < inject_Z (z + 1) -> Qfloor q = z.
Proof.
  intros Hlo Hhi.
  pose proof (Qfloor_le q) as H1. pose proof (Qlt_floor q) as H2.
  assert (Ha : (Qfloor q < z + 1)%Z).
  { rewrite Zlt_Qlt. lra. }
  assert (Hb : (z < Qfloor q + 1)%Z).
  { rewrite Zlt_Qlt. lra. }
  lia.
Qed.

Lemma qfmod_unique (x m r : Q) (j : Z) :
  0 < m -> 0 <= r -> r < m -> x == r + m * inject_Z j -> qfmod x m == r.
Proof.
  intros Hm Hr0 Hr1 Hx. unfold qfmod.
  assert (Hq : x / m == inject_Z j + r / m).
  { rewrite Hx. field. lra. }
  assert (Hrm0 : 0 <= r / m) by (apply Qle_shift_div_l; lra).
  assert (Hrm1 : r / m < 1) by (apply Qlt_shift_div_r; lra).
  rewrite (Qfloor_unique (x / m) j).
  - rewrite Hx. ring.
  - rewrite Hq. lra.
  - rewrite Hq, inject_Z_plus. change (inject_Z 1) with 1. lra.
Qed.

Lemma qfmod_range (x m : Q) : 0 < m -> 0 <= qfmod x m /\ qfmod x m < m.
Proof.
  intros Hm. unfold qfmod.
  pose proof (Qfloor_le (x / m)) as H1. pose proof (Qlt_floor (x / m)) as H2.
  rewrite inject_Z_plus in H2. change (inject_Z 1) with 1 in H2.
  set (k := inject_Z (Qfloor (x / m))) in *.
  assert (Hx : x == x / m * m) by (field; lra).
  set (q := x / m) in *.
  split.
  - assert (m * k <= m * q) by (apply Qmult_le_l; lra). rewrite Hx at 1. lra.
  - assert (m * q < m * (k + 1)) by (apply Qmult_lt_l; lra). rewrite Hx at 1. lra.
Qed.

Lemma Qfloor_Qeq (p q : Q) : p == q -> Qfloor p = Qfloor q.
Proof.
  intros E. apply Qfloor_unique.
  - rewrite E. apply Qfloor_le.
  - rewrite E. apply Qlt_floor.
Qed.

Lemma qfmod_Qeq (x x' m m' : Q) :
  x == x' -> m == m' -> ~ m == 0 -> qfmod x m == qfmod x' m'.
Proof.
  intros Ex Em Hm. unfold qfmod.
  rewrite (Qfloor_Qeq (x / m) (x' / m')) by (rewrite Ex, Em; reflexivity).
  rewrite Ex, Em. reflexivity.
Qed.

(** The quantity the snapping loop computes from the remainder of
    [angle - s + 540] is the distance around the circle. *)
Lemma abs_shifted_is_circular (y : Q) :
  let rho := qfmod y 360 in
  let d := qfmod (y - 540) 360 in
  Qabs (rho - 180) == (if Qle_bool d (360 - d) then d else 360 - d).
Proof.
  intros rho d.
  destruct (qfmod_range y 360 ltac:(lra)) as [Hr0 Hr1]. fold rho in Hr0, Hr1.
  set (k := Qfloor (y / 360)).
  assert (Hy : y == rho + 360 * inject_Z k) by (unfold rho, qfmod, k; ring).
  destruct (Qlt_le_dec rho 180) as [Hlt | Hge].
  - assert (Hd : d == rho + 180).
    { unfold d. apply (qfmod_unique _ _ _ (k - 2)); try lra.
      unfold Z.sub. rewrite inject_Z_plus. change (inject_Z (- (2))) with (-2).
      rewrite Hy. ring. }
    rewrite Qabs_neg by lra.
    destruct (Qle_bool d (360 - d)) eqn:E.
    + apply Qle_bool_iff in E. lra.
    + lra.
  - assert (Hd : d == rho - 180).
    { unfold d. apply (qfmod_unique _ _ _ (k - 1)); try lra.
      unfold Z.sub. rewrite inject_Z_plus. change (inject_Z (- (1))) with (-1).
      rewrite Hy. ring. }
    rewrite Qabs_pos by lra.
    destruct (Qle_bool d (360 - d)) eqn:E.
    + lra.
    + apply not_true_iff_false in E. rewrite Qle_bool_iff in E. lra.
Qed.
End FloorFacts.

Section SnapAngle.

Lemma this_div (a b : num) : (this (a / b)%num == this a / this b)%Q.
Proof.
  unfold div, Qcdiv, Qcinv, Qcmult. cbn [this Q2Qc].
  rewrite !Qred_correct. reflexivity.
Qed.

Lemma this_fmod (x m : num) :
  (this (fmod x m) == qfmod (this x) (this m))%Q.
Proof.
  unfold fmod, qfmod. to_Q. ring.
Qed.

Lemma truncate_nonneg (q : num) : (0 <= this q)%Q -> truncate q = Qfloor (this q).
Proof.
  unfold truncate, Qfloor. destruct (this q) as [n d]. cbn [Qnum Qden].
  unfold Qle. cbn [Qnum Qden]. intros H. apply Z.quot_div_nonneg; lia.
Qed.

Lemma this_rem_nonneg (a b : num) :
  (0 <= this a)%Q -> (0 < this b)%Q ->
  (this (rem a b) == qfmod (this a) (this b))%Q.
Proof.
  intros Ha Hb. unfold rem, qfmod.
  rewrite truncate_nonneg.
  - to_Q. rewrite this_div. ring.
  - rewrite this_div. apply Qle_shift_div_l; lra.
Qed.

Lemma snap_delta_is_circ_dist (angle s : num) :
  (of_Z (-540) <= angle - s)%num ->
  snap_delta angle s = circ_dist angle s.
Proof.
  intros H. apply Qc_is_canon. unfold snap_delta, circ_dist, Math_abs, Math_min, leb.
  cbn [this Qcabs].
  set (y := (angle - s + of_Z 540)%num).
  assert (Hy0 : (0 <= this y)%Q) by (unfold y; to_Q; lra).
  assert (Hsub : (this (rem y (of_Z 360) - of_Z 180)%num
                  == qfmod (this y) 360 - 180)%Q).
  { unfold sub at 1. unfold Qcminus, Qcplus, Qcopp. cbn [this Q2Qc].
    rewrite !Qred_correct, this_rem_nonneg by (try assumption; reflexivity).
    reflexivity. }
  rewrite Hsub, abs_shifted_is_circular.
  assert (Hd : (this (fmod (angle - s)%num (of_Z 360))
                == qfmod (this y - 540) 360)%Q).
  { rewrite this_fmod. apply qfmod_Qeq; [ unfold y; to_Q; ring | reflexivity | ].
    intros E. discriminate E. }
  assert (Hd' : (this (of_Z 360 - fmod (angle - s)%num (of_Z 360))%num
                 == 360 - qfmod (this y - 540) 360)%Q).
  { unfold sub at 1. unfold Qcminus, Qcplus, Qcopp. cbn [this Q2Qc].
    rewrite !Qred_correct, Hd. reflexivity. }
  set (d := qfmod (this y - 540) 360) in *.
  set (D := fmod (angle - s)%num (of_Z 360)) in *.
  destruct (Qle_bool D (of_Z 360 - D)%num) eqn:E1;
    destruct (Qle_bool d (360 - d)) eqn:E2;
    try (rewrite Hd; reflexivity); try (rewrite Hd'; reflexivity).
  - apply Qle_bool_iff in E1. apply not_true_iff_false in E2.
    rewrite Qle_bool_iff in E2. rewrite Hd, Hd' in E1. contradiction.
  - apply Qle_bool_iff in E2. apply not_true_iff_false in E1.
    rewrite Qle_bool_iff in E1. rewrite Hd, Hd' in E1. contradiction.
Qed.

Lemma circ_dist_le_180 (a b : num) : (circ_dist a b <= of_Z 180)%num.
Proof.
  unfold circ_dist.
  pose proof (this_fmod (a - b)%num (of_Z 360)) as Hf.
  destruct (qfmod_range (this (a - b)%num) (this (of_Z 360)) eq_refl) as [H0 H1].
  rewrite <- Hf in H0, H1.
  set (d := fmod (a - b)%num (of_Z 360)) in *.
  change (this (of_Z 360)) with 360%Q in H1.
  unfold Math_min. split_leb; to_Q; lra.
Qed.
End SnapAngle.

Section SnapLoop.
Variable d : num -> num.

(** The loop keeps the first entry whose distance is strictly below
    every distance seen before it, the initial bound included. *)
Lemma snap_loop_first_min l :
  forall best bound,
    let r :=
      fold_left
        (fun '(best, bestDelta) s =>
           let delta := d s in
           if (delta <? bestDelta)%num then (s, delta) else (best, bestDelta))
        l (best, bound) in
    (forall s, In s l -> (snd r <= d s)%num) /\
    (r = (best, bound) \/
     (snd r < bound)%num /\ snd r = d (fst r) /\
     exists before after,
       l = before ++ fst r :: after /\
       Forall (fun s => (d (fst r) < d s)%num) before /\
       Forall (fun s => (d (fst r) <= d s)%num) after).
Proof.
  induction l as [| x l IH]; intros best bound; simpl.
  - split; [ intros s [] | left; reflexivity ].
  - destruct (ltb (d x) bound) eqn:E.
    + apply ltb_lt in E.
      specialize (IH x (d x)). cbv zeta in IH.
      set (r := fold_left _ l (x, d x)) in *.
      destruct IH as [Hall Hcase].
      assert (Hrx : (snd r <= d x)%num).
      { destruct Hcase as [-> | (Hlt & _)]; simpl; unfold Qcle, Qclt in *; lra. }
      split.
      * intros s [<- | Hs]; [ exact Hrx | apply Hall, Hs ].
      * right. split; [ unfold Qcle, Qclt in *; lra | ].
        destruct Hcase as [Hr | (Hlt & Heq & b & a & Hl & Hb & Ha)].
        -- rewrite Hr. simpl. split; [ reflexivity | ].
           exists [], l. split; [ reflexivity | ]. split; [ constructor | ].
           apply Forall_forall. intros s Hs. specialize (Hall s Hs).
           rewrite Hr in Hall. exact Hall.
        -- split; [ exact Heq | ].
           exists (x :: b), a. split; [ simpl; rewrite <- Hl; reflexivity | ].
           split; [ | exact Ha ].
           constructor; [ | exact Hb ]. rewrite <- Heq. exact Hlt.
    + apply ltb_ge in E.
      specialize (IH best bound). cbv zeta in IH.
      set (r := fold_left _ l (best, bound)) in *.
      destruct IH as [Hall Hcase].
      assert (Hrb : (snd r <= bound)%num).
      { destruct Hcase as [-> | (Hlt & _)]; simpl; unfold Qcle, Qclt in *; lra. }
      split.
      * intros s [<- | Hs]; [ unfold Qcle in *; lra | apply Hall, Hs ].
      * destruct Hcase as [Hr | (Hlt & Heq & b & a & Hl & Hb & Ha)];
          [ left; exact Hr | right ].
        split; [ exact Hlt | ]. split; [ exact Heq | ].
        exists (x :: b), a. split; [ simpl; rewrite <- Hl; reflexivity | ].
        split; [ | exact Ha ].
        constructor; [ | exact Hb ]. rewrite <- Heq. unfold Qcle, Qclt in *. lra.
Qed.
End SnapLoop.

Lemma snaps_range s : In s snaps -> (s <= of_Z 315)%num.
Proof.
  unfold snaps. simpl.
  intros H. repeat (destruct H as [<- | H]; [ vm_compute; discriminate | ]).
  destruct H.
Qed.

Lemma first_nearest_is_nearest set angle r :
  first_nearest_in set angle r -> nearest_in set angle r.
Proof.
  intros (b & a & Hset & Hb & Ha). split.
  - rewrite Hset. apply in_elt.
  - intros s Hs. rewrite Hset in Hs. apply in_app_or in Hs.
    destruct Hs as [Hs | [<- | Hs]].
    + rewrite Forall_forall in Hb. specialize (Hb s Hs). unfold Qcle, Qclt in *. lra.
    + unfold Qcle. lra.
    + rewrite Forall_forall in Ha. exact (Ha s Hs).
Qed.

(** C7, as amended.  For an angle of -225 degrees or more on which the
    arithmetic is exact (a whole multiple of [2^-20] degrees, of at most
    [2^32] degrees), [snapAngle(angle, true)] is the first entry of the
    list 0, 15, 30, 45, 90, 135, 180, 225, 270, 315 at minimal circular
    distance from the angle; and [snapAngle(angle, false)] is the angle,
    for any angle. *)
Theorem snapAngle_first_nearest_snap :
  forall angle,
    snapAngle angle false = angle /\
    (exact_angle angle ->
     (of_Z (-225) <= angle)%num ->
     first_nearest_in snaps angle (snapAngle angle true) /\
     nearest_in snaps angle (snapAngle angle true)).
Proof.
  intros angle. split; [ reflexivity | ]. intros _ Hangle.
  assert (Hd : forall s, In s snaps -> snap_delta angle s = circ_dist angle s).
  { intros s Hs. apply snap_delta_is_circ_dist.
    pose proof (snaps_range s Hs) as Hr. to_Q. lra. }
  assert (Hfirst : first_nearest_in snaps angle (snapAngle angle true)).
  { unfold snapAngle. cbn [negb]. cbv zeta.
    pose proof (snap_loop_first_min (snap_delta angle) snaps angle (of_Z 360)) as H.
    cbv zeta in H.
    match type of H with
    | context [fold_left ?f snaps ?i] => set (r := fold_left f snaps i) in *
    end.
    destruct H as [Hall Hcase].
    destruct Hcase as [Hr | (Hlt & Heq & b & a & Hl & Hb & Ha)].
    - exfalso. specialize (Hall (of_Z 0) (or_introl eq_refl)).
      rewrite Hr, Hd in Hall by (left; reflexivity). simpl in Hall.
      pose proof (circ_dist_le_180 angle (of_Z 0)) as H180.
      revert Hall H180. generalize (circ_dist angle (of_Z 0)). intros c.
      unfold Qcle. change (this (of_Z 360)) with 360%Q.
      change (this (of_Z 180)) with 180%Q. lra.
    - exists b, a. split; [ exact Hl | ].
      assert (Hin : In (fst r) snaps) by (rewrite Hl; apply in_elt).
      split; apply Forall_forall; intros s Hs.
      + rewrite <- (Hd (fst r)), <- (Hd s) by (auto; rewrite Hl; apply in_or_app; auto).
        rewrite Forall_forall in Hb. exact (Hb s Hs).
      + rewrite <- (Hd (fst r)), <- (Hd s)
          by (auto; rewrite Hl; apply in_or_app; right; right; auto).
        rewrite Forall_forall in Ha. exact (Ha s Hs). }
  split; [ exact Hfirst | apply first_nearest_is_nearest, Hfirst ].
Qed.

(** C7, refuted as stated.  At 60 degrees the result is not a nearest
    multiple of 15 (it is 45, and 60 is a multiple of 15); at -1000
    degrees it is not even a nearest entry of the list of snaps (it is 270,
    and 90 is nearer); and at 7.500000000000001 degrees, the double
    8444249301319681 * 2^-50, the script returns 0 although 15 is nearer:
    both distances are computed as 7.5, and the earlier entry stays. *)
Lemma snapAngle_counterexample :
  ~ nearest_in multiples15 (of_Z 60) (snapAngle (of_Z 60) true) /\
  ~ nearest_in snaps (of_Z (-1000)) (snapAngle (of_Z (-1000)) true) /\
  (FloatOps.Prim2SF Double.near_tie
     = SpecFloat.S754_finite false 8444249301319681 (-50) /\
   Double.snapAngle Double.near_tie true = Double.of_Z 0 /\
   Double.snap_delta Double.near_tie (Double.of_Z 15)
     = Double.snap_delta Double.near_tie (Double.of_Z 0) /\
   let angle := lit 8444249301319681 (2 ^ 50) in
   (circ_dist angle (of_Z 15) < circ_dist angle (of_Z 0))%num).
Proof.
  split; [ | split ].
  - intros [_ Hmin].
    assert (Hin : In (of_Z 60) multiples15).
    { unfold multiples15. simpl. do 4 right. left. reflexivity. }
    specialize (Hmin _ Hin). vm_compute in Hmin. apply Hmin. reflexivity.
  - intros [_ Hmin].
    assert (Hin : In (of_Z 90) snaps).
    { unfold snaps. simpl. do 4 right. left. reflexivity. }
    specialize (Hmin _ Hin). vm_compute in Hmin. apply Hmin. reflexivity.
  - vm_compute. repeat split.
Qed.

(** ** Export and import *)

Section RoundTrip.

Lemma stringify_clean v : clean v = true -> exists t ts,
    JSON_stringify v = Some (t :: ts) /\ starts_value t = true.
Proof.
  destruct v as [| | [|] | n | s | items | props | k]; simpl; intros H;
    try discriminate; eauto.
Qed.

Lemma parse_value_step fuel t ts :
  starts_value t = true ->
  (forall r, t :: ts <> TLBracket :: TRBracket :: r) ->
  (forall r, t :: ts <> TLBrace :: TRBrace :: r) ->
  parse_value (S fuel) (t :: ts) =
    match t with
    | TNull => Some (JNull, ts)
    | TTrue => Some (JBool true, ts)
    | TFalse => Some (JBool false, ts)
    | TNumber n => Some (JNum n, ts)
    | TString s => Some (JStr s, ts)
    | TLBracket => parse_elements fuel ts []
    | TLBrace => parse_members fuel ts []
    | _ => None
    end.
Proof.
  intros Hs H1 H2. destruct t; try discriminate; try reflexivity.
  - destruct ts as [| [] ts']; try reflexivity. exfalso. eapply H2. reflexivity.
  - destruct ts as [| [] ts']; try reflexivity. exfalso. eapply H1. reflexivity.
Qed.

Lemma parse_elements_printed items :
  Forall parses items ->
  forallb clean items = true ->
  items <> [] ->
  forall acc fuel rest,
    (List.length (print_elems (fun x => orElse (JSON_stringify x) [TNull]) items)
     < fuel)%nat ->
    parse_elements fuel
      (print_elems (fun x => orElse (JSON_stringify x) [TNull]) items ++ rest) acc
    = Some (JArr (acc ++ items), rest).
Proof.
  induction 1 as [| x r Hx Hr IH]; intros Hclean Hne acc fuel rest Hfuel;
    [ congruence | ].
  simpl in Hclean. apply andb_prop in Hclean. destruct Hclean as [Hcx Hcr].
  destruct (stringify_clean x Hcx) as (t & ts & Hs & _).
  cbn [print_elems] in *. rewrite Hs in *. cbn [orElse] in *.
  destruct fuel as [| fuel]; [ lia | ]. cbn [parse_elements].
  rewrite <- app_assoc.
  rewrite length_app in Hfuel.
  destruct r as [| y r']; cbn [List.length] in Hfuel.
  all: rewrite (Hx Hcx _ Hs) by (cbn [List.length]; lia).
  - reflexivity.
  - cbn [app]. rewrite IH; try assumption; try discriminate.
    + rewrite <- app_assoc. reflexivity.
    + lia.
Qed.

Lemma assign_fresh {A} key (v : A) acc :
  existsb (String.eqb key) (map fst acc) = false ->
  assign key v acc = acc ++ [(key, v)].
Proof.
  induction acc as [| [k x] acc IH]; simpl; [ reflexivity | ].
  intros H. apply orb_false_iff in H. destruct H as [Hk Hrest].
  rewrite String.eqb_sym, Hk, IH by assumption. reflexivity.
Qed.

Lemma print_members_false props :
  forallb (fun kv => clean (snd kv)) props = true ->
  props <> [] ->
  print_members JSON_stringify props false =
  TComma :: print_members JSON_stringify props true.
Proof.
  destruct props as [| [k x] r]; [ congruence | ]. intros Hc _.
  simpl in Hc. apply andb_prop in Hc. destruct Hc as [Hx _].
  destruct (stringify_clean x Hx) as (t & ts & Hs & _).
  cbn [print_members]. rewrite Hs. reflexivity.
Qed.

Lemma distinct_app_cons keys k rest :
  distinct (keys ++ k :: rest) = true ->
  existsb (String.eqb k) keys = false /\ distinct ((keys ++ [k]) ++ rest) = true.
Proof.
  intros H. split.
  - induction keys as [| k0 keys IH]; simpl in *; [ reflexivity | ].
    apply andb_prop in H. destruct H as [H0 H1].
    rewrite (IH H1), orb_false_r.
    apply negb_true_iff in H0. rewrite existsb_app in H0.
    apply orb_false_iff in H0. destruct H0 as [_ H0]. simpl in H0.
    apply orb_false_iff in H0. destruct H0 as [H0 _].
    rewrite String.eqb_sym. exact H0.
  - rewrite <- app_assoc. exact H.
Qed.

Lemma parse_members_printed props :
  Forall (fun kv => parses (snd kv)) props ->
  forallb (fun kv => clean (snd kv)) props = true ->
  props <> [] ->
  forall acc fuel rest,
    distinct (map fst acc ++ map fst props) = true ->
    (List.length (print_members JSON_stringify props true) < fuel)%nat ->
    parse_members fuel (print_members JSON_stringify props true ++ rest) acc
    = Some (JObj (acc ++ props), rest).
Proof.
  induction 1 as [| [k x] r Hx Hr IH]; intros Hclean Hne acc fuel rest Hd Hfuel;
    [ congruence | ].
  simpl in Hclean. apply andb_prop in Hclean. destruct Hclean as [Hcx Hcr].
  simpl in Hx. destruct (stringify_clean x Hcx) as (t & ts & Hs & _).
  cbn [map fst] in Hd. apply distinct_app_cons in Hd. destruct Hd as [Hfresh Hd].
  cbn [print_members] in *. rewrite Hs in *. cbn [app] in *.
  destruct fuel as [| fuel]; [ simpl in Hfuel; lia | ]. cbn [parse_members].
  cbn [List.length] in Hfuel. rewrite length_app in Hfuel.
  rewrite <- app_assoc.
  destruct r as [| kv r'].
  - cbn [print_members List.length] in *. rewrite app_comm_cons.
    rewrite (Hx Hcx _ Hs) by (cbn [List.length]; lia).
    rewrite (assign_fresh _ _ _ Hfresh). reflexivity.
  - rewrite print_members_false in * by (assumption || discriminate).
    cbn [List.length] in Hfuel. rewrite app_comm_cons.
    rewrite (Hx Hcx _ Hs) by (cbn [List.length]; lia).
    rewrite (assign_fresh _ _ _ Hfresh).
    cbn [app]. rewrite IH; try assumption; try discriminate.
    + rewrite <- app_assoc. reflexivity.
    + rewrite map_app. exact Hd.
    + lia.
Qed.

Lemma parse_value_printed v : parses v.
Proof.
  induction v as [| | b | n | s | items IH | props IH | k] using jsval_nested_ind;
    intros Hclean toks Hs fuel rest Hfuel;
    (destruct fuel as [| fuel]; [ lia | ]).
  - discriminate.
  - injection Hs as <-. reflexivity.
  - destruct b; injection Hs as <-; reflexivity.
  - injection Hs as <-. reflexivity.
  - injection Hs as <-. reflexivity.
  - injection Hs as <-. destruct items as [| x r]; [ reflexivity | ].
    cbn [clean] in Hclean. pose proof Hclean as Hc.
    cbn [forallb] in Hc. apply andb_prop in Hc. destruct Hc as [Hcx _].
    destruct (stringify_clean x Hcx) as (t & ts & Hsx & Hst).
    cbn [List.length] in Hfuel.
    pose proof (parse_elements_printed (x :: r) IH Hclean ltac:(discriminate)
                  [] fuel rest ltac:(lia)) as Hp.
    cbn [app]. cbn [print_elems] in *. rewrite Hsx in *. cbn [orElse app] in *.
    destruct t; try discriminate Hst; exact Hp.
  - injection Hs as <-. destruct props as [| [k x] r]; [ reflexivity | ].
    cbn [clean] in Hclean. apply andb_prop in Hclean.
    destruct Hclean as [Hd Hc]. pose proof Hc as Hc'.
    cbn [forallb snd] in Hc'. apply andb_prop in Hc'. destruct Hc' as [Hcx _].
    destruct (stringify_clean x Hcx) as (t & ts & Hsx & Hst).
    cbn [List.length] in Hfuel.
    pose proof (parse_members_printed ((k, x) :: r) IH Hc ltac:(discriminate)
                  [] fuel rest Hd ltac:(lia)) as Hp.
    cbn [app]. cbn [print_members] in *. rewrite Hsx in *. cbn [app] in *.
    exact Hp.
  - discriminate.
Qed.

(** Parsing the text of a clean value gives the value back. *)
Lemma JSON_round_trip v toks :
  clean v = true -> JSON_stringify v = Some toks -> JSON_parse toks = Some v.
Proof.
  intros Hc Hs. unfold JSON_parse.
  pose proof (parse_value_printed v Hc toks Hs (S (List.length toks)) []
                ltac:(lia)) as H.
  rewrite app_nil_r in H. rewrite H. reflexivity.
Qed.
End RoundTrip.

Section Reading.










End Reading.

Section Clean.










End Clean.

Lemma token_eqb_eq a b : token_eqb a b = true <-> a = b.
Proof.
  destruct a, b; simpl; split; intros H; try discriminate H; try reflexivity.
  - apply Qeq_bool_iff in H. f_equal. apply Qc_is_canon. exact H.
  - injection H as ->. apply Qeq_bool_iff. reflexivity.
  - apply String.eqb_eq in H. congruence.
  - injection H as ->. apply String.eqb_refl.
Qed.

Lemma text_eqb_eq a : forall b, text_eqb a b = true <-> a = b.
Proof.
  induction a as [| x a IH]; intros [| y b]; simpl;
    try (split; [ discriminate | discriminate ]); [ tauto | ].
  rewrite andb_true_iff, token_eqb_eq, IH. split.
  - intros [-> ->]. reflexivity.
  - intros H. injection H as -> ->. auto.
Qed.


(** ** Lists of numbers *)

Section MinMax.

Lemma Math_min_le (a b : num) : (Math_min a b <= a)%num /\ (Math_min a b <= b)%num.
Proof. unfold Math_min. split; split_leb; to_Q; lra. Qed.

Lemma Math_max_ge (a b : num) : (a <= Math_max a b)%num /\ (b <= Math_max a b)%num.
Proof. unfold Math_max. split; split_leb; to_Q; lra. Qed.

Lemma fold_min_spec xs :
  forall v,
    let m := fold_left Math_min xs v in
    (m <= v)%num /\ Forall (fun x => (m <= x)%num) xs /\ (m = v \/ In m xs).
Proof.
  induction xs as [ | x xs IH ]; intros v; cbn.
  - repeat split; [ apply Qcle_refl | constructor | now left ].
  - destruct (IH (Math_min v x)) as (H1 & H2 & H3).
    destruct (Math_min_le v x) as [Hv Hx].
    repeat split.
    + eapply Qcle_trans; eassumption.
    + constructor; [ eapply Qcle_trans; eassumption | assumption ].
    + destruct H3 as [H3 | H3]; [ | now right; right ].
      rewrite H3. unfold Math_min. destruct (v <=? x)%num; [ now left | right; now left ].
Qed.

Lemma fold_max_spec xs :
  forall v,
    let m := fold_left Math_max xs v in
    (v <= m)%num /\ Forall (fun x => (x <= m)%num) xs /\ (m = v \/ In m xs).
Proof.
  induction xs as [ | x xs IH ]; intros v; cbn.
  - repeat split; [ apply Qcle_refl | constructor | now left ].
  - destruct (IH (Math_max v x)) as (H1 & H2 & H3).
    destruct (Math_max_ge v x) as [Hv Hx].
    repeat split.
    + eapply Qcle_trans; eassumption.
    + constructor; [ eapply Qcle_trans; eassumption | assumption ].
    + destruct H3 as [H3 | H3]; [ | now right; right ].
      rewrite H3. unfold Math_max. destruct (v <=? x)%num; [ right; now left | now left ].
Qed.

Lemma min_list_spec xs m :
  Math_min_list xs = Some m <->
  In m xs /\ Forall (fun x => (m <= x)%num) xs.
Proof.
  destruct xs as [ | v xs ]; cbn.
  - split; [ discriminate | intros [[] _] ].
  - destruct (fold_min_spec xs v) as (H1 & H2 & H3). split.
    + intros [= <-]. split; [ destruct H3; [ left; congruence | now right ] | ].
      constructor; assumption.
    + intros [Hin Hall]. f_equal. apply Qcle_antisym.
      * destruct Hin as [<- | Hin]; [ assumption | ].
        rewrite Forall_forall in H2. now apply H2.
      * rewrite Forall_forall in Hall.
        destruct H3 as [-> | H3]; [ apply Hall; now left | apply Hall; now right ].
Qed.

Lemma max_list_spec xs m :
  Math_max_list xs = Some m <->
  In m xs /\ Forall (fun x => (x <= m)%num) xs.
Proof.
  destruct xs as [ | v xs ]; cbn.
  - split; [ discriminate | intros [[] _] ].
  - destruct (fold_max_spec xs v) as (H1 & H2 & H3). split.
    + intros [= <-]. split; [ destruct H3; [ left; congruence | now right ] | ].
      constructor; assumption.
    + intros [Hin Hall]. f_equal. apply Qcle_antisym.
      * rewrite Forall_forall in Hall.
        destruct H3 as [-> | H3]; [ apply Hall; now left | apply Hall; now right ].
      * destruct Hin as [<- | Hin]; [ assumption | ].
        rewrite Forall_forall in H2. now apply H2.
Qed.

End MinMax.

(** ** Bounding boxes *)

(** X1.  A polygon or multipolygon with a point, outlines and holes
    together, has a bounding box; no point of the shape is left of or
    above its corner or further from the corner than the box is wide and
    high; and the shape has a point on the left and on the top side, and a
    point as far from the corner as the box is wide, and one as far as it
    is high. *)
Theorem bounding_box_contains_every_point :
  forall shape,
    is_polygonal shape = true ->
    shape_all_points shape <> [] ->
    exists b,
      shapeBoundingBox shape = Some b /\
      (forall p, In p (shape_all_points shape) -> in_box b p) /\
      (exists left right top bottom,
          In left (shape_all_points shape) /\ px left = bb_x b /\
          In right (shape_all_points shape) /\
          (px right - bb_x b)%num = bb_width b /\
          In top (shape_all_points shape) /\ py top = bb_y b /\
          In bottom (shape_all_points shape) /\
          (py bottom - bb_y b)%num = bb_height b).
Proof.
  intros shape Hkind Hpts.
  assert (Hbox :
    shapeBoundingBox shape =
    match Math_min_list (map px (shape_all_points shape)),
          Math_max_list (map px (shape_all_points shape)),
          Math_min_list (map py (shape_all_points shape)),
          Math_max_list (map py (shape_all_points shape)) with
    | Some minX, Some maxX, Some minY, Some maxY =>
        Some (mkBBox minX minY (maxX - minX) (maxY - minY))
    | _, _, _, _ => None
    end) by (destruct shape; try discriminate Hkind; reflexivity).
  rewrite Hbox. clear Hbox Hkind. revert Hpts.
  generalize (shape_all_points shape). intros pts Hpts.
  destruct pts as [ | p0 pts ]; [ contradiction | ]. clear Hpts.
  set (all := p0 :: pts).
  destruct (Math_min_list (map px all)) as [minX | ] eqn:EminX; [ | discriminate ].
  destruct (Math_max_list (map px all)) as [maxX | ] eqn:EmaxX; [ | discriminate ].
  destruct (Math_min_list (map py all)) as [minY | ] eqn:EminY; [ | discriminate ].
  destruct (Math_max_list (map py all)) as [maxY | ] eqn:EmaxY; [ | discriminate ].
  apply min_list_spec in EminX, EminY. apply max_list_spec in EmaxX, EmaxY.
  destruct EminX as [IminX AminX], EminY as [IminY AminY],
           EmaxX as [ImaxX AmaxX], EmaxY as [ImaxY AmaxY].
  eexists. split; [ reflexivity | ]. cbn [bb_x bb_y bb_width bb_height]. split.
  - intros p Hp. unfold in_box; cbn [bb_x bb_y bb_width bb_height].
    rewrite Forall_forall in AminX, AminY, AmaxX, AmaxY.
    pose proof (AminX _ (in_map px _ _ Hp)) as H1.
    pose proof (AmaxX _ (in_map px _ _ Hp)) as H2.
    pose proof (AminY _ (in_map py _ _ Hp)) as H3.
    pose proof (AmaxY _ (in_map py _ _ Hp)) as H4.
    repeat split; to_Q; lra.
  - apply in_map_iff in IminX, IminY, ImaxX, ImaxY.
    destruct IminX as (l & El & Hl), ImaxX as (r & Er & Hr),
             IminY as (t & Et & Ht), ImaxY as (bt & Eb & Hb).
    exists l, r, t, bt. rewrite Er, Eb. auto 10.
Qed.

(** ** Sizes and anchored edges of a resize *)

(** X2.  With the default minimum size [MIN_SIZE], on bounds between
    [MIN_SIZE] and [2^50] wide and high, neither [applyRectResize] nor
    [constrainRectToBounds] returns a rect narrower or lower than
    [MIN_SIZE], whatever rect, handle and delta they are given. *)
Theorem resize_and_constrain_keep_min_size :
  forall r h d b,
    (MIN_SIZE <= b_width b <= of_Z (2 ^ 50))%num ->
    (MIN_SIZE <= b_height b <= of_Z (2 ^ 50))%num ->
    let resized := applyRectResize r h d b MIN_SIZE in
    let constrained := constrainRectToBounds r b MIN_SIZE in
    (MIN_SIZE <= rect_width resized)%num /\ (MIN_SIZE <= rect_height resized)%num /\
    (MIN_SIZE <= rect_width constrained)%num /\
    (MIN_SIZE <= rect_height constrained)%num.
Proof.
  intros r h d b [Hw _] [Hh _]. unfold applyRectResize, constrainRectToBounds; cbn.
  destruct (if handle_includes_w h then _ else _) as [x1 w1].
  destruct (if handle_includes_n h then _ else _) as [y1 h1].
  cbn. repeat split; unfold clamp, Math_max, Math_min; split_leb; to_Q; lra.
Qed.

Lemma clamp_inside (value lo hi : num) :
  (lo <= value)%num -> (value <= hi)%num -> clamp value lo hi = value.
Proof.
  intros H1 H2. apply Qc_is_canon. unfold clamp, Math_max, Math_min.
  split_leb; to_Q; lra.
Qed.

Lemma axis_untouched (x w W min : num) :
  (zero <= x)%num -> (x <= W - w)%num -> (min <= w)%num ->
  Math_max min (Math_min w W) = w /\ clamp x zero (W - w) = x.
Proof.
  intros H1 H2 H3. split.
  - apply Qc_is_canon. unfold Math_max, Math_min. split_leb; to_Q; lra.
  - apply clamp_inside; to_Q; lra.
Qed.

(** X3.  For a rect held on the canvas by its origin and at least [min]
    wide and high, a resize moves only the axis its handle names: a
    north or south handle leaves [x] and the width as they are, an east or
    west handle leaves [y] and the height; rotation and corner radius are
    always kept. *)
Theorem resize_moves_only_the_dragged_axis :
  forall r h d c (min : num),
    origin_clamped c r ->
    (min <= rect_width r)%num -> (min <= rect_height r)%num ->
    let r' := applyRectResize r h d (canvas_bounds c) min in
    (handle_includes_e h = false -> handle_includes_w h = false ->
     rect_x r' = rect_x r /\ rect_width r' = rect_width r) /\
    (handle_includes_n h = false -> handle_includes_s h = false ->
     rect_y r' = rect_y r /\ rect_height r' = rect_height r) /\
    rect_rotation r' = rect_rotation r /\
    rect_cornerRadius r' = rect_cornerRadius r.
Proof.
  intros r h d c min (Hx & Hxw & Hy & Hyh) Hw Hh.
  destruct (axis_untouched _ _ _ _ Hx Hxw Hw) as [X0 X0'].
  destruct (axis_untouched _ _ _ _ Hy Hyh Hh) as [Y0 Y0'].
  unfold applyRectResize, canvas_bounds, set_rect_geometry.
  destruct h; cbn [handle_includes_e handle_includes_w handle_includes_n
                   handle_includes_s b_width b_height rect_x rect_y rect_width
                   rect_height rect_rotation rect_cornerRadius];
    rewrite ?X0, ?Y0, ?X0', ?Y0';
    repeat split; try reflexivity; try discriminate.
Qed.

(** ** Partitions of a rect *)

Lemma split_length r count dir :
  List.length (splitRectEvenly r count dir) = Z.to_nat (Z.max 1 count).
Proof.
  unfold splitRectEvenly, indices.
  destruct (count <=? 1)%Z eqn:E.
  - apply Z.leb_le in E. rewrite Z.max_l by assumption. reflexivity.
  - apply Z.leb_gt in E. rewrite Z.max_r by lia.
    destruct dir; now rewrite length_map, length_seq.
Qed.

(** ** Rects from two corners, ellipses and their boxes *)

(** X6.  [rectFromPoints] does not depend on the order of its two
    corners, its rect has no negative size, and both corners lie in it as
    a box: neither is left of or above its origin, or further from the
    origin than the rect is wide and high. *)
Theorem rectFromPoints_spans_both_points :
  forall a b,
    let r := rectFromPoints a b in
    rectFromPoints b a = r /\
    (zero <= rect_width r)%num /\ (zero <= rect_height r)%num /\
    in_box (rect_box r) a /\ in_box (rect_box r) b.
Proof.
  intros a b r. subst r. unfold rectFromPoints, in_box, rect_box; cbn.
  assert (Habs : forall u v : num,
             Math_abs (u - v) = Math_abs (v - u) /\
             (zero <= Math_abs (u - v))%num /\
             (Math_min u v <= u)%num /\ (Math_min u v <= v)%num /\
             (u - Math_min u v <= Math_abs (u - v))%num /\
             (v - Math_min u v <= Math_abs (u - v))%num /\
             Math_min u v = Math_min v u).
  { intros u v.
    assert (E : Math_abs (u - v) = Math_abs (v - u)) by apply Qcabs_Qcminus.
    split; [ exact E | ].
    assert (H0 : (zero <= Math_abs (u - v))%num) by apply Qcabs_nonneg.
    split; [ exact H0 | ].
    assert (H1 : (u - v <= Math_abs (u - v))%num) by apply Qcle_Qcabs.
    assert (H2 : (v - u <= Math_abs (u - v))%num) by (rewrite E; apply Qcle_Qcabs).
    clear E. revert H0 H1 H2. generalize (Math_abs (u - v)). intros m H0 H1 H2.
    split; [ | split; [ | split; [ | split ] ] ];
      try (unfold Math_min; split_leb; to_Q; lra).
    apply Qc_is_canon. unfold Math_min. split_leb; try reflexivity;
      to_Q; apply Qle_antisym; lra. }
  destruct (Habs (px a) (px b)) as (X1 & X2 & X3 & X4 & X5 & X6 & X7).
  destruct (Habs (py a) (py b)) as (Y1 & Y2 & Y3 & Y4 & Y5 & Y6 & Y7).
  split; [ | split; [ exact X2 | split; [ exact Y2 | split ] ] ].
  - rewrite X1, Y1, X7, Y7. reflexivity.
  - auto.
  - auto.
Qed.

(** X8.  An ellipse dragged the way the canvas drags it, through
    [ellipseToRect], [moveRect] and [rectToEllipse], keeps its radii, and
    it never ends left of or above the bounds: [cx - rx] and [cy - ry]
    are not negative. *)
Theorem dragged_ellipse_keeps_radii_and_origin :
  forall e d b,
    let e' := rectToEllipse (moveRect (ellipseToRect e) d b) in
    ell_rx e' = ell_rx e /\ ell_ry e' = ell_ry e /\
    (zero <= ell_cx e' - ell_rx e')%num /\ (zero <= ell_cy e' - ell_ry e')%num.
Proof.
  intros e d b e'. subst e'.
  unfold rectToEllipse, moveRect, ellipseToRect; cbn.
  assert (Hc : forall v hi : num, (zero <= clamp v zero (Math_max zero hi))%num).
  { intros v hi. unfold clamp, Math_max, Math_min. split_leb; to_Q; lra. }
  pose proof (Hc (ell_cx e - ell_rx e + dx d)%num
                 (b_width b - ell_rx e * of_Z 2)%num) as Px.
  pose proof (Hc (ell_cy e - ell_ry e + dy d)%num
                 (b_height b - ell_ry e * of_Z 2)%num) as Py.
  revert Px Py.
  generalize (clamp (ell_cx e - ell_rx e + dx d) zero
                    (Math_max zero (b_width b - ell_rx e * of_Z 2))).
  generalize (clamp (ell_cy e - ell_ry e + dy d) zero
                    (Math_max zero (b_height b - ell_ry e * of_Z 2))).
  intros y x Px Py.
  assert (Ex : (ell_rx e * of_Z 2 / of_Z 2)%num = ell_rx e).
  { apply Qc_is_canon. unfold div, Qcdiv, Qcinv. to_Q. field. }
  assert (Ey : (ell_ry e * of_Z 2 / of_Z 2)%num = ell_ry e).
  { apply Qc_is_canon. unfold div, Qcdiv, Qcinv. to_Q. field. }
  rewrite Ex, Ey. repeat split; to_Q; lra.
Qed.

(** ** Areas *)

Lemma polygonArea_cross_sum points :
  polygonArea points =
  if (List.length points <? 3)%nat then zero
  else (Math_abs (cross_sum (combine points (cyclic_next points)) zero) / of_Z 2)%num.
Proof. reflexivity. Qed.

Lemma polygonArea_nonneg points : (zero <= polygonArea points)%num.
Proof.
  rewrite polygonArea_cross_sum. destruct (List.length points <? 3)%nat.
  - apply Qcle_refl.
  - pose proof (Qcabs_nonneg (cross_sum (combine points (cyclic_next points)) zero)) as H.
    unfold Math_abs. revert H.
    generalize (Qcabs (cross_sum (combine points (cyclic_next points)) zero)).
    intros m H.
    replace (m / of_Z 2)%num with (m * lit 1 2)%num
      by (apply Qc_is_canon; unfold div, Qcdiv, Qcinv; to_Q; field).
    to_Q. lra.
Qed.

(** X9.  [shapeArea] is never negative, for any shape. *)
Theorem shapeArea_is_never_negative :
  forall shape, (zero <= shapeArea shape)%num.
Proof.
  intros [ r | e | p | mp ]; cbn [shapeArea].
  - apply Qcabs_nonneg.
  - apply Qcabs_nonneg.
  - unfold polygonAreaWithHoles. apply Math_max_ge.
  - enough (Hfold : forall (l : list (nat * Ring)) acc,
              (zero <= acc)%num ->
              (zero <=
               fold_left
                 (fun acc '(idx, poly) =>
                    (acc + polygonAreaWithHoles poly
                             (orElse (match mp_holes mp with
                                      | Some hs => nth_error hs idx
                                      | None => None
                                      end) []))%num)
                 l acc)%num)
      by (apply Hfold; apply Qcle_refl).
    induction l as [ | [idx poly] l IH ]; intros acc H; [ exact H | ].
    cbn [fold_left]. apply IH.
    match goal with
    | |- context [polygonAreaWithHoles ?a ?b] =>
        assert (Hp : (zero <= polygonAreaWithHoles a b)%num)
          by (unfold polygonAreaWithHoles; apply Math_max_ge);
        revert Hp; generalize (polygonAreaWithHoles a b)
    end.
    intros v Hv. to_Q. lra.
Qed.

(** ** Dragging a polygon *)

Lemma translate_in points d q :
  In q (translatePolygon points d) <->
  exists p, In p points /\ q = mkPoint (px p + dx d) (py p + dy d).
Proof.
  unfold translatePolygon. rewrite in_map_iff.
  split; intros (p & H1 & H2); exists p; auto.
Qed.

(** The adjustment along one axis. *)
Lemma axis_adjustment (vs : list num) (limit delta : num) :
  let shifted := map (fun v => v + delta)%num vs in
  let adjusted :=
    (delta
     + match Math_min_list shifted with
       | Some v => if (v <? zero)%num then zero - v else zero
       | None => zero
       end
     + match Math_max_list shifted with
       | Some v => if (limit <? v)%num then limit - v else zero
       | None => zero
       end)%num in
  ((forall v, In v vs -> (zero <= v + delta)%num /\ (v + delta <= limit)%num) ->
   adjusted = delta) /\
  ((forall u v, In u vs -> In v vs -> (u - v <= limit)%num) ->
   forall v, In v vs -> (zero <= v + adjusted)%num /\ (v + adjusted <= limit)%num).
Proof.
  intros shifted adjusted. subst adjusted.
  destruct vs as [ | v0 vs ].
  - cbn. split; [ intros _; apply Qc_is_canon; to_Q; ring | intros _ v [] ].
  - set (all := v0 :: vs) in *.
    destruct (Math_min_list shifted) as [lo | ] eqn:Elo; [ | discriminate ].
    destruct (Math_max_list shifted) as [hi | ] eqn:Ehi; [ | discriminate ].
    apply min_list_spec in Elo. apply max_list_spec in Ehi.
    destruct Elo as [Ilo Alo], Ehi as [Ihi Ahi].
    rewrite Forall_forall in Alo, Ahi. subst shifted.
    apply in_map_iff in Ilo, Ihi.
    destruct Ilo as (ulo & Elo & Hlo), Ihi as (uhi & Ehi & Hhi).
    assert (Hall : forall v, In v all -> (lo <= v + delta)%num /\ (v + delta <= hi)%num).
    { intros v Hv. split; [ apply Alo | apply Ahi ];
        apply in_map_iff; exists v; auto. }
    clear Alo Ahi. split.
    + intros Hin. destruct (Hin _ Hlo) as [H1 _]. destruct (Hin _ Hhi) as [_ H2].
      unfold add in Elo, Ehi. rewrite Elo in H1. rewrite Ehi in H2.
      apply Qc_is_canon.
      clear Hin Hall.
      destruct (lo <? zero)%num eqn:E1;
        [ exfalso; apply ltb_lt in E1; to_Q; lra | ].
      destruct (limit <? hi)%num eqn:E2.
      exfalso; apply ltb_lt in E2; to_Q; lra.
      to_Q. ring.
    + intros Hfit v Hv. destruct (Hall v Hv) as [H1 H2].
      pose proof (Hfit _ _ Hhi Hlo) as Hext.
      assert (Qlo : (this lo == this ulo + this delta)%Q)
        by (rewrite <- Elo; cbn [add Qcplus this Q2Qc]; apply Qred_correct).
      assert (Qhi : (this hi == this uhi + this delta)%Q)
        by (rewrite <- Ehi; cbn [add Qcplus this Q2Qc]; apply Qred_correct).
      clear Elo Ehi Hall Hfit.
      destruct (lo <? zero)%num eqn:E1;
        [ apply ltb_lt in E1 | apply ltb_ge in E1 ];
        (destruct (limit <? hi)%num eqn:E2;
         [ apply ltb_lt in E2 | apply ltb_ge in E2 ]);
        unfold add, sub in *; to_Q; split; lra.
Qed.

(** The adjusted delta is the delta given when the moved polygon lies
    within the bounds; in exact arithmetic, the polygon moved by the
    adjusted delta lies within the bounds whenever it is no larger than
    they are. *)
Lemma clamped_drag :
  forall points b d,
    let d' := clampDeltaForPolygon points b d in
    (ring_within b (translatePolygon points d) -> d' = d) /\
    (ring_fits b points -> ring_within b (translatePolygon points d')).
Proof.
  intros points b d d'.
  destruct (axis_adjustment (map px points) (b_width b) (dx d)) as [Xsame Xfit].
  destruct (axis_adjustment (map py points) (b_height b) (dy d)) as [Ysame Yfit].
  rewrite map_map in Xsame, Xfit, Ysame, Yfit.
  split.
  - intros Hin. subst d'. unfold clampDeltaForPolygon.
    rewrite Xsame, Ysame; [ destruct d; reflexivity | | ];
      intros v Hv; apply in_map_iff in Hv; destruct Hv as (p & <- & Hp);
      destruct (Hin (mkPoint (px p + dx d) (py p + dy d))) as (H1 & H2 & H3 & H4);
      try (apply translate_in; exists p; auto); cbn in *; auto.
  - intros Hfit q Hq. apply translate_in in Hq. destruct Hq as (p & Hp & ->).
    cbn [px py]. subst d'. unfold clampDeltaForPolygon. cbn [dx dy].
    destruct (Xfit) with (v := px p) as [H1 H2].
    { intros u v Hu Hv. apply in_map_iff in Hu, Hv.
      destruct Hu as (pu & <- & Hu), Hv as (pv & <- & Hv).
      apply (Hfit pu pv Hu Hv). }
    { now apply in_map. }
    destruct (Yfit) with (v := py p) as [H3 H4].
    { intros u v Hu Hv. apply in_map_iff in Hu, Hv.
      destruct Hu as (pu & <- & Hu), Hv as (pv & <- & Hv).
      apply (Hfit pu pv Hu Hv). }
    { now apply in_map. }
    auto.
Qed.

(** X11.  [clampDeltaForPolygon] returns the delta it is given when the
    polygon moved by that delta lies within the bounds, and so does
    [clampDeltaForMultiPolygon] when every outline and every hole moved
    by the delta lies within the bounds: a drag that stays on the canvas
    is not adjusted. *)
Theorem drag_within_bounds_is_not_adjusted :
  forall points polygons holes b d,
    let all := List.concat polygons ++ List.concat (List.concat holes) in
    (ring_within b (translatePolygon points d) ->
     clampDeltaForPolygon points b d = d) /\
    (ring_within b (translatePolygon all d) ->
     clampDeltaForMultiPolygon polygons b d holes = d).
Proof.
  intros points polygons holes b d all.
  destruct (clamped_drag points b d) as [Hsame _].
  destruct (clamped_drag all b d) as [Hall _].
  split; [ exact Hsame | exact Hall ].
Qed.

(** ** Snapping to the grid *)

Lemma this_round_arg (value grid : num) :
  (this (value / grid + lit 1 2)%num == this value / this grid + (1 # 2))%Q.
Proof.
  unfold add, lit. cbn [Qcplus this Q2Qc]. rewrite !Qred_correct, this_div.
  reflexivity.
Qed.

Lemma this_of_Z_mul (k : Z) (g : num) :
  (this (of_Z k * g)%num == inject_Z k * this g)%Q.
Proof.
  unfold mul, of_Z. cbn [Qcmult this Q2Qc]. rewrite !Qred_correct. reflexivity.
Qed.

(** In exact arithmetic, for any positive grid step: [snapValue] returns
    an integer multiple of the step, at most half a step away from the
    value, and it returns a multiple of the step unchanged. *)
Lemma snapValue_nearest :
  forall value grid,
    (zero < grid)%num ->
    exists k : Z,
      snapValue value grid = (of_Z k * grid)%num /\
      (Math_abs (snapValue value grid - value) <= grid / of_Z 2)%num /\
      (forall j : Z, value = (of_Z j * grid)%num -> snapValue value grid = value).
Proof.
  intros value grid Hg.
  assert (Hg' : (0 < this grid)%Q) by (to_Q; lra).
  assert (Hg0 : ~ (this grid == 0)%Q) by lra.
  exists (Qfloor (this (value / grid + lit 1 2)%num)).
  split; [ reflexivity | ].
  unfold snapValue, Math_round. split.
  - pose proof (Qfloor_le (this (value / grid + lit 1 2)%num)) as Hlo.
    pose proof (Qlt_floor (this (value / grid + lit 1 2)%num)) as Hhi.
    rewrite inject_Z_plus in Hhi. change (inject_Z 1) with 1%Q in Hhi.
    set (k := Qfloor (this (value / grid + lit 1 2)%num)) in *. clearbody k.
    rewrite this_round_arg in Hlo, Hhi.
    unfold Math_abs. apply Qcabs_Qcle_condition.
    assert (Hq : (this value / this grid * this grid == this value)%Q)
      by (field; exact Hg0).
    set (q := (this value / this grid)%Q) in *. clearbody q.
    assert (Hhalf : (this (grid / of_Z 2)%num == this grid * (1 # 2))%Q).
    { rewrite this_div. unfold of_Z. cbn [this Q2Qc]. rewrite Qred_correct.
      unfold inject_Z. field. }
    pose proof (this_of_Z_mul k grid) as Hk.
    unfold Qcle, sub, Qcminus, Qcplus, Qcopp. cbn [this Q2Qc].
    rewrite !Qred_correct, Hhalf, Hk. clear Hhalf Hk Hg Hg0.
    revert Hlo Hhi Hq Hg'. generalize (inject_Z k) (this value) (this grid).
    intros kq v g Hlo Hhi Hq Hg. split; nra.
  - intros j Hj.
    assert (Hv : (this value == inject_Z j * this grid)%Q)
      by (rewrite Hj; apply this_of_Z_mul).
    assert (Hk : Qfloor (this (value / grid + lit 1 2)%num) = j).
    { apply Qfloor_unique; rewrite this_round_arg, Hv;
        [ | rewrite inject_Z_plus; change (inject_Z 1) with 1%Q ];
        setoid_replace (inject_Z j * this grid / this grid)%Q with (inject_Z j)
          by (field; exact Hg0); lra. }
    rewrite Hk. symmetry. exact Hj.
Qed.

Lemma binary_step_positive g : binary_step g -> (zero < g)%num.
Proof.
  intros (n & _ & [-> | ->]).
  - assert (H : (0 < 2 ^ Z.of_nat n)%Z) by (apply Z.pow_pos_nonneg; lia).
    revert H. generalize (2 ^ Z.of_nat n)%Z. intros z H.
    unfold Qclt, zero, of_Z. cbn [this Q2Qc]. rewrite !Qred_correct.
    change 0%Q with (inject_Z 0). rewrite <- Zlt_Qlt. exact H.
  - assert (H : (0 < 2 ^ Z.of_nat n)%Z) by (apply Z.pow_pos_nonneg; lia).
    revert H. generalize (2 ^ Z.of_nat n)%Z. intros z H.
    unfold Qclt. rewrite this_div. unfold zero, one, of_Z. cbn [this Q2Qc].
    rewrite !Qred_correct.
    assert (Hz : (0 < inject_Z z)%Q)
      by (change 0%Q with (inject_Z 0); rewrite <- Zlt_Qlt; exact H).
    apply Qlt_shift_div_l; [ exact Hz | ]. unfold inject_Z. lra.
Qed.

(** X12.  For a grid step that is a power of two between [2^-20] and
    [2^20], such as the default 0.25, and a value of magnitude [2^50] at
    most, [snapValue] returns an integer multiple of the step, at most
    half a step away from the value, and it returns a value that is
    already a multiple of the step unchanged. *)
Theorem snapValue_on_a_binary_grid :
  forall value grid,
    binary_step grid ->
    (Math_abs value <= of_Z (2 ^ 50))%num ->
    exists k : Z,
      snapValue value grid = (of_Z k * grid)%num /\
      (Math_abs (snapValue value grid - value) <= grid / of_Z 2)%num /\
      (forall j : Z, value = (of_Z j * grid)%num -> snapValue value grid = value).
Proof.
  intros value grid Hg _.
  apply snapValue_nearest, binary_step_positive, Hg.
Qed.



(** ** Names *)

Section Decimal.

Lemma digits_of_uint d : all_digits (NilEmpty.string_of_uint d) = true.
Proof. induction d; cbn; auto. Qed.

Lemma to_uint_nonnil n : N.to_uint n <> Decimal.Nil.
Proof.
  destruct n as [ | p ]; [ discriminate | apply DecimalPos.Unsigned.to_uint_nonnil ].
Qed.

Lemma decimal_NilEmpty n : decimal n = NilEmpty.string_of_uint (N.to_uint n).
Proof.
  unfold decimal, NilZero.string_of_uint.
  pose proof (to_uint_nonnil n) as H. destruct (N.to_uint n); congruence.
Qed.

Lemma decimal_digits n :
  all_digits (decimal n) = true /\
  exists c rest, decimal n = String c rest /\ is_digit c = true.
Proof.
  rewrite decimal_NilEmpty. split; [ apply digits_of_uint | ].
  pose proof (to_uint_nonnil n) as H. pose proof (digits_of_uint (N.to_uint n)) as Hd.
  destruct (N.to_uint n); try congruence; cbn; eauto.
Qed.

Lemma parseInt_decimal n : parseInt (decimal n) = n.
Proof.
  unfold parseInt. rewrite decimal_NilEmpty, NilEmpty.usu.
  apply DecimalN.Unsigned.of_to.
Qed.

Lemma decimal_inj n m : decimal n = decimal m -> n = m.
Proof. intros H. rewrite <- (parseInt_decimal n), H. apply parseInt_decimal. Qed.

Lemma take_all_digits s : all_digits s = true -> take_digits s = s.
Proof.
  induction s as [ | c s IH ]; [ reflexivity | ]. cbn.
  intros H. apply andb_true_iff in H. destruct H as [-> H]. now rewrite IH.
Qed.

Lemma match_digits_default n :
  match_digits ("Area " ^^ decimal n) = Some (decimal n).
Proof.
  destruct (decimal_digits n) as (Hall & c & rest & E & Hc).
  rewrite E in *. cbn. rewrite Hc. f_equal.
  cbn in Hall. rewrite Hc in Hall. cbn in Hall.
  now rewrite take_all_digits.
Qed.

End Decimal.

Lemma nextAreaIndex_above plan a digits :
  In a (areas plan) ->
  match_digits (area_name a) = Some digits ->
  (parseInt digits < nextAreaIndex plan)%N.
Proof.
  unfold nextAreaIndex. intros Hin Hm.
  enough (H : forall l acc,
             (acc <= fold_left
                       (fun acc area =>
                          match match_digits (area_name area) with
                          | None => acc
                          | Some digits => N.max acc (parseInt digits)
                          end) l acc)%N /\
             (In a l ->
              (parseInt digits <=
               fold_left
                 (fun acc area =>
                    match match_digits (area_name area) with
                    | None => acc
                    | Some digits => N.max acc (parseInt digits)
                    end) l acc)%N)).
  { destruct (H (areas plan) 0%N) as [_ H']. specialize (H' Hin). lia. }
  induction l as [ | b l IH ]; intros acc; cbn [fold_left].
  - split; [ lia | intros [] ].
  - set (acc' := match match_digits (area_name b) with
                 | None => acc
                 | Some d => N.max acc (parseInt d)
                 end).
    destruct (IH acc') as [H1 H2].
    assert (Hacc : (acc <= acc')%N).
    { subst acc'. destruct (match_digits (area_name b)); lia. }
    split; [ lia | ].
    intros [-> | Hl]; [ | auto ].
    assert (Hd : (parseInt digits <= acc')%N) by (subst acc'; rewrite Hm; lia).
    lia.
Qed.

(** X14.  In a plan whose names hold no number of [2^53] or more, the
    name [defaultAreaName] proposes is the name of no area of the plan. *)
Theorem default_area_name_is_unused :
  forall plan,
    indices_counted plan ->
    Forall (fun a => area_name a <> defaultAreaName plan) (areas plan).
Proof.
  intros plan _. apply Forall_forall. intros a Hin E.
  unfold defaultAreaName in E.
  pose proof (nextAreaIndex_above plan a (decimal (nextAreaIndex plan)) Hin) as H.
  rewrite E, match_digits_default, parseInt_decimal in H.
  specialize (H eq_refl). lia.
Qed.

Section PartitionNames.

Lemma append_inj_r (p s t : string) : p ^^ s = p ^^ t -> s = t.
Proof. induction p as [ | c p IH ]; cbn; [ auto | intros [= H]; auto ]. Qed.

Lemma get_nth_error s i :
  String.get i s = nth_error (list_ascii_of_string s) i.
Proof.
  revert i. induction s as [ | c s IH ]; intros [ | i ]; cbn; auto.
Qed.

Lemma suffixes_letters :
  NoDup (list_ascii_of_string suffixes) /\
  forallb (fun c => negb (is_digit c)) (list_ascii_of_string suffixes) = true.
Proof.
  split; [ | reflexivity ].
  cbn. repeat (constructor; [ cbn; intuition discriminate | ]). constructor.
Qed.

(** The suffix of the partition at index [idx]. *)
Lemma suffix_inj i j :
  match String.get i suffixes with
  | Some c => String c EmptyString
  | None => decimal (N.of_nat (i + 1))
  end =
  match String.get j suffixes with
  | Some c => String c EmptyString
  | None => decimal (N.of_nat (j + 1))
  end -> i = j.
Proof.
  destruct suffixes_letters as [Hnd Hletters].
  rewrite !get_nth_error.
  destruct (nth_error (list_ascii_of_string suffixes) i) as [ci | ] eqn:Ei;
    destruct (nth_error (list_ascii_of_string suffixes) j) as [cj | ] eqn:Ej.
  - intros [= E]. subst cj.
    apply (proj1 (NoDup_nth_error _) Hnd); [ | congruence ].
    apply nth_error_Some. rewrite Ei. discriminate.
  - intros E. exfalso.
    destruct (decimal_digits (N.of_nat (j + 1))) as (_ & c & rest & Ed & Hc).
    rewrite Ed in E. injection E as -> _.
    apply nth_error_In in Ei.
    rewrite forallb_forall in Hletters. specialize (Hletters _ Ei).
    rewrite Hc in Hletters. discriminate.
  - intros E. exfalso.
    destruct (decimal_digits (N.of_nat (i + 1))) as (_ & c & rest & Ed & Hc).
    rewrite Ed in E. injection E as <- _.
    apply nth_error_In in Ej.
    rewrite forallb_forall in Hletters. specialize (Hletters _ Ej).
    rewrite Hc in Hletters. discriminate.
  - intros E. apply decimal_inj in E. lia.
Qed.

Lemma NoDup_map_injective {A B} (f : A -> B) l :
  (forall x y, f x = f y -> x = y) -> NoDup l -> NoDup (map f l).
Proof.
  intros Hinj. induction 1 as [ | x l Hx Hl IH ]; cbn; constructor; [ | exact IH ].
  intros Hin. apply in_map_iff in Hin. destruct Hin as (y & E & Hy).
  apply Hinj in E. subst y. contradiction.
Qed.

End PartitionNames.

Lemma partitionNames_length base count :
  List.length (partitionNames base count) = Z.to_nat (Z.max 1 count).
Proof.
  unfold partitionNames, indices. destruct (count <=? 1)%Z eqn:E.
  - apply Z.leb_le in E. rewrite Z.max_l by assumption. reflexivity.
  - apply Z.leb_gt in E. rewrite Z.max_r by lia.
    now rewrite length_map, length_seq.
Qed.

Lemma partitionNames_NoDup base count : NoDup (partitionNames base count).
Proof.
  unfold partitionNames. destruct (count <=? 1)%Z.
  - repeat constructor. intros [].
  - apply NoDup_map_injective; [ | apply seq_NoDup ].
    intros i j H. apply append_inj_r, append_inj_r in H. now apply suffix_inj.
Qed.

(** X15.  [partitionNames] gives one name for each piece that
    [splitRectEvenly] makes for the same count, the names are pairwise
    different, and for a count of one or less the one name is the base
    name itself. *)
Theorem partition_names_are_distinct_one_per_piece :
  forall base count r dir,
    let names := partitionNames base count in
    List.length names = List.length (splitRectEvenly r count dir) /\
    List.length names = Z.to_nat (Z.max 1 count) /\
    NoDup names /\
    (count <= 1 -> names = [base])%Z.
Proof.
  intros base count r dir names. subst names.
  rewrite split_length, partitionNames_length.
  split; [ reflexivity | split; [ reflexivity | split ] ].
  - apply partitionNames_NoDup.
  - intros H. unfold partitionNames. apply Z.leb_le in H. now rewrite H.
Qed.

(** ** What a command leaves alone *)

Section Frame.

Lemma frame_set_areas p l : frame (set_areas p l) = frame p.
Proof. reflexivity. Qed.

Lemma frame_update_area p id f : frame (update_area p id f) = frame p.
Proof. reflexivity. Qed.

Lemma frame_ensureUpdated w p : frame (ensureUpdated w p) = frame p.
Proof. reflexivity. Qed.

Lemma frame_moveOne d p id : frame (moveOne d p id) = frame p.
Proof. unfold moveOne. destruct (findArea p id); reflexivity. Qed.

Lemma frame_setOneRect p u : frame (setOneRect p u) = frame p.
Proof. unfold setOneRect. destruct (is_rect_area p (sr_id u)); reflexivity. Qed.

Lemma frame_fold {A} (step : Plan -> A -> Plan) l :
  (forall p a, frame (step p a) = frame p) ->
  forall p, frame (fold_left step l p) = frame p.
Proof.
  intros Hstep. induction l as [ | a l IH ]; intros p; cbn; [ reflexivity | ].
  now rewrite IH, Hstep.
Qed.

Lemma map_update_first {B} (g : Area -> B) id f l :
  (forall a, g (f a) = g a) -> map g (update_first id f l) = map g l.
Proof.
  intros Hg. induction l as [ | a l IH ]; cbn; [ reflexivity | ].
  destruct (String.eqb (area_id a) id); cbn; [ now rewrite Hg | now rewrite IH ].
Qed.

Lemma identity_moveOne d p id :
  map identity_of (areas (moveOne d p id)) = map identity_of (areas p).
Proof.
  unfold moveOne. destruct (findArea p id); [ | reflexivity ].
  cbn. apply map_update_first. reflexivity.
Qed.

Lemma identity_setOneRect p u :
  map identity_of (areas (setOneRect p u)) = map identity_of (areas p).
Proof.
  unfold setOneRect. destruct (is_rect_area p (sr_id u)); [ | reflexivity ].
  cbn. apply map_update_first. reflexivity.
Qed.

Lemma identity_fold {A} (step : Plan -> A -> Plan) l :
  (forall p a, map identity_of (areas (step p a)) = map identity_of (areas p)) ->
  forall p, map identity_of (areas (fold_left step l p)) = map identity_of (areas p).
Proof.
  intros Hstep. induction l as [ | a l IH ]; intros p; cbn; [ reflexivity | ].
  now rewrite IH, Hstep.
Qed.

End Frame.

(** Case analysis on the tests a handler makes. *)
Ltac handler_cases H :=
  repeat match type of H with
         | context [match ?x with _ => _ end] => destruct x eqn:?
         | context [if ?b then _ else _] => destruct b eqn:?
         end.

(** X16.  A command that edits areas where they stand (move, resize,
    set-rect, set-ellipse, set-polygon, rename, recolor, mirror, the
    label offsets and their batch forms) keeps the number and order of
    the areas and the id, stroke, stroke width and parent id of each, and
    it keeps the units, the canvas, the groups, the name and the creation
    time of the plan. *)
Theorem in_place_edits_keep_the_identity_of_areas :
  forall w plan cmd res,
    edits_in_place cmd = true ->
    performCommand w plan cmd = Some res ->
    map identity_of (areas (res_plan res)) = map identity_of (areas plan) /\
    frame (res_plan res) = frame plan.
Proof.
  intros w plan cmd res Hkind H.
  destruct cmd; try discriminate Hkind; cbn in H; clear Hkind;
    unfold moveArea, movePolygonArea, resizeArea, setAreaRect, setEllipse,
      setPolygon, setMultiPolygon, setAreaRectBatch, renameArea, recolorArea,
      mirrorArea, moveMany, setAreaLabelOffset, setEdgeLabelOffset,
      setRadiusLabelOffset, clonePlan, unchanged, done in H;
    handler_cases H; injection H as <-;
    cbn [res_plan ensureUpdated set_updatedAt areas];
    try (split; reflexivity);
    try (split; [ apply map_update_first; reflexivity | reflexivity ]).
  - split.
    + apply (identity_fold setOneRect). apply identity_setOneRect.
    + apply (frame_fold setOneRect). apply frame_setOneRect.
  - split.
    + apply (identity_fold (moveOne _)). apply identity_moveOne.
    + apply (frame_fold (moveOne _)). apply frame_moveOne.
Qed.

Lemma frame_parts p q :
  frame p = frame q ->
  units p = units q /\ canvas p = canvas q /\ areaGroups p = areaGroups q /\
  meta_name (meta p) = meta_name (meta q) /\
  meta_createdAt (meta p) = meta_createdAt (meta q).
Proof. unfold frame. intros [= -> -> -> -> ->]. auto. Qed.

(** X17.  Every command but plan/create and plan/load keeps the units,
    the name and the creation time of the plan; only plan/resize-boundary
    and plan/set-viewport change the canvas, only the group commands
    change the groups, and these five keep the areas; and the plan
    returned is either the plan given or carries the clock reading of the
    run in [meta.updatedAt]. *)
Theorem commands_change_only_their_part_of_the_plan :
  forall w plan cmd res,
    replaces_plan cmd = false ->
    performCommand w plan cmd = Some res ->
    units (res_plan res) = units plan /\
    meta_name (meta (res_plan res)) = meta_name (meta plan) /\
    meta_createdAt (meta (res_plan res)) = meta_createdAt (meta plan) /\
    (sets_canvas cmd = false -> canvas (res_plan res) = canvas plan) /\
    (sets_groups cmd = false -> areaGroups (res_plan res) = areaGroups plan) /\
    (sets_canvas cmd = true \/ sets_groups cmd = true ->
     areas (res_plan res) = areas plan) /\
    (res_plan res = plan \/ meta_updatedAt (meta (res_plan res)) = now w 0).
Proof.
  intros w plan cmd res Hkind H.
  assert (Hframe :
    forall next,
      frame next = frame plan ->
      units (ensureUpdated w next) = units plan /\
      meta_name (meta (ensureUpdated w next)) = meta_name (meta plan) /\
      meta_createdAt (meta (ensureUpdated w next)) = meta_createdAt (meta plan) /\
      (false = false -> canvas (ensureUpdated w next) = canvas plan) /\
      (false = false -> areaGroups (ensureUpdated w next) = areaGroups plan) /\
      (false = true \/ false = true -> areas (ensureUpdated w next) = areas plan) /\
      (ensureUpdated w next = plan \/
       meta_updatedAt (meta (ensureUpdated w next)) = now w 0)).
  { intros next Hf. apply frame_parts in Hf.
    destruct Hf as (H1 & H2 & H3 & H4 & H5). cbn.
    repeat split; auto. intros [ | ]; discriminate. }
  destruct cmd; try discriminate Hkind; cbn in H; clear Hkind;
    cbn [sets_canvas sets_groups];
    unfold updatePlanDimensions, setViewport, createArea, createAreasFromRect,
      createPolygon, createEllipse, pasteAreas,
      moveArea, movePolygonArea, resizeArea, setAreaRect, setEllipse,
      setPolygon, setMultiPolygon, setAreaRectBatch, renameArea, recolorArea,
      deleteArea, mirrorArea, subtractAreas, divideArea, mergeAreas,
      createGroup, removeGroup, setGroupVisibility, convertToPolygon,
      moveMany, setAreaLabelOffset, setEdgeLabelOffset,
      setRadiusLabelOffset, setSelection, clonePlan, unchanged, done in H;
    handler_cases H; try discriminate H; injection H as <-;
    cbn [res_plan];
    try (apply Hframe; reflexivity);
    try (repeat split; auto; fail);
    try (cbn; repeat split; auto; discriminate).
  - apply Hframe. apply (frame_fold setOneRect). apply frame_setOneRect.
  - apply Hframe. apply (frame_fold (moveOne _)). apply frame_moveOne.
Qed.

(** ** Deleting, and targets that do not exist *)

(** X18.  area/delete removes every area with the id and no other: the
    id is no longer found, every other id is found as before, the groups
    are not touched (they keep the id among their members), and the
    selection is emptied. *)
Theorem delete_removes_the_named_areas_only :
  forall w plan id,
    exists res,
      performCommand w plan (area_delete id) = Some res /\
      findArea (res_plan res) id = None /\
      (forall a, In a (areas (res_plan res)) <->
                 In a (areas plan) /\ area_id a <> id) /\
      (forall other, other <> id ->
                     findArea (res_plan res) other = findArea plan other) /\
      areaGroups (res_plan res) = areaGroups plan /\
      res_selection res = Some (mkSelection []).
Proof.
  intros w plan id. eexists. split; [ reflexivity | ].
  cbn [deleteArea res_plan res_selection done ensureUpdated set_updatedAt set_areas
       clonePlan areas areaGroups].
  unfold findArea, clonePlan. cbn [areas].
  split; [ | split; [ | split; [ | split; reflexivity ] ] ].
  - apply find_filter_drop. intros x Hx. rewrite Hx, String.eqb_refl. reflexivity.
  - intros a. rewrite filter_In, negb_true_iff, String.eqb_neq. tauto.
  - intros other Hother.
    induction (areas plan) as [ | a l IH ]; cbn; [ reflexivity | ].
    destruct (String.eqb (area_id a) id) eqn:E; cbn.
    + apply String.eqb_eq in E.
      destruct (String.eqb (area_id a) other) eqn:E'; [ | exact IH ].
      apply String.eqb_eq in E'. congruence.
    + destruct (String.eqb (area_id a) other); [ reflexivity | exact IH ].
Qed.

Lemma resolve_unknown plan ids :
  (forall id, In id ids -> findArea plan id = None) ->
  resolve_targets plan ids = [].
Proof.
  unfold resolve_targets. induction ids as [ | id ids IH ]; intros H; cbn;
    [ reflexivity | ].
  rewrite (H id) by now left. apply IH. intros i Hi. apply H. now right.
Qed.

Lemma fold_moveOne_unknown d ids :
  forall plan,
    (forall id, In id ids -> findArea plan id = None) ->
    fold_left (moveOne d) ids plan = plan.
Proof.
  induction ids as [ | id ids IH ]; intros plan H; cbn; [ reflexivity | ].
  unfold moveOne at 2. rewrite (H id) by now left.
  apply IH. intros i Hi. apply H. now right.
Qed.

Lemma no_rect_among_unknown plan updates :
  (forall id, In id (map sr_id updates) -> findArea plan id = None) ->
  filter (fun u => is_rect_area plan (sr_id u)) updates = [].
Proof.
  induction updates as [ | u updates IH ]; intros H; [ reflexivity | ]. cbn.
  unfold is_rect_area at 1. rewrite (H (sr_id u)) by now left.
  apply IH. intros i Hi. apply H. now right.
Qed.

(** X19.  When none of the ids exists, area/merge, area/subtract and
    area/convert-to-polygon return the plan they were given, while
    area/move-multi and area/set-rect-batch return the same plan with a
    new [meta.updatedAt]. *)
Theorem commands_on_unknown_targets :
  forall w plan ids,
    (forall id, In id ids -> findArea plan id = None) ->
    (forall name fill stroke,
        let payload := {| mg_ids := ids; mg_name := name; mg_fill := fill;
                          mg_stroke := stroke |} in
        performCommand w plan (area_merge payload) = Some (unchanged plan) /\
        performCommand w plan (area_convert_to_polygon payload)
          = Some (unchanged plan)) /\
    performCommand w plan (area_subtract ids) = Some (unchanged plan) /\
    (forall ddx ddy,
        performCommand w plan
          (area_move_multi {| mm_ids := ids; mm_dx := ddx; mm_dy := ddy |})
        = Some (done (ensureUpdated w plan) ids "Move areas")) /\
    (forall updates,
        map sr_id updates = ids ->
        performCommand w plan (area_set_rect_batch updates)
        = Some (done (ensureUpdated w plan) [] "Update areas")).
Proof.
  intros w plan ids Hnone.
  pose proof (resolve_unknown plan ids Hnone) as Hres.
  split; [ | split; [ | split ] ].
  - intros name fill stroke payload. subst payload. cbn.
    unfold mergeAreas, convertToPolygon, clonePlan. cbn [mg_ids]. rewrite Hres.
    split; destruct (_ <? _)%nat; reflexivity.
  - cbn. unfold subtractAreas, clonePlan. rewrite Hres.
    destruct (_ <? _)%nat; reflexivity.
  - intros ddx ddy. cbn. unfold moveMany, clonePlan. cbn [mm_ids mm_dx mm_dy].
    now rewrite fold_moveOne_unknown.
  - intros updates <-. cbn. unfold setAreaRectBatch, clonePlan.
    rewrite (no_rect_among_unknown plan updates Hnone). reflexivity.
Qed.


(** ** Dividing *)

Lemma map_mapi_index {A B C} (h : B -> C) (f : nat -> A -> B) (g : nat -> C) l :
  (forall k a, h (f k a) = g k) ->
  forall s, map h (mapi_from s f l) = map g (seq s (List.length l)).
Proof.
  intros Hf. induction l as [ | a l IH ]; intros s; cbn; [ reflexivity | ].
  now rewrite Hf, IH.
Qed.

Lemma map_nth_all {A} (l : list A) d :
  map (fun i => nth i l d) (seq 0 (List.length l)) = l.
Proof.
  induction l as [ | a l IH ]; cbn; [ reflexivity | ].
  f_equal. rewrite <- seq_shift, map_map. exact IH.
Qed.

(** X21.  area/divide of a rect area replaces it by [max 2 partitions]
    areas appended to the others: their shapes are the pieces of
    [splitRectEvenly], their names are the pairwise different names of
    [partitionNames], their ids are the identifiers drawn in order, each
    has the divided area as parent and its fill and stroke, and they are
    the new selection. *)
Theorem divide_makes_named_parts_of_a_rect :
  forall w plan p a r,
    findArea plan (dv_id p) = Some a ->
    area_shape a = Rect r ->
    let n := Z.max 2 (dv_partitions p) in
    let direction :=
      orElse (dv_direction p)
             (if (rect_height r <=? rect_width r)%num then Vertical else Horizontal) in
    exists res created,
      performCommand w plan (area_divide p) = Some res /\
      areas (res_plan res) =
        filter (fun x => negb (String.eqb (area_id x) (dv_id p))) (areas plan)
        ++ created /\
      map area_shape created = map Rect (splitRectEvenly r n direction) /\
      map area_name created = partitionNames (area_name a) n /\
      NoDup (map area_name created) /\
      map area_id created = map (randomUUID w) (seq 0 (Z.to_nat n)) /\
      (2 <= List.length created)%nat /\
      Forall (fun c => area_parentId c = Some (dv_id p) /\
                       area_fill c = area_fill a /\
                       area_stroke c = area_stroke a /\
                       area_strokeWidth c = area_strokeWidth a) created /\
      res_selection res = Some (mkSelection (map area_id created)).
Proof.
  intros w plan p a r Hfind Hshape n direction.
  pose proof (findArea_id _ _ _ Hfind) as Hid.
  pose proof (partitionNames_length (area_name a) n) as Hn.
  pose proof (partitionNames_NoDup (area_name a) n) as Hnodup.
  pose proof (split_length r n direction) as Hpieces.
  assert (Hmax : Z.max 1 n = n) by (subst n; lia).
  rewrite Hmax in *.
  assert (Hlen : List.length (partitionNames (area_name a) n)
                 = List.length (splitRectEvenly r n direction)) by congruence.
  eexists. eexists. split.
  - unfold performCommand, divideArea, clonePlan. rewrite Hfind, Hshape.
    fold n. fold direction. reflexivity.
  - cbn [res_plan res_selection done ensureUpdated set_updatedAt set_areas areas].
    split; [ reflexivity | ].
    split; [ apply map_shape_mapi; reflexivity | ].
    assert (Hnames :
      map area_name
          (mapi (fun idx r0 =>
                   mkArea (randomUUID w idx)
                          (nth idx (partitionNames (area_name a) n) EmptyString)
                          (area_fill a) (area_stroke a) (area_strokeWidth a)
                          (Rect r0) (Some (area_id a)) None None None)
                (splitRectEvenly r n direction))
      = partitionNames (area_name a) n).
    { unfold mapi.
      rewrite (map_mapi_index area_name _
                 (fun idx => nth idx (partitionNames (area_name a) n) EmptyString))
        by reflexivity.
      rewrite <- Hlen. apply map_nth_all. }
    split; [ exact Hnames | ].
    split; [ rewrite Hnames; exact Hnodup | ].
    split.
    { unfold mapi. rewrite (map_mapi_index area_id _ (randomUUID w)) by reflexivity.
      now rewrite Hpieces. }
    split.
    { unfold mapi.
      assert (Hl : forall (f : nat -> RectShape -> Area) l s,
                 List.length (mapi_from s f l) = List.length l).
      { intros f l. induction l; intros s; cbn; auto. }
      rewrite Hl, Hpieces. subst n. lia. }
    split; [ | reflexivity ].
    apply Forall_forall. intros c Hc. unfold mapi in Hc.
    apply in_mapi_from in Hc. destruct Hc as (k & r0 & _ & ->). cbn.
    rewrite Hid. auto.
Qed.

(** ** Label offsets *)

Lemma find_assign_same {A} key (v : A) l :
  find (fun kv => String.eqb (fst kv) key) (assign key v l) = Some (key, v) \/
  exists k, String.eqb k key = true /\
            find (fun kv => String.eqb (fst kv) key) (assign key v l) = Some (k, v).
Proof.
  induction l as [ | [k x] l IH ]; cbn.
  - rewrite String.eqb_refl. now left.
  - destruct (String.eqb k key) eqn:E; cbn; rewrite E; [ | exact IH ].
    right. exists k. auto.
Qed.

Lemma find_assign_other {A} key other (v : A) l :
  other <> key ->
  find (fun kv => String.eqb (fst kv) other) (assign key v l) =
  find (fun kv => String.eqb (fst kv) other) l.
Proof.
  intros Hne. induction l as [ | [k x] l IH ]; cbn.
  - destruct (String.eqb key other) eqn:E; [ | reflexivity ].
    apply String.eqb_eq in E. congruence.
  - destruct (String.eqb k key) eqn:E; cbn.
    + apply String.eqb_eq in E. subst k.
      destruct (String.eqb key other) eqn:E'; [ | reflexivity ].
      apply String.eqb_eq in E'. congruence.
    + destruct (String.eqb k other); [ reflexivity | exact IH ].
Qed.

Lemma assign_keys {A} key (v : A) l :
  map fst (assign key v l) =
  if existsb (String.eqb key) (map fst l) then map fst l else map fst l ++ [key].
Proof.
  induction l as [ | [k x] l IH ]; cbn; [ reflexivity | ].
  rewrite (String.eqb_sym key k).
  destruct (String.eqb k key) eqn:E; cbn; [ reflexivity | ].
  rewrite IH. destruct (existsb (String.eqb key) (map fst l)); reflexivity.
Qed.

Lemma distinct_snoc keys key :
  distinct keys = true -> existsb (String.eqb key) keys = false ->
  distinct (keys ++ [key]) = true.
Proof.
  induction keys as [ | k keys IH ]; cbn; [ reflexivity | ].
  rewrite !andb_true_iff, negb_true_iff, orb_false_iff.
  intros [H1 H2] [H3 H4]. split; [ | auto ].
  rewrite existsb_app, H1. cbn. rewrite String.eqb_sym, H3. reflexivity.
Qed.

(** X22.  area/set-edge-label-offset stores the offset under its edge
    key: looking the key up in the area afterwards gives the offset, every
    other key holds what it held, a table with one entry for each key
    stays one, and nothing else of the area changes. *)
Theorem edge_label_offset_is_stored_under_its_key :
  forall w plan p a,
    findArea plan (elo_id p) = Some a ->
    exists res offsets,
      performCommand w plan (area_set_edge_label_offset p) = Some res /\
      findArea (res_plan res) (elo_id p) =
        Some (set_edgeLabelOffsets a (Some offsets)) /\
      option_map snd
        (find (fun kv => String.eqb (fst kv) (elo_edgeKey p)) offsets)
        = Some (elo_offset p) /\
      (forall other,
          other <> elo_edgeKey p ->
          find (fun kv => String.eqb (fst kv) other) offsets =
          find (fun kv => String.eqb (fst kv) other)
               (orElse (area_edgeLabelOffsets a) [])) /\
      (distinct (map fst (orElse (area_edgeLabelOffsets a) [])) = true ->
       distinct (map fst offsets) = true) /\
      map identity_of (areas (res_plan res)) = map identity_of (areas plan).
Proof.
  intros w plan p a Hfind.
  eexists. eexists. split.
  - unfold performCommand, setEdgeLabelOffset, clonePlan. rewrite Hfind. reflexivity.
  - cbn [res_plan done ensureUpdated set_updatedAt update_area set_areas areas].
    split; [ | split; [ | split; [ | split ] ] ].
    + unfold findArea in *. cbn [areas].
      apply (findArea_update_first (elo_id p)
               (fun a0 => set_edgeLabelOffsets a0
                  (Some (assign (elo_edgeKey p) (elo_offset p)
                                (orElse (area_edgeLabelOffsets a0) []))))
               (areas plan) a Hfind).
      reflexivity.
    + destruct (find_assign_same (elo_edgeKey p) (elo_offset p)
                  (orElse (area_edgeLabelOffsets a) [])) as [-> | (k & _ & ->)];
        reflexivity.
    + intros other Hne. now apply find_assign_other.
    + intros Hd. rewrite assign_keys.
      destruct (existsb _ _) eqn:E; [ exact Hd | now apply distinct_snoc ].
    + apply map_update_first. reflexivity.
Qed.

(** ** Moving a polygon *)

(** X23.  area/move-polygon gives a polygon or multipolygon target the
    shape with the delta added to every point of every outline and every
    hole, in place, whatever the canvas is: the move is not clamped.  The
    other areas and the canvas stay, the target is selected; for a rect
    or ellipse target the plan comes back as given. *)
Theorem polygon_move_shifts_every_point :
  forall w plan id ddx ddy a,
    findArea plan id = Some a ->
    let d := mkDelta ddx ddy in
    let cmd := area_move_polygon {| mv_id := id; mv_dx := ddx; mv_dy := ddy |} in
    (is_polygonal (area_shape a) = true ->
     exists res,
       performCommand w plan cmd = Some res /\
       findArea (res_plan res) id = Some (set_shape a (shift_shape d (area_shape a))) /\
       (forall other, other <> id ->
                      findArea (res_plan res) other = findArea plan other) /\
       canvas (res_plan res) = canvas plan /\
       res_selection res = Some (mkSelection [id])) /\
    (is_polygonal (area_shape a) = false ->
     performCommand w plan cmd = Some (unchanged plan)).
Proof.
  intros w plan id ddx ddy a Hfind d cmd. subst cmd.
  unfold performCommand, movePolygonArea, clonePlan. cbn [mv_id mv_dx mv_dy].
  rewrite Hfind. fold d.
  assert (Hother : forall shape other,
             other <> id ->
             findArea (update_area plan id (fun x => set_shape x shape)) other
             = findArea plan other).
  { intros shape other Hne. unfold findArea, update_area, set_areas; cbn [areas].
    rewrite find_update_first_other by (auto; intros x; reflexivity).
    destruct (find _ (areas plan)); reflexivity. }
  assert (Hmoved : forall shape,
             findArea (update_area plan id (fun x => set_shape x shape)) id
             = Some (set_shape a shape)).
  { intros shape. unfold findArea in *. cbn [update_area set_areas areas].
    apply (findArea_update_first id (fun x => set_shape x shape)
                                 (areas plan) a Hfind). reflexivity. }
  split.
  - intros Hkind.
    destruct (area_shape a) as [ | | p | mp ] eqn:Es; try discriminate Hkind;
      eexists; (split; [ reflexivity | ]);
      cbn [res_plan done res_selection];
      change (findArea (ensureUpdated w ?q)) with (findArea q);
      (split; [ rewrite Hmoved; reflexivity | ]);
      (split; [ intros other Hne; apply Hother; exact Hne | ]);
      split; reflexivity.
  - intros Hkind.
    destruct (area_shape a) as [ | | p | mp ]; try discriminate Hkind; reflexivity.
Qed.

(** ** Creating and pasting *)

Lemma pasteShape_outline bounds pdx pdy shape shape' :
  pasteShape bounds pdx pdy shape = Some shape' ->
  match shape' with
  | Polygon q => (3 <= List.length (poly_points q))%nat
  | MultiPolygon mq =>
      mp_polygons mq <> [] /\
      Forall (fun poly => (3 <= List.length poly)%nat) (mp_polygons mq)
  | _ => True
  end.
Proof.
  unfold pasteShape. destruct shape as [ r | e | p | mp ].
  - intros [= <-]. exact I.
  - intros [= <-]. exact I.
  - destruct (_ <? 3)%nat eqn:E; [ discriminate | ]. intros [= <-].
    apply Nat.ltb_ge in E. exact E.
  - destruct (_ || _) eqn:E; [ discriminate | ]. intros [= Hq].
    apply orb_false_iff in E. destruct E as [E1 E2].
    destruct shape' as [ | | | mq ]; try discriminate. injection Hq as Hq.
    symmetry in Hq. split.
    + intros H. subst mq. cbn [mp_polygons] in H. rewrite H in E1. discriminate.
    + apply Forall_forall. intros poly Hpoly.
      destruct (List.length poly <? 3)%nat eqn:Ep; [ | now apply Nat.ltb_ge in Ep ].
      assert (Hex : existsb (fun poly => (List.length poly <? 3)%nat)
                            (mp_polygons mq) = true)
        by (apply existsb_exists; exists poly; auto).
      subst mq. cbn [mp_polygons] in Hex. congruence.
Qed.

Lemma pasteShape_pastable bounds pdx pdy shape :
  pastable shape = true <-> pasteShape bounds pdx pdy shape <> None.
Proof.
  destruct shape as [r | e | p | mp]; cbn [pastable pasteShape].
  - split; [ discriminate | reflexivity ].
  - split; [ discriminate | reflexivity ].
  - rewrite length_map.
    destruct (List.length (poly_points p) <? 3)%nat eqn:E.
    + apply Nat.ltb_lt in E. split; [ | intros H; now destruct H ].
      intros H. apply Nat.leb_le in H. lia.
    + apply Nat.ltb_ge in E. split; [ discriminate | ].
      intros _. apply Nat.leb_le. exact E.
  - rewrite length_map.
    assert (Hex : existsb (fun poly : list Point => (List.length poly <? 3)%nat)
                    (map (map (fun p => mkPoint (px p + pdx)%num (py p + pdy)%num))
                         (mp_polygons mp))
                  = negb (forallb (fun poly => (3 <=? List.length poly)%nat)
                                  (mp_polygons mp))).
    { induction (mp_polygons mp) as [ | poly l IH ]; cbn [map existsb forallb];
        [ reflexivity | ].
      rewrite IH, length_map, negb_andb. f_equal.
      destruct (Nat.ltb_spec (List.length poly) 3),
               (Nat.leb_spec 3 (List.length poly)); try reflexivity; lia. }
    rewrite Hex. unfold Ring in *.
    destruct (_ =? 0)%nat; cbn [negb andb orb].
    + split; [ intros H; discriminate H | intros H; now destruct H ].
    + match goal with
      | |- context [forallb ?f ?l] => destruct (forallb f l)
      end; cbn [negb]; split; intros H;
        try reflexivity; try discriminate H; try discriminate;
        now destruct H.
Qed.

Lemma length_mapi_from {A B} (f : nat -> A -> B) l :
  forall s, List.length (mapi_from s f l) = List.length l.
Proof.
  induction l as [ | x l IH ]; intros s; cbn; [ reflexivity | ].
  now rewrite IH.
Qed.

Lemma length_kept {A B} (f : A -> option B) (keep : A -> bool) l :
  (forall a, keep a = true <-> f a <> None) ->
  List.length (filter_map f l) = List.length (filter keep l).
Proof.
  intros H. induction l as [ | a l IH ]; cbn; [ reflexivity | ].
  destruct (f a) eqn:E; destruct (keep a) eqn:K; cbn; rewrite ?IH; try reflexivity.
  - assert (keep a = true) by (apply H; congruence). congruence.
  - apply H in K. congruence.
Qed.

(** X24.  area/create-polygon with fewer than three points returns the
    plan it was given, and with three or more it appends one area, the
    polygon of exactly the given points, under the identifier it draws,
    and selects it.  area/paste appends as many areas as the payload has
    areas with a shape it takes over (a polygon of three points or more,
    a multipolygon of outlines of three points or more, any rect or
    ellipse); each has no parent, and a pasted polygon has three points
    or more, a pasted multipolygon an outline, each of three points or
    more. *)
Theorem created_and_pasted_polygons_have_three_points :
  forall w plan,
    (forall p,
        ((List.length (cpoly_points p) < 3)%nat ->
         performCommand w plan (area_create_polygon p) = Some (unchanged plan)) /\
        ((3 <= List.length (cpoly_points p))%nat ->
         exists res a,
           performCommand w plan (area_create_polygon p) = Some res /\
           areas (res_plan res) = areas plan ++ [a] /\
           area_id a = randomUUID w 0 /\
           area_shape a = Polygon (mkPolygon (cpoly_points p) None None) /\
           res_selection res = Some (mkSelection [randomUUID w 0]))) /\
    (forall p,
        exists res created,
          performCommand w plan (area_paste p) = Some res /\
          areas (res_plan res) = areas plan ++ created /\
          List.length created =
            List.length (filter (fun a => pastable (area_shape a)) (paste_areas p)) /\
          Forall (fun a =>
                    area_parentId a = None /\
                    match area_shape a with
                    | Polygon q => (3 <= List.length (poly_points q))%nat
                    | MultiPolygon mq =>
                        mp_polygons mq <> [] /\
                        Forall (fun poly => (3 <= List.length poly)%nat)
                               (mp_polygons mq)
                    | _ => True
                    end)
                 created).
Proof.
  intros w plan. split.
  - intros p. cbn [performCommand]. unfold createPolygon, clonePlan.
    destruct (_ <? 3)%nat eqn:E.
    + apply Nat.ltb_lt in E. split; [ reflexivity | lia ].
    + apply Nat.ltb_ge in E. split; [ lia | ]. intros _.
      eexists. eexists. split; [ reflexivity | ]. repeat split.
  - intros p. cbn [performCommand]. unfold pasteAreas, clonePlan.
    match goal with
    | |- context [mapi ?f ?l] => set (created := mapi f l)
    end.
    assert (Hlen : List.length created =
                   List.length (filter (fun a => pastable (area_shape a))
                                       (paste_areas p))).
    { subst created. unfold mapi. rewrite length_mapi_from.
      apply length_kept. intros a.
      rewrite (pasteShape_pastable (canvas_bounds (canvas plan)) (paste_dx p)
                 (paste_dy p) (area_shape a)).
      destruct (pasteShape _ _ _ _); cbn; split; congruence. }
    assert (Hall : Forall (fun a =>
                    area_parentId a = None /\
                    match area_shape a with
                    | Polygon q => (3 <= List.length (poly_points q))%nat
                    | MultiPolygon mq =>
                        mp_polygons mq <> [] /\
                        Forall (fun poly => (3 <= List.length poly)%nat)
                               (mp_polygons mq)
                    | _ => True
                    end) created).
    { apply Forall_forall. intros a Hin. subst created. unfold mapi in Hin.
      apply in_mapi_from in Hin.
      destruct Hin as (k & [area shape] & Hkept & ->).
      apply in_filter_map in Hkept. destruct Hkept as (src & _ & Hsrc).
      destruct (pasteShape _ _ _ (area_shape src)) as [shape' | ] eqn:Ep;
        [ | discriminate ].
      cbn in Hsrc. injection Hsrc as <- <-. cbn [area_parentId area_shape].
      split; [ reflexivity | ]. apply (pasteShape_outline _ _ _ _ _ Ep). }
    exists (match created with
            | [] => unchanged plan
            | _ => done (ensureUpdated w (set_areas plan (areas plan ++ created)))
                        (map area_id created) "Paste areas"
            end), created.
    split; [ destruct created; reflexivity | ].
    split; [ | split; assumption ].
    destruct created; [ cbn; now rewrite app_nil_r | reflexivity ].
Qed.

(** ** Groups *)

(** X25.  [addGroup] appends one visible group under the identifier it
    draws; when no group held that identifier before, [deleteGroup] of it
    gives back the groups as they were.  Neither touches the areas. *)
Theorem deleting_a_new_group_restores_the_groups :
  forall w plan name ids,
    Forall (fun g => group_id g <> randomUUID w 0) (orElse (areaGroups plan) []) ->
    let added := addGroup w plan name ids in
    let removed := deleteGroup added (randomUUID w 0) in
    areaGroups added =
      Some (orElse (areaGroups plan) []
            ++ [mkAreaGroup (randomUUID w 0) name ids None (Some true)]) /\
    areaGroups removed = Some (orElse (areaGroups plan) []) /\
    areas added = areas plan /\ areas removed = areas plan /\
    canvas removed = canvas plan /\ meta removed = meta plan.
Proof.
  intros w plan name ids Hfresh added removed. subst added removed.
  unfold addGroup, deleteGroup. cbn.
  repeat split. f_equal. rewrite filter_app. cbn. rewrite String.eqb_refl. cbn.
  rewrite app_nil_r. apply forallb_filter_id. apply forallb_forall.
  rewrite Forall_forall in Hfresh. intros g Hg.
  apply negb_true_iff, String.eqb_neq. now apply Hfresh.
Qed.

(** X26.  [toggleGroupVisibility] sets the flag of every group with the
    id and nothing else: ids, names, members, locks and the order of the
    groups stay, the other groups stay as they are, and doing it twice is
    doing it once. *)
Theorem group_visibility_sets_only_the_flag :
  forall plan id visible,
    let groups := orElse (areaGroups plan) [] in
    let plan' := toggleGroupVisibility plan id visible in
    let groups' := orElse (areaGroups plan') [] in
    map (fun g => (group_id g, group_name g, group_areaIds g, group_locked g)) groups'
      = map (fun g => (group_id g, group_name g, group_areaIds g, group_locked g))
            groups /\
    (forall g, In g groups' -> group_id g = id -> group_visible g = Some visible) /\
    (forall g, In g groups -> group_id g <> id -> In g groups') /\
    toggleGroupVisibility plan' id visible = plan' /\
    areas plan' = areas plan /\ canvas plan' = canvas plan /\ meta plan' = meta plan.
Proof.
  intros plan id visible groups plan' groups'. subst plan' groups'.
  unfold toggleGroupVisibility. cbn [areaGroups set_areaGroups orElse].
  fold groups. clearbody groups.
  split; [ | split; [ | split; [ | split; [ | repeat split ] ] ] ].
  - rewrite map_map. apply map_ext. intros g.
    destruct (String.eqb (group_id g) id); reflexivity.
  - intros g Hg Hid. apply in_map_iff in Hg. destruct Hg as (g0 & <- & _).
    destruct (String.eqb (group_id g0) id) eqn:E; [ reflexivity | ].
    apply String.eqb_neq in E. contradiction.
  - intros g Hg Hid. apply in_map_iff. exists g. split; [ | assumption ].
    apply String.eqb_neq in Hid. now rewrite Hid.
  - unfold set_areaGroups. cbn. f_equal. f_equal. rewrite map_map.
    apply map_ext. intros g.
    destruct (String.eqb (group_id g) id) eqn:E; cbn; rewrite E; reflexivity.
Qed.

(** ** What the store records *)

Lemma changed_same p : Store.changed p p = false.
Proof.
  unfold Store.changed. apply negb_false_iff. now apply text_eqb_eq.
Qed.

(** X27.  [apply] leaves the store as it is when the handler gives back
    the plan it was handed and no selection, as the handlers that look
    their target up do for an unknown id: nothing is recorded, and the
    plan and the selection stay.  For selection/set nothing is recorded
    either, and the result is that of the store's own [setSelection]. *)
Theorem unchanged_plans_leave_no_record :
  forall w st,
    (forall s,
        Store.apply w (selection_set s) st = Some (Store.setSelection s st)) /\
    (forall c,
        performCommand w (Store.plan st) c = Some (unchanged (Store.plan st)) ->
        Store.apply w c st = Some st) /\
    (forall c id,
        single_target c = Some id -> is_delete c = false ->
        findArea (Store.plan st) id = None ->
        Store.apply w c st = Some st).
Proof.
  intros w st.
  assert (Hsame : forall c,
             performCommand w (Store.plan st) c = Some (unchanged (Store.plan st)) ->
             Store.apply w c st = Some st).
  { intros c H. unfold Store.apply, clonePlan. rewrite H. unfold unchanged.
    rewrite changed_same. reflexivity. }
  split; [ | split ].
  - intros s. unfold Store.apply, clonePlan. cbn [performCommand setSelection].
    rewrite changed_same. reflexivity.
  - exact Hsame.
  - intros c id Ht Hd Hf. apply Hsame.
    apply (unknown_target_is_noop w (Store.plan st) c id Ht Hd Hf).
Qed.

(** X28.  After [apply] of an effective command the record of the
    command is the newest entry of the undo stack, the redo stack is
    empty, so that [redo] does nothing, and one [undo] restores the plan
    from before the command and empties the selection. *)
Theorem a_new_edit_discards_the_redo_stack :
  forall w c st,
    Store.effective w c st = true ->
    exists st' r older,
      Store.apply w c st = Some st' /\
      Store.record_of w c st = Some r /\
      undo_stack (Store.history st') = older ++ [r] /\
      redo_stack (Store.history st') = [] /\
      Store.redo st' = st' /\
      Store.plan st' = rec_after r /\
      Store.plan (Store.undo st') = Store.plan st /\
      Store.selection (Store.undo st') = mkSelection [].
Proof.
  intros w c st Heff.
  destruct (apply_effective _ _ _ Heff) as (r & sel & Hrec & Hbefore & Happ).
  eexists. exists r.
  exists (Store.slice_last 99 (undo_stack (Store.history st))).
  split; [ exact Happ | ]. split; [ exact Hrec | ].
  assert (Hundo :
    undo_stack (Store.pushHistory (Store.history st) r) =
    Store.slice_last 99 (undo_stack (Store.history st)) ++ [r]).
  { unfold Store.pushHistory. cbn [undo_stack].
    rewrite slice_last_app by (cbn; lia). reflexivity. }
  cbn [Store.update Store.history Store.plan].
  split; [ exact Hundo | ]. split; [ reflexivity | ].
  split; [ reflexivity | ]. split; [ reflexivity | ].
  rewrite (undo_last (Store.update st (rec_after r) sel
                                   (Store.pushHistory (Store.history st) r))
                     _ _ Hundo).
  cbn. auto.
Qed.

(** X29.  The undo and the redo stack together never hold more than
    100 records: [apply] keeps the bound, [undo] and [redo] keep the
    total, and [loadPlan] empties both. *)
Theorem history_never_exceeds_the_cap :
  forall w c st,
    let size s :=
      (List.length (undo_stack (Store.history s))
       + List.length (redo_stack (Store.history s)))%nat in
    (size st <= 100)%nat ->
    (forall st', Store.apply w c st = Some st' -> (size st' <= 100)%nat) /\
    size (Store.undo st) = size st /\
    size (Store.redo st) = size st /\
    (forall p, size (Store.loadPlan p st) = 0%nat).
Proof.
  intros w c st size Hsize. subst size. cbv beta in *.
  split; [ | split; [ | split ] ].
  - intros st' H. unfold Store.apply in H.
    destruct (performCommand w (Store.plan st) c) as [[after sel descr] | ];
      [ | discriminate ].
    destruct (negb _).
    + destruct sel; injection H as <-; exact Hsize.
    + injection H as <-. cbn. rewrite slice_last_length. lia.
  - destruct (undo_stack (Store.history st)) as [ | r0 u ] eqn:E.
    + unfold Store.undo. rewrite E. cbn. now rewrite E.
    + destruct (@exists_last _ (r0 :: u)) as (older & r & Hlast); [ discriminate | ].
      rewrite (undo_last st older r) by (rewrite E; exact Hlast). cbn.
      apply (f_equal (@List.length _)) in Hlast.
      rewrite length_app in Hlast. cbn in Hlast. lia.
  - unfold Store.redo.
    destruct (redo_stack (Store.history st)) as [ | r0 rest ] eqn:E;
      [ now rewrite E | ].
    cbn. rewrite length_app. cbn. lia.
  - reflexivity.
Qed.

(** ** What the importer checks *)

(** X30.  [importPlanFromJson] checks nothing but the version: the text
    of an object is accepted, and returned as parsed, exactly when its
    [version] property is truthy, and the text of any other value is
    refused. *)
Theorem import_checks_only_the_version :
  forall v json,
    clean v = true ->
    JSON_stringify v = Some json ->
    (forall props,
        v = JObj props ->
        importPlanFromJson json =
          if truthy (orElse (field props "version") JUndefined)
          then Some v else None) /\
    ((forall props, v <> JObj props) -> importPlanFromJson json = None).
Proof.
  intros v json Hclean Hjson.
  pose proof (JSON_round_trip v json Hclean Hjson) as Hparse.
  unfold importPlanFromJson. rewrite Hparse. split.
  - intros props ->. cbn [get_property]. unfold field.
    destruct (find _ props) as [ kv | ]; cbn [option_map orElse];
      destruct (truthy _); reflexivity.
  - intros Hnot. destruct v; try reflexivity; try discriminate.
    now destruct (Hnot props).
Qed.

(* ================================================================== *)
(** ** The properties at sample inputs *)

(** C2, witness: three zoom commands on the seeded store. *)
Lemma undo_redo_round_trip_witness :
  exists st',
    Store.run (zoom_session 3) demo_state = Some st' /\
    Store.plan (Store.iterate 3 Store.undo st') = Store.plan demo_state /\
    Store.plan (Store.iterate 3 Store.redo (Store.iterate 3 Store.undo st'))
      = Store.plan st'.
Proof.
  destruct (Store.run (zoom_session 3) demo_state) as [st' |] eqn:E.
  - exists st'. split; [ reflexivity | ].
    apply (undo_redo_round_trip_within_cap (zoom_session 3) demo_state st');
      [ vm_compute; reflexivity | exact E | simpl; lia ].
  - vm_compute in E. discriminate E.
Defined.

(** C2, refuted as stated: after 101 effective commands, 101 undos do not
    restore the plan the session started from. *)
Lemma undo_beyond_cap_counterexample :
  Store.all_effective (zoom_session 101) demo_state = true /\
  exists st',
    Store.run (zoom_session 101) demo_state = Some st' /\
    Store.plan (Store.iterate 101 Store.undo st') <> Store.plan demo_state.
Proof.
  split; [ vm_compute; reflexivity | ].
  assert (H : match Store.run (zoom_session 101) demo_state with
              | Some st' =>
                  let undone := Store.plan (Store.iterate 101 Store.undo st') in
                  (canvas_zoom (canvas undone) =? of_Z 2)%num
              | None => false
              end = true) by (vm_compute; reflexivity).
  destruct (Store.run (zoom_session 101) demo_state) as [st' |]; [ | discriminate H ].
  exists st'. split; [ reflexivity | ].
  cbv zeta in H. intros Heq. rewrite Heq in H. vm_compute in H. discriminate H.
Qed.

(** C5, witness: 150 zoom commands on the seeded store. *)
Lemma history_bound_witness :
  exists st',
    Store.run (zoom_session 150) demo_state = Some st' /\
    List.length (Store.records_of (zoom_session 150) demo_state) = 150%nat /\
    List.length (undo_stack (Store.history st')) = 100%nat /\
    undo_stack (Store.history st') =
      skipn 50 (Store.records_of (zoom_session 150) demo_state).
Proof.
  apply (history_bound_150 (zoom_session 150) demo_state);
    [ reflexivity | vm_compute; reflexivity | reflexivity ].
Defined.

(** C7, witness: an angle of 100 degrees, which is 104857600 times
    [2^-20]. *)
Lemma snapAngle_witness :
  snapAngle (of_Z 100) false = of_Z 100 /\
  first_nearest_in snaps (of_Z 100) (snapAngle (of_Z 100) true) /\
  nearest_in snaps (of_Z 100) (snapAngle (of_Z 100) true).
Proof.
  destruct (snapAngle_first_nearest_snap (of_Z 100)) as [Hoff Hon].
  split; [ exact Hoff | ]. apply Hon.
  - split.
    + exists 104857600%Z. apply Qc_is_canon. vm_compute. reflexivity.
    + vm_compute. discriminate.
  - vm_compute. discriminate.
Defined.





(** C6, witness: the plan with the one 4 by 2 room. *)
Lemma divide_4x2_witness :
  exists res,
    performCommand demo_platform hall_plan
      (area_divide {| dv_id := "hall"; dv_partitions := 2;
                      dv_direction := Some Vertical |}) = Some res /\
    map area_shape (areas (res_plan res)) =
      [ Rect (rectShape (of_Z 0) (of_Z 0) (of_Z 2) (of_Z 2));
        Rect (rectShape (of_Z 2) (of_Z 0) (of_Z 2) (of_Z 2)) ] /\
    map area_parentId (areas (res_plan res)) = [Some "hall"; Some "hall"] /\
    map area_name (areas (res_plan res)) = ["Hall A"; "Hall B"].
Proof.
  destruct (divide_4x2_vertical demo_platform hall_plan "hall" hall None None
              eq_refl eq_refl) as (res & Hrun & Hareas & _).
  exists res. split; [ exact Hrun | ]. rewrite Hareas.
  repeat split; reflexivity.
Defined.

(** C8, witness: a rect laid over the second room of the seeded plan. *)
Lemma overlap_witness :
  (exists res a,
      performCommand demo_platform demo_plan
        (area_set_rect {| sr_id := "uuid-0"; sr_rect := overlapping_rect |})
        = Some res /\
      findArea (res_plan res) "uuid-0" = Some a /\
      area_shape a = Rect overlapping_rect) /\
  (exists res created,
      performCommand later_platform demo_plan
        (area_create {| ca_rect := overlapping_rect; ca_partitions := None;
                        ca_direction := None; ca_fill := None; ca_stroke := None;
                        ca_name := None; ca_parentId := None |}) = Some res /\
      areas (res_plan res) = areas demo_plan ++ created /\
      map area_shape created = [Rect overlapping_rect]).
Proof.
  destruct (overlap_is_not_a_precondition demo_platform demo_plan) as [Hset _].
  destruct (overlap_is_not_a_precondition later_platform demo_plan) as [_ Hcreate].
  split.
  - destruct (findArea demo_plan "uuid-0") as [a |] eqn:Ea;
      [ | vm_compute in Ea; discriminate Ea ].
    destruct (Hset {| sr_id := "uuid-0"; sr_rect := overlapping_rect |} a
                   (rectShape (of_Z 1) (of_Z 1) (of_Z 4) (of_Z 3)))
      as (res & Hrun & Hfind & _ & Hsame).
    + exact Ea.
    + vm_compute in Ea. injection Ea as <-. reflexivity.
    + vm_compute in Ea. injection Ea as <-. vm_compute. reflexivity.
    + exists res. eexists. split; [ exact Hrun | ]. split; [ exact Hfind | ].
      unfold set_shape. cbn [area_shape sr_rect]. apply (f_equal Rect). apply Hsame.
      * unfold rect_within. repeat split; vm_compute; discriminate.
      * vm_compute; discriminate.
      * vm_compute; discriminate.
  - destruct (Hcreate {| ca_rect := overlapping_rect; ca_partitions := None;
                         ca_direction := None; ca_fill := None; ca_stroke := None;
                         ca_name := None; ca_parentId := None |})
      as (res & created & Hrun & Hareas & Hshapes & _).
    + vm_compute. reflexivity.
    + exists res, created. split; [ exact Hrun | ]. split; [ exact Hareas | ].
      rewrite Hshapes. reflexivity.
Defined.


(** X1, at the triangle. *)
Lemma bounding_box_witness :
  exists b,
    shapeBoundingBox (area_shape triangle_area) = Some b /\
    Forall (in_box b) triangle.
Proof.
  destruct (bounding_box_contains_every_point (area_shape triangle_area) eq_refl)
    as (b & Hb & Hin & _).
  - discriminate.
  - exists b. split; [ exact Hb | ].
    apply Forall_forall. intros p Hp. apply Hin. exact Hp.
Defined.

(** X2, at the first room on the seeded canvas, shrunk by its south-east
    handle. *)
Lemma min_size_witness :
  let d := mkDelta (of_Z (-10)) (of_Z (-10)) in
  let b := canvas_bounds (canvas demo_plan) in
  (MIN_SIZE <= rect_width (applyRectResize room h_se d b MIN_SIZE))%num /\
  (MIN_SIZE <= rect_height (applyRectResize room h_se d b MIN_SIZE))%num /\
  (MIN_SIZE <= rect_width (constrainRectToBounds room b MIN_SIZE))%num /\
  (MIN_SIZE <= rect_height (constrainRectToBounds room b MIN_SIZE))%num.
Proof.
  apply (resize_and_constrain_keep_min_size
           room h_se (mkDelta (of_Z (-10)) (of_Z (-10)))
           (canvas_bounds (canvas demo_plan)));
    split; vm_compute; discriminate.
Defined.

(** X3, at the first room, dragged by its south handle. *)
Lemma resize_axis_witness :
  let r' := applyRectResize room h_s (mkDelta (of_Z 1) (of_Z 2))
                            (canvas_bounds (canvas demo_plan)) MIN_SIZE in
  rect_x r' = rect_x room /\ rect_width r' = rect_width room.
Proof.
  destruct (resize_moves_only_the_dragged_axis
              room h_s (mkDelta (of_Z 1) (of_Z 2)) (canvas demo_plan) MIN_SIZE)
    as (Hx & _).
  - unfold origin_clamped. repeat split; vm_compute; discriminate.
  - vm_compute; discriminate.
  - vm_compute; discriminate.
  - exact (Hx eq_refl eq_refl).
Defined.

(** X12, at 1.3 on the quarter grid. *)
Lemma snapValue_witness :
  exists k : Z,
    snapValue (lit 13 10) (lit 1 4) = (of_Z k * lit 1 4)%num /\
    (Math_abs (snapValue (lit 13 10) (lit 1 4) - lit 13 10) <= lit 1 4 / of_Z 2)%num.
Proof.
  destruct (snapValue_on_a_binary_grid (lit 13 10) (lit 1 4))
    as (k & Hk & Hnear & _).
  - exists 2%nat. split; [ lia | right ]. apply Qc_is_canon. reflexivity.
  - vm_compute. discriminate.
  - exists k. split; assumption.
Defined.


(** X16, at a rename in the seeded plan. *)
Lemma in_place_edit_witness :
  exists res,
    performCommand later_platform demo_plan
      (area_rename {| rn_id := "uuid-0"; rn_name := "Kitchen" |}) = Some res /\
    map identity_of (areas (res_plan res)) = map identity_of (areas demo_plan) /\
    frame (res_plan res) = frame demo_plan.
Proof.
  eexists. split; [ reflexivity | ].
  apply (in_place_edits_keep_the_identity_of_areas later_platform demo_plan
           (area_rename {| rn_id := "uuid-0"; rn_name := "Kitchen" |}) _
           eq_refl eq_refl).
Defined.

(** X17, at the deletion of the first room of the seeded plan. *)
Lemma command_frame_witness :
  exists res,
    performCommand later_platform demo_plan (area_delete "uuid-0") = Some res /\
    units (res_plan res) = units demo_plan /\
    canvas (res_plan res) = canvas demo_plan /\
    areaGroups (res_plan res) = areaGroups demo_plan /\
    meta_updatedAt (meta (res_plan res)) = now later_platform 0.
Proof.
  eexists. split; [ reflexivity | ].
  destruct (commands_change_only_their_part_of_the_plan later_platform demo_plan
              (area_delete "uuid-0") _ eq_refl eq_refl)
    as (Hu & _ & _ & Hc & Hg & _ & _).
  split; [ exact Hu | ]. split; [ exact (Hc eq_refl) | ].
  split; [ exact (Hg eq_refl) | reflexivity ].
Defined.

(** X19, at an id the seeded plan does not hold. *)
Lemma unknown_targets_witness :
  performCommand demo_platform demo_plan (area_subtract ["nope"; "neither"])
    = Some (unchanged demo_plan) /\
  performCommand later_platform demo_plan
    (area_move_multi {| mm_ids := ["nope"; "neither"]; mm_dx := of_Z 1;
                        mm_dy := of_Z 1 |})
    = Some (done (ensureUpdated later_platform demo_plan) ["nope"; "neither"]
                 "Move areas").
Proof.
  assert (Hnone : forall id, In id ["nope"; "neither"] -> findArea demo_plan id = None)
    by (intros id [<- | [<- | []]]; reflexivity).
  split.
  - apply (commands_on_unknown_targets demo_platform demo_plan _ Hnone).
  - apply (commands_on_unknown_targets later_platform demo_plan _ Hnone).
Defined.

(** X21, at the hall divided in three. *)
Lemma divide_parts_witness :
  exists res,
    performCommand demo_platform hall_plan
      (area_divide {| dv_id := "hall"; dv_partitions := 3; dv_direction := None |})
      = Some res /\
    map area_name (areas (res_plan res)) = ["Hall A"; "Hall B"; "Hall C"] /\
    map area_parentId (areas (res_plan res)) =
      [Some "hall"; Some "hall"; Some "hall"].
Proof.
  destruct (divide_makes_named_parts_of_a_rect demo_platform hall_plan
              {| dv_id := "hall"; dv_partitions := 3; dv_direction := None |}
              hall (rectShape (of_Z 0) (of_Z 0) (of_Z 4) (of_Z 2)) eq_refl eq_refl)
    as (res & created & Hrun & _).
  exists res. split; [ exact Hrun | ].
  vm_compute in Hrun. injection Hrun as <-. split; reflexivity.
Defined.

(** X22, at the first edge of the first room of the seeded plan. *)
Lemma edge_label_witness :
  exists res a,
    performCommand later_platform demo_plan
      (area_set_edge_label_offset
         {| elo_id := "uuid-0"; elo_edgeKey := "edge-0";
            elo_offset := mkPoint (of_Z 1) (of_Z 2) |}) = Some res /\
    findArea (res_plan res) "uuid-0" = Some a /\
    area_edgeLabelOffsets a = Some [("edge-0", mkPoint (of_Z 1) (of_Z 2))].
Proof.
  destruct (findArea demo_plan "uuid-0") as [a0 | ] eqn:Ea;
    [ | vm_compute in Ea; discriminate Ea ].
  destruct (edge_label_offset_is_stored_under_its_key later_platform demo_plan
              {| elo_id := "uuid-0"; elo_edgeKey := "edge-0";
                 elo_offset := mkPoint (of_Z 1) (of_Z 2) |} a0 Ea)
    as (res & offsets & Hrun & Hfind & _).
  exists res. eexists. split; [ exact Hrun | ].
  vm_compute in Hrun. injection Hrun as <-. split; reflexivity.
Defined.

(** X14, at the seeded plan, whose names hold the number 1. *)
Lemma default_name_witness :
  defaultAreaName demo_plan = "Area 2" /\
  Forall (fun a => area_name a <> "Area 2") (areas demo_plan).
Proof.
  split; [ reflexivity | ].
  apply (default_area_name_is_unused demo_plan).
  repeat constructor; intros digits H; vm_compute in H; injection H as <-;
    reflexivity.
Defined.

(** X23, at the triangle moved by (2, 1). *)
Lemma polygon_move_witness :
  exists res,
    performCommand demo_platform triangle_plan
      (area_move_polygon {| mv_id := "tri"; mv_dx := of_Z 2; mv_dy := of_Z 1 |})
      = Some res /\
    findArea (res_plan res) "tri" =
      Some (set_shape triangle_area
              (Polygon (mkPolygon (map (shift (mkDelta (of_Z 2) (of_Z 1))) triangle)
                                  None None))).
Proof.
  destruct (polygon_move_shifts_every_point demo_platform triangle_plan "tri"
              (of_Z 2) (of_Z 1) triangle_area eq_refl) as [Hmove _].
  destruct (Hmove eq_refl) as (res & Hrun & Hfind & _).
  exists res. split; [ exact Hrun | exact Hfind ].
Defined.



(** X25, at a group added to the seeded plan. *)
Lemma group_round_trip_witness :
  areaGroups (deleteGroup (addGroup demo_platform demo_plan "Wing" ["uuid-0"])
                          (randomUUID demo_platform 0))
  = areaGroups demo_plan.
Proof.
  destruct (deleting_a_new_group_restores_the_groups
              demo_platform demo_plan "Wing" ["uuid-0"])
    as (_ & Hremoved & _).
  - constructor.
  - rewrite Hremoved. reflexivity.
Defined.

(** X28, at the first zoom command on the seeded store. *)
Lemma new_edit_witness :
  exists st',
    Store.apply demo_platform (snd (zoom_to 2)) demo_state = Some st' /\
    redo_stack (Store.history st') = [] /\
    Store.plan (Store.undo st') = Store.plan demo_state.
Proof.
  destruct (a_new_edit_discards_the_redo_stack demo_platform (snd (zoom_to 2))
              demo_state) as (st' & r & older & Happ & _ & _ & Hredo & _ & _ & Hundo & _).
  - vm_compute. reflexivity.
  - exists st'. auto.
Defined.

(** X29, at the seeded store. *)
Lemma history_cap_witness :
  (List.length (undo_stack (Store.history (Store.undo demo_state)))
   + List.length (redo_stack (Store.history (Store.undo demo_state))))%nat
  = 0%nat.
Proof.
  destruct (history_never_exceeds_the_cap demo_platform (snd (zoom_to 2)) demo_state)
    as (_ & Hundo & _).
  - cbn. lia.
  - cbv beta in Hundo. rewrite Hundo. reflexivity.
Defined.

(** X30, at a document that holds a version and nothing else: it is
    accepted, though it is no plan. *)
Lemma import_witness :
  exists json,
    JSON_stringify bare_document = Some json /\
    importPlanFromJson json = Some bare_document /\
    read_plan bare_document = None.
Proof.
  eexists. split; [ reflexivity | ].
  split; [ | reflexivity ].
  destruct (import_checks_only_the_version bare_document _ eq_refl eq_refl)
    as [Hobj _].
  rewrite (Hobj _ eq_refl). reflexivity.
Defined.
